(** * Shear-response post-processing of the monolayer screening workflow

    A shallow embedding of the numeric post-processing in
    [src/operations.py] (tail-window reduction of time series, per-load
    aggregation into the job document, friction-to-COF regression) and of
    the cross-job correlation script
    [plotting/ransac/cof-Dinterdigitation.py].

    Numbers are IEEE binary64 values (Rocq's primitive floats), as in
    CPython and NumPy.  A Python exception is a value of [exn]; a job
    (workspace files, document) is threaded explicitly through every
    stage. *)

From Stdlib Require Import ZArith List Floats Uint63 Lia Bool.
From stdpp Require Import gmap strings pretty.
Import ListNotations.

Set Warnings "-inexact-float".
Local Open Scope string_scope.

(** ** Exceptions and results *)

(** A raised exception, identified by the name of its class. *)
Variant exn := Exn (cls : string).

Inductive result (A : Type) : Type :=
  | Ok (a : A)
  | Err (e : exn).
Arguments Ok {A} a.
Arguments Err {A} e.

#[global] Instance result_ret : MRet result := fun A a => Ok a.
#[global] Instance result_bind : MBind result := fun A B k r =>
  match r with
  | Ok a => k a
  | Err e => Err e
  end.

Definition raise {A} (cls : string) : result A := Err (Exn cls).

(** ** binary64 arithmetic as Python sees it *)

(** [float(n)] for a non-negative Python int that is an array length. *)
Definition float_of_nat (n : nat) : float :=
  PrimFloat.of_uint63 (Uint63.of_Z (Z.of_nat n)).

(** Integer part of a finite value, rounded toward zero. *)
Definition SFtrunc (s : bool) (m : positive) (e : Z) : Z :=
  cond_Zopp s (if (0 <=? e)%Z then (Zpos m * 2 ^ e)%Z
               else (Zpos m / 2 ^ (- e))%Z).

(** [int(x)] on a float. *)
Definition py_int (x : float) : result Z :=
  match Prim2SF x with
  | S754_zero _ => Ok 0%Z
  | S754_finite s m e => Ok (SFtrunc s m e)
  | S754_infinity _ => raise "OverflowError"
  | S754_nan => raise "ValueError"
  end.

(** [l[k:]] with Python's treatment of a negative or too large start. *)
Definition slice_from {A} (k : Z) (l : list A) : list A :=
  let len := Z.of_nat (length l) in
  skipn (Z.to_nat (if (k <? 0)%Z then Z.max (len + k) 0 else k)) l.

(** ** The NumPy functions the workflow calls *)

Module np.

(** Arrays of dimension 0, 1 and 2; a 2-d array records its number of
    columns, which survives when there are no rows. *)
Inductive ndarray :=
  | Arr0 (x : float)
  | Arr1 (xs : list float)
  | Arr2 (ncols : nat) (rows : list (list float)).

(** [len(a)]. *)
Definition len (a : ndarray) : result nat :=
  match a with
  | Arr0 _ => raise "TypeError"
  | Arr1 xs => Ok (length xs)
  | Arr2 _ rows => Ok (length rows)
  end.

(** [a[k:, c]] for a column number [c >= 0]. *)
Definition tail_column (a : ndarray) (k : Z) (c : nat) : result (list float) :=
  match a with
  | Arr2 ncols rows =>
      if (c <? ncols)%nat
      then Ok (map (fun r => nth c r nan) (slice_from k rows))
      else raise "IndexError"
  | _ => raise "IndexError"
  end.

(** A line of a text file as [loadtxt] sees it: nothing but blanks or a
    comment, a row of numbers, or something that does not parse. *)
Variant line :=
  | Blank
  | Numbers (vals : list float)
  | Garbage.

Fixpoint parse (ls : list line) : result (list (list float)) :=
  match ls with
  | [] => Ok []
  | Blank :: t | Numbers [] :: t => parse t
  | Numbers v :: t => rows ← parse t; Ok (v :: rows)
  | Garbage :: _ => raise "ValueError"
  end.

(** The default [ndmin=0]: dimensions of size one are squeezed away. *)
Definition squeeze (rows : list (list float)) : ndarray :=
  match rows with
  | [] => Arr1 []
  | [[x]] => Arr0 x
  | [row] => Arr1 row
  | row :: _ =>
      match row with
      | [_] => Arr1 (map (fun r => hd nan r) rows)
      | _ => Arr2 (length row) rows
      end
  end.

(** [np.loadtxt(fname, skiprows=n)] on the files of a directory. *)
Definition loadtxt (files : gmap string (list line)) (fname : string)
    (skiprows : nat) : result ndarray :=
  match files !! fname with
  | None => raise "OSError"
  | Some ls =>
      rows ← parse (skipn skiprows ls);
      match rows with
      | [] => Ok (squeeze rows)
      | row :: _ =>
          if forallb (fun r => (length r =? length row)%nat) rows
          then Ok (squeeze rows)
          else raise "ValueError"
      end
  end.

(** Sum of a block of fewer than eight items: left to right from 0. *)
Definition sum_small (l : list float) : float :=
  fold_left PrimFloat.add l 0%float.

(** Eight running sums over the leading whole groups of eight. *)
Fixpoint add_groups (fuel : nat) (r l : list float) : list float * list float :=
  match fuel with
  | O => (r, l)
  | S fuel' =>
      if (8 <=? length l)%nat
      then add_groups fuel'
             (map (fun p => PrimFloat.add (fst p) (snd p))
                  (combine r (firstn 8 l)))
             (skipn 8 l)
      else (r, l)
  end.

(** Sum of a block of 8 to 128 items. *)
Definition sum_block (l : list float) : float :=
  let '(r, rest) := add_groups (length l) (firstn 8 l) (skipn 8 l) in
  let r_ i := nth i r 0%float in
  fold_left PrimFloat.add rest
    (((r_ 0%nat + r_ 1%nat) + (r_ 2%nat + r_ 3%nat))
     + ((r_ 4%nat + r_ 5%nat) + (r_ 6%nat + r_ 7%nat)))%float.

(** The pairwise summation of [np.add.reduce]. *)
Fixpoint pairwise_sum (fuel : nat) (l : list float) : float :=
  let n := length l in
  if (n <? 8)%nat then sum_small l
  else if (n <=? 128)%nat then sum_block l
  else
    match fuel with
    | O => sum_block l
    | S fuel' =>
        let n2 := (n / 2 - (n / 2) mod 8)%nat in
        (pairwise_sum fuel' (firstn n2 l) + pairwise_sum fuel' (skipn n2 l))%float
    end.

Definition sum (l : list float) : float :=
  (0 + pairwise_sum (length l) l)%float.

(** [np.mean] of a 1-d array: the sum divided by the count; [nan] for
    an empty array. *)
Definition mean (l : list float) : float :=
  (sum l / float_of_nat (length l))%float.

(** [np.std] of a 1-d array. *)
Definition std (l : list float) : float :=
  let m := mean l in
  PrimFloat.sqrt
    (sum (map (fun x => ((x - m) * (x - m))%float) l)
     / float_of_nat (length l))%float.

(** Element-wise [a + b] of two 1-d arrays of one length. *)
Definition add (a b : list float) : list float :=
  map (fun p => (fst p + snd p)%float) (combine a b).

Definition logical_not (mask : list bool) : list bool := map negb mask.

End np.

(** ** SciPy's [linregress] *)

Module stats.

(** An entry of [dot(X, X.T)]: the products are added left to right. *)
Definition dot (a b : list float) : float :=
  fold_left (fun acc p => (acc + fst p * snd p)%float) (combine a b) 0%float.

(** [np.amax(x) == np.amin(x)] on a non-empty list of ints. *)
Definition all_identical (x : list nat) : bool :=
  (fold_right Nat.max 0 x =? fold_right Nat.min (hd 0 x) x)%nat.

(** [slope, intercept, _, _, _ = linregress(x, y)] for a list of ints
    [x] and a list of floats [y].  The correlation coefficient, the
    p-value and the standard error are computed from the same moments
    and do not feed back into the slope and the intercept.  SciPy
    releases differ in one respect: the later ones raise [ValueError]
    when all of [x] is one value ([rejects_identical_x]), the earlier
    ones divide by the zero variance. *)
Definition linregress (rejects_identical_x : bool) (x : list nat)
    (y : list float) : result (float * float) :=
  if ((length x =? 0) || (length y =? 0))%nat then raise "ValueError"
  else if rejects_identical_x && all_identical x && (1 <? length x)%nat
  then raise "ValueError"
  else if negb (length x =? length y)%nat then raise "ValueError"
  else
    let xf := map float_of_nat x in
    let xmean := np.mean xf in
    let ymean := np.mean y in
    (* np.cov(x, y, bias=1) *)
    let dx := map (fun v => (v - xmean)%float) xf in
    let dy := map (fun v => (v - ymean)%float) y in
    let fact := (1 / float_of_nat (length x))%float in
    let ssxm := (dot dx dx * fact)%float in
    let ssxym := (dot dx dy * fact)%float in
    let slope := (ssxym / ssxm)%float in
    let intercept := (ymean - slope * xmean)%float in
    Ok (slope, intercept).

End stats.

(** ** Jobs *)

(** The statepoint keys [chainlength], [n], [seed], [terminal_groups]. *)
Record statepoint := {
  chainlength : nat;
  sp_n : nat;
  seed : nat;
  terminal_groups : string * string
}.

(** What the workflow stores in a job document. *)
Inductive value :=
  | VFloat (x : float)
  | VDict (d : gmap string float)
  | VTuple (a b : float).

Record job := {
  sp : statepoint;
  workspace : gmap string (list np.line);
  document : gmap string value
}.

(** The trajectory analyses of [atools.structure_mixed]: each reads the
    named trajectory, topology and index files of the workspace and
    produces the text of its output file, or raises. *)
Record atools := {
  calc_nematic_order :
    gmap string (list np.line) -> string -> string -> string -> nat ->
    result (list np.line);
  calc_avg_tilt_angle :
    gmap string (list np.line) -> string -> string -> string -> nat ->
    result (list np.line);
  calc_interdigitation_traj :
    gmap string (list np.line) -> string -> string -> string ->
    result (list np.line);
  linregress_rejects_identical_x : bool
}.

(** A stage runs in the job's workspace ([@job_chdir]); an exception
    leaves the job as it was when it was raised. *)
Definition stage (A : Type) : Type := job -> result A * job.

#[global] Instance stage_ret : MRet stage := fun A a j => (Ok a, j).
#[global] Instance stage_bind : MBind stage := fun A B k m j =>
  match m j with
  | (Ok a, j') => k a j'
  | (Err e, j') => (Err e, j')
  end.

Definition lift {A} (r : result A) : stage A := fun j => (r, j).

Definition get_sp : stage statepoint := fun j => (Ok (sp j), j).

Definition loadtxt (fname : string) (skiprows : nat) : stage np.ndarray :=
  fun j => (np.loadtxt (workspace j) fname skiprows, j).

(** An external analysis writing [out_file]. *)
Definition run_tool (tool : gmap string (list np.line) -> result (list np.line))
    (out_file : string) : stage unit :=
  fun j =>
    match tool (workspace j) with
    | Ok text =>
        (Ok tt, {| sp := sp j;
                   workspace := <[out_file := text]> (workspace j);
                   document := document j |})
    | Err e => (Err e, j)
    end.

(** [job.document[key] = v]. *)
Definition set_document (key : string) (v : value) : stage unit :=
  fun j => (Ok tt, {| sp := sp j;
                      workspace := workspace j;
                      document := <[key := v]> (document j) |}).

(** [for x in l: body], threading the local variables [s]. *)
Fixpoint for_in {A S} (l : list A) (body : A -> S -> stage S) (s : S) : stage S :=
  match l with
  | [] => mret s
  | x :: t => s' ← body x s; for_in t body s'
  end.

(** ** The time-series reducer *)

(** [data[int(len(data)*f):, c]]. *)
Definition tail_slice (data : np.ndarray) (f : float) (c : nat) : result (list float) :=
  len ← np.len data;
  k ← py_int (float_of_nat len * f)%float;
  np.tail_column data k c.

(** The mean of the tail window of column [c]. *)
Definition reducer (f : float) (c : nat) (data : np.ndarray) : result float :=
  x ← tail_slice data f c; Ok (np.mean x).

(** ** Operations of [src/operations.py] *)

Section Operations.

Variable lib : atools.

(** ['shear_{}nN'.format(load)] and ['{}nN'.format(load)]. *)
Definition shear_name (load : nat) : string := "shear_" ++ pretty load ++ "nN".
Definition load_key (load : nat) : string := pretty load ++ "nN".

Definition _calc_S2 (name : string) (n_chains : nat) : stage unit :=
  let gro_file := name ++ ".gro" in
  let out_file := name ++ "-S2.txt" in
  let ndx_file := "init.ndx" in
  let traj := name ++ "-unwrapped.xtc" in
  run_tool (fun files => calc_nematic_order lib files traj gro_file ndx_file n_chains)
           out_file.

Definition _calc_tilt (name : string) (n_chains : nat) : stage unit :=
  let gro_file := name ++ ".gro" in
  let out_file := name ++ "-tilt.txt" in
  let ndx_file := "init.ndx" in
  let traj := name ++ "-unwrapped.xtc" in
  run_tool (fun files => calc_avg_tilt_angle lib files traj gro_file ndx_file n_chains)
           out_file.

Definition _calc_interdigitation (name : string) : stage unit :=
  let gro_file := name ++ ".gro" in
  let out_file := name ++ "-interdigitation.txt" in
  let ndx_file := "init.ndx" in
  let traj := name ++ ".xtc" in
  run_tool (fun files => calc_interdigitation_traj lib files traj gro_file ndx_file)
           out_file.

Definition calc_S2_shear : stage unit :=
  let loads := [5; 15; 25] in
  for_in loads (fun load _ =>
    s ← get_sp; _calc_S2 (shear_name load) (sp_n s)) tt;;
  '(s2_dict_bottom, s2_dict_top) ←
    for_in loads (fun load '(s2_dict_bottom, s2_dict_top) =>
      s2_data ← loadtxt (shear_name load ++ "-S2.txt") 0;
      s2_data_bottom ← lift (tail_slice s2_data 0.6 1);
      s2_data_top ← lift (tail_slice s2_data 0.6 2);
      mret (<[load_key load := np.mean s2_data_bottom]> s2_dict_bottom,
            <[load_key load := np.mean s2_data_top]> s2_dict_top))
      (∅, ∅);
  set_document "S2_bottom" (VDict s2_dict_bottom);;
  set_document "S2_top" (VDict s2_dict_top).

Definition calc_tilt_shear : stage unit :=
  let loads := [5; 15; 25] in
  for_in loads (fun load _ =>
    s ← get_sp; _calc_tilt (shear_name load) (sp_n s)) tt;;
  '(tilt_dict_bottom, tilt_dict_top) ←
    for_in loads (fun load '(tilt_dict_bottom, tilt_dict_top) =>
      tilt_data ← loadtxt (shear_name load ++ "-tilt.txt") 0;
      tilt_data_bottom ← lift (tail_slice tilt_data 0.6 1);
      tilt_data_top ← lift (tail_slice tilt_data 0.6 2);
      mret (<[load_key load := np.mean tilt_data_bottom]> tilt_dict_bottom,
            <[load_key load := np.mean tilt_data_top]> tilt_dict_top))
      (∅, ∅);
  set_document "tilt_bottom" (VDict tilt_dict_bottom);;
  set_document "tilt_top" (VDict tilt_dict_top).

(** The per-load mean friction forces collected by [log_cof]. *)
Definition mean_friction_forces (loads : list nat) : stage (list float) :=
  for_in loads (fun load friction_forces =>
    friction_data ← loadtxt ("friction_" ++ load_key load ++ ".txt") 0;
    friction_data ← lift (tail_slice friction_data 0.6 1);
    mret (friction_forces ++ [np.mean friction_data])%list) [].

(** The body of [log_cof] for a list of loads. *)
Definition log_cof_loads (loads : list nat) : stage unit :=
  friction_forces ← mean_friction_forces loads;
  '(cof, intercept) ←
    lift (stats.linregress (linregress_rejects_identical_x lib) loads friction_forces);
  set_document "COF" (VFloat cof);;
  set_document "intercept" (VFloat intercept).

Definition log_cof : stage unit := log_cof_loads [5; 15; 25].

Definition calc_interdigitation : stage unit :=
  let loads := [5; 15; 25] in
  interdigitation_dict ←
    for_in loads (fun load interdigitation_dict =>
      _calc_interdigitation (shear_name load);;
      interdigitation_data ← loadtxt (shear_name load ++ "-interdigitation.txt") 0;
      interdigitation_data ← lift (tail_slice interdigitation_data 0.6 1);
      mret (<[load_key load := np.mean interdigitation_data]> interdigitation_dict))
      ∅;
  set_document "interdigitation" (VDict interdigitation_dict).

Definition _log_interaction_energy (name : string) : stage unit :=
  data ← loadtxt (name ++ "-energy.xvg") 24;
  coul_energy ← lift (tail_slice data 0.5 1);
  lj_energy ← lift (tail_slice data 0.5 2);
  let total_energy := np.add coul_energy lj_energy in
  let coul_mean := np.mean coul_energy in
  let coul_std := np.std coul_energy in
  let lj_mean := np.mean lj_energy in
  let lj_std := np.std lj_energy in
  let total_mean := np.mean total_energy in
  let total_std := np.std total_energy in
  set_document (name ++ "-qq") (VTuple coul_mean coul_std);;
  set_document (name ++ "-lj") (VTuple lj_mean lj_std);;
  set_document (name ++ "-Etotal") (VTuple total_mean total_std).

Definition log_interaction_energy_5nN : stage unit :=
  _log_interaction_energy "shear_5nN".
Definition log_interaction_energy_15nN : stage unit :=
  _log_interaction_energy "shear_15nN".
Definition log_interaction_energy_25nN : stage unit :=
  _log_interaction_energy "shear_25nN".

End Operations.

(** ** The cross-job correlation script
    [plotting/ransac/cof-Dinterdigitation.py] *)

Module plotting.

(** [d[key]] on a job document and on a stored mapping. *)
Definition getitem {V} (d : gmap string V) (key : string) : result V :=
  match d !! key with
  | Some v => Ok v
  | None => raise "KeyError"
  end.

(** [job.document['interdigitation'][key]]. *)
Definition interdigitation_at (j : job) (key : string) : result float :=
  v ← getitem (document j) "interdigitation";
  match v with
  | VDict d => getitem d key
  | _ => raise "TypeError"
  end.

(** [job.document['COF']], a number. *)
Definition cof_of (j : job) : result float :=
  v ← getitem (document j) "COF";
  match v with
  | VFloat y => Ok y
  | _ => raise "TypeError"
  end.

(** The lists built by the loop over the project. *)
Record samples := {
  all_x : list float;
  all_y : list float;
  all_terminal_groups : list (string * string)
}.

Definition append_job (acc : samples) (j : job) : result samples :=
  hi ← interdigitation_at j "25nN";
  lo ← interdigitation_at j "5nN";
  let acc := {| all_x := all_x acc ++ [(hi - lo)%float];
                all_y := all_y acc;
                all_terminal_groups := all_terminal_groups acc |} in
  y ← cof_of j;
  let acc := {| all_x := all_x acc;
                all_y := all_y acc ++ [y];
                all_terminal_groups := all_terminal_groups acc |} in
  Ok {| all_x := all_x acc;
        all_y := all_y acc;
        all_terminal_groups :=
          all_terminal_groups acc ++ [terminal_groups (sp j)] |}.

Fixpoint collect (project : list job) (acc : samples) : result samples :=
  match project with
  | [] => Ok acc
  | j :: rest => acc' ← append_job acc j; collect rest acc'
  end.

(** [[all_terminal_groups[i] for i, val in enumerate(outlier_mask) if val]]. *)
Fixpoint select_outliers (groups : list (string * string)) (i : nat)
    (outlier_mask : list bool) : result (list (string * string)) :=
  match outlier_mask with
  | [] => Ok []
  | val :: rest =>
      if val then
        match nth_error groups i with
        | Some g => gs ← select_outliers groups (S i) rest; Ok (g :: gs)
        | None => raise "IndexError"
        end
      else select_outliers groups (S i) rest
  end.

Record classification := {
  data : samples;
  inlier_mask : list bool;
  outlier_mask : list bool;
  outliers : list (string * string)
}.

(** The script up to the table of outliers.  [ransac_fit] stands for
    [RANSACRegressor(random_state=92).fit(X, all_y).inlier_mask_]. *)
Definition classify
    (ransac_fit : list float -> list float -> result (list bool))
    (project : list job) : result classification :=
  s ← collect project {| all_x := []; all_y := []; all_terminal_groups := [] |};
  inlier_mask ← ransac_fit (all_x s) (all_y s);
  let outlier_mask := np.logical_not inlier_mask in
  outliers ← select_outliers (all_terminal_groups s) 0 outlier_mask;
  Ok {| data := s;
        inlier_mask := inlier_mask;
        outlier_mask := outlier_mask;
        outliers := outliers |}.

End plotting.

(** ** Values of binary64 numbers, for the bounds below *)

Local Open Scope Z_scope.

(** [m * 2^e <= B], without fractions. *)
Definition val_le (m e B : Z) : Prop :=
  m * 2 ^ Z.max e 0 <= B * 2 ^ Z.max (- e) 0.

(** A non-negative float that does not exceed the integer [B]. *)
Definition SF_le (x : spec_float) (B : Z) : Prop :=
  match x with
  | S754_zero _ => True
  | S754_finite false m e => val_le (Zpos m) e B
  | _ => False
  end.

(** What [k] right shifts of the mantissa [M] leave in a shift record. *)
Definition shr_inv (M k : Z) (r : shr_record) : Prop :=
  shr_m r = M / 2 ^ k /\ (shr_r r = true -> M mod 2 ^ k <> 0).

(** What [k] right shifts of [M] leave: the quotient, a round bit that
    tells on which side of the midpoint the remainder lies, and a sticky
    bit that is clear only at zero and at the midpoint. *)
Definition shr_near (M k : Z) (r : shr_record) : Prop :=
  shr_m r = M / 2 ^ k
  /\ (shr_r r = true -> 2 ^ k <= 2 * (M mod 2 ^ k))
  /\ (shr_r r = false -> 2 * (M mod 2 ^ k) < 2 ^ k)
  /\ (shr_s r = false -> M mod 2 ^ k = 0 \/ 2 * (M mod 2 ^ k) = 2 ^ k).

(** A non-negative float whose integer part is [q]. *)
Definition SF_int (x : spec_float) (q : Z) : Prop :=
  match x with
  | S754_zero _ => q = 0
  | S754_finite false m e =>
      e <= 0 /\ q * 2 ^ (- e) <= Zpos m < (q + 1) * 2 ^ (- e)
  | _ => False
  end.

(** ** Values and rounding errors *)

(** The value of a finite float, counted in units of 2^-1074, the smallest
    positive binary64 number: every finite binary64 number is a whole
    number of them.  Infinities and NaN count as 0 and are told apart by
    [SFfinite]. *)
Definition SFval (x : spec_float) : Z :=
  match x with
  | S754_finite s m e => cond_Zopp s (Zpos m * 2 ^ (e + 1074))
  | _ => 0
  end.

Definition SFfinite (x : spec_float) : bool :=
  match x with
  | S754_zero _ | S754_finite _ _ _ => true
  | _ => false
  end.

Definition Fval (x : float) : Z := SFval (Prim2SF x).

Definition finite (x : float) : bool := SFfinite (Prim2SF x).

(** The exact sum of the values of a list, and of their magnitudes. *)
Definition Fsum (l : list float) : Z := fold_right (fun x s => Fval x + s) 0 l.

Definition Fabs_sum (l : list float) : Z :=
  fold_right (fun x s => Z.abs (Fval x) + s) 0 l.

(** What right shifts leave of the fraction [N / P]: the quotient, a round
    bit that tells on which side of the midpoint the remainder lies, and a
    sticky bit that is clear only at zero and at the midpoint. *)
Definition shr_frac (N P : Z) (r : shr_record) : Prop :=
  shr_m r = N / P
  /\ (shr_r r = true -> P <= 2 * (N mod P))
  /\ (shr_r r = false -> 2 * (N mod P) < P)
  /\ (shr_s r = false -> N mod P = 0 \/ 2 * (N mod P) = P).

(** A float [x] that stands for the exact number [S], a sum of terms of
    total magnitude at most [a], after at most [c] nested roundings: each
    rounding adds a relative error of at most 2^-53. *)
Definition approx (c : Z) (x : float) (S a : Z) : Prop :=
  finite x = true /\ Z.abs S <= a /\ 2 ^ 53 * Z.abs (Fval x - S) <= 2 * c * a.

Definition Zsum (l : list Z) : Z := fold_right Z.add 0 l.


(** ** The remaining analysis stages of [src/operations.py] *)

(** [atools.structure_mixed.calc_friction] and [count_hydrogen_bonds]:
    each reads the files it is given and produces the text of its output
    file, or raises. *)
Record atools_io := {
  calc_friction_trr :
    gmap string (list np.line) -> string -> string -> result (list np.line);
  count_hydrogen_bonds_traj :
    gmap string (list np.line) -> string -> string -> string -> string ->
    string -> string -> result (list np.line)
}.

Definition calc_S2_nvt (lib : atools) : stage unit :=
  s ← get_sp; _calc_S2 lib "nvt" (sp_n s).

Definition calc_tilt_nvt (lib : atools) : stage unit :=
  s ← get_sp; _calc_tilt lib "nvt" (sp_n s).

Definition calc_friction (ext : atools_io) : stage unit :=
  for_in [5; 15; 25]%nat (fun load _ =>
    let trr_file := shear_name load ++ ".trr" in
    let out_file := "friction_" ++ load_key load ++ ".txt" in
    let ndx_file := "init.ndx" in
    run_tool (fun files => calc_friction_trr ext files trr_file ndx_file)
             out_file) tt.

Definition _count_hydrogen_bonds (ext : atools_io) (name : string)
    (n_chains : nat) : stage unit :=
  let mol2_file := "init.mol2" in
  let ndx_file := "init.ndx" in
  let gro_file := name ++ ".gro" in
  let out_file := name ++ "-h-bonds.txt" in
  let traj := name ++ ".xtc" in
  run_tool (fun files =>
              count_hydrogen_bonds_traj ext files traj gro_file mol2_file
                ndx_file "top_termini" "bottom_termini")
           out_file.

Definition count_hydrogen_bonds (ext : atools_io) : stage unit :=
  for_in [5; 15; 25]%nat (fun load _ =>
    s ← get_sp; _count_hydrogen_bonds ext (shear_name load) (sp_n s)) tt.

(** ** The plotted point sets of [cof-Dinterdigitation.py] *)

(** [a[mask]] for a boolean mask: the mask must be as long as the array. *)
Fixpoint boolean_index {A} (a : list A) (mask : list bool) : result (list A) :=
  match a, mask with
  | [], [] => Ok []
  | x :: a', b :: mask' =>
      r ← boolean_index a' mask'; Ok (if b : bool then x :: r else r)
  | _, _ => raise "IndexError"
  end.

(** The four selections the script makes: [all_x[inlier_mask]] and
    [all_y[inlier_mask]] for the robust correlation and the green points,
    [X[outlier_mask]] and [all_y[outlier_mask]] for the red ones. *)
Record point_sets := {
  inlier_x : list float;
  inlier_y : list float;
  outlier_x : list float;
  outlier_y : list float
}.

Definition select_points (c : plotting.classification) : result point_sets :=
  ix ← boolean_index (plotting.all_x (plotting.data c)) (plotting.inlier_mask c);
  iy ← boolean_index (plotting.all_y (plotting.data c)) (plotting.inlier_mask c);
  ox ← boolean_index (plotting.all_x (plotting.data c)) (plotting.outlier_mask c);
  oy ← boolean_index (plotting.all_y (plotting.data c)) (plotting.outlier_mask c);
  Ok {| inlier_x := ix; inlier_y := iy; outlier_x := ox; outlier_y := oy |}.

(** A stage that changes neither the statepoint, nor any data file
    outside [outs], nor any field of the job document outside [keys].  The
    workspace holds the data files of the job directory; the document,
    which signac keeps in a file of its own there, is the [document]
    field. *)
Definition writes_only (outs keys : list string) {A} (m : stage A) : Prop :=
  forall j, sp (snd (m j)) = sp j
    /\ (forall f, f ∉ outs -> workspace (snd (m j)) !! f = workspace j !! f)
    /\ (forall k, k ∉ keys -> document (snd (m j)) !! k = document j !! k).

Definition copy_io : atools_io := {|
  calc_friction_trr := fun files trr _ =>
    match files !! trr with Some t => Ok t | None => raise "OSError" end;
  count_hydrogen_bonds_traj := fun files traj _ _ _ _ _ =>
    match files !! traj with Some t => Ok t | None => raise "OSError" end
|}.

(** ** Properties of stages *)

(** A computation that never touches the job document. *)
Definition doc_preserving {A} (m : stage A) : Prop :=
  forall j, document (snd (m j)) = document j.

(** Assignments [job.document[k] = v] for the keys in order. *)
Definition assign_all (keys : list string) (vs : list value)
    (d : gmap string value) : gmap string value :=
  fold_left (fun d kv => <[fst kv := snd kv]> d) (combine keys vs) d.

(** A stage writes the document fields [keys] all or nothing: a failure
    leaves the document as it was, a success has assigned every key. *)
Definition all_or_nothing (keys : list string) (m : stage unit) : Prop :=
  forall j r j', m j = (r, j') ->
    match r with
    | Err _ => document j' = document j
    | Ok _ => exists vs, length vs = length keys
                /\ document j' = assign_all keys vs (document j)
    end.

(** An analysis that depends on nothing but the three files it is given. *)
Definition reads_only {A}
    (tool : gmap string (list np.line) -> string -> string -> string -> A) : Prop :=
  forall files files' traj top ndx,
    files !! traj = files' !! traj ->
    files !! top = files' !! top ->
    files !! ndx = files' !! ndx ->
    tool files traj top ndx = tool files' traj top ndx.

(** A stage that changes nothing of the job. *)
Definition read_only {A} (m : stage A) : Prop := forall j, snd (m j) = j.


(** ** Fixtures *)

(** Analyses that copy the trajectory file to their output file. *)
Definition copy_tools (rejects_identical_x : bool) : atools := {|
  calc_nematic_order := fun files traj _ _ _ =>
    match files !! traj with Some t => Ok t | None => raise "OSError" end;
  calc_avg_tilt_angle := fun files traj _ _ _ =>
    match files !! traj with Some t => Ok t | None => raise "OSError" end;
  calc_interdigitation_traj := fun files traj _ _ =>
    match files !! traj with Some t => Ok t | None => raise "OSError" end;
  linregress_rejects_identical_x := rejects_identical_x
|}.

(** Five rows [t, v, 2v]. *)
Definition series (v : float) : list np.line :=
  map (fun t => np.Numbers [t; v; (2 * v)%float]) [0; 1; 2; 3; 4]%float.

(** A job whose friction at 5, 15 and 25 nN is 1, 2 and 3 throughout, and
    whose trajectories hold the series the analyses copy. *)
Definition sample_job : job := {|
  sp := {| chainlength := 17; sp_n := 100; seed := 7;
           terminal_groups := ("methyl", "hydroxyl") |};
  workspace :=
    list_to_map
      [("friction_5nN.txt", series 1); ("friction_15nN.txt", series 2);
       ("friction_25nN.txt", series 3);
       ("shear_5nN.xtc", series 0.25); ("shear_15nN.xtc", series 0.5);
       ("shear_25nN.xtc", series 0.75);
       ("shear_5nN-unwrapped.xtc", series 0.25);
       ("shear_15nN-unwrapped.xtc", series 0.5);
       ("shear_25nN-unwrapped.xtc", series 0.75);
       ("shear_5nN-energy.xvg",
        (repeat np.Garbage 24 ++ series (-8))%list)];
  document := ∅
|}.

(** A job that has been through [calc_interdigitation] and [log_cof]. *)
Definition scored_job (groups : string * string) (i5 i15 i25 cof : float) : job := {|
  sp := {| chainlength := 17; sp_n := 100; seed := 7; terminal_groups := groups |};
  workspace := ∅;
  document :=
    <["COF" := VFloat cof]>
      (<["interdigitation" :=
           VDict (list_to_map [("5nN", i5); ("15nN", i15); ("25nN", i25)])]> ∅)
|}.

Definition sample_project : list job :=
  [scored_job ("methyl", "methyl") 0.25 0.5 0.75 0.125;
   scored_job ("hydroxyl", "carboxyl") 0.5 0.5 0.25 0.5]%float.

(** What the script computes for [sample_project] when the fit flags the
    first job as the only inlier. *)
Definition sample_classification : plotting.classification := {|
  plotting.data :=
    {| plotting.all_x := [0.5; -0.25]%float;
       plotting.all_y := [0.125; 0.5]%float;
       plotting.all_terminal_groups :=
         [("methyl", "methyl"); ("hydroxyl", "carboxyl")] |};
  plotting.inlier_mask := [true; false];
  plotting.outlier_mask := np.logical_not [true; false];
  plotting.outliers := [("hydroxyl", "carboxyl")]
|}.

(** A job fresh from the shear runs: the force trajectories only. *)
Definition sheared_job : job := {|
  sp := sp sample_job;
  workspace :=
    list_to_map
      [("shear_5nN.trr", series 1); ("shear_15nN.trr", series 2);
       ("shear_25nN.trr", series 3)];
  document := ∅
|}.

(** * Facts *)

(** ** Rounding of binary64 products *)

Lemma digits2_pos_bounds p :
  2 ^ (Zpos (digits2_pos p) - 1) <= Zpos p < 2 ^ Zpos (digits2_pos p).
Proof.
  induction p as [p IH | p IH |]; simpl digits2_pos.
  - rewrite Pos2Z.inj_succ. replace (Z.succ (Zpos (digits2_pos p)) - 1) with (Z.succ (Zpos (digits2_pos p) - 1)) by lia.
    rewrite !Z.pow_succ_r by lia. lia.
  - rewrite Pos2Z.inj_succ. replace (Z.succ (Zpos (digits2_pos p)) - 1) with (Z.succ (Zpos (digits2_pos p) - 1)) by lia.
    rewrite !Z.pow_succ_r by lia. lia.
  - simpl. lia.
Qed.

Lemma iter_pos_shr_inv (P : Z -> shr_record -> Prop) :
  (forall k r, 0 <= k -> P k r -> P (k + 1) (shr_1 r)) ->
  forall p k r, 0 <= k -> P k r -> P (k + Zpos p) (SpecFloat.iter_pos shr_1 p r).
Proof.
  intros Hstep. induction p as [p IH | p IH |]; intros k r Hk HP; simpl.
  - replace (k + Zpos p~1) with (k + 1 + Zpos p + Zpos p) by lia.
    apply IH; [lia|]. apply IH; [lia|]. now apply Hstep.
  - replace (k + Zpos p~0) with (k + Zpos p + Zpos p) by lia.
    apply IH; [lia|]. now apply IH.
  - now apply Hstep.
Qed.

Lemma shr_inv_step M k r :
  0 <= M -> 0 <= k -> shr_inv M k r -> shr_inv M (k + 1) (shr_1 r).
Proof.
  intros HM Hk [Hm Hr]. destruct r as [m r s]. simpl in Hm, Hr.
  assert (Hp : 0 < 2 ^ k) by (apply Z.pow_pos_nonneg; lia).
  assert (Hm0 : 0 <= m) by (subst m; apply Z.div_pos; lia).
  assert (Hdiv : M / 2 ^ (k + 1) = m / 2).
  { rewrite Z.pow_add_r by lia. rewrite <- Z.div_div by lia. now subst m. }
  assert (Hodd : Z.odd m = true -> M mod 2 ^ (k + 1) <> 0).
  { intros Ho Hz. apply Z.mod_divide in Hz; [|lia]. destruct Hz as [q Hq].
    rewrite Z.pow_add_r in Hq by lia. 
    assert (m = q * 2) as ->.
    { subst m. rewrite Hq. replace (q * (2 ^ k * 2 ^ 1)) with (q * 2 * 2 ^ k) by (change (2^1) with 2; ring).
      apply Z.div_mul. lia. }
    rewrite Z.odd_mul in Ho. simpl in Ho. rewrite andb_false_r in Ho. discriminate. }
  unfold shr_inv. rewrite Hdiv.
  destruct m as [|[p|p|]|p]; simpl; try lia.
  - split; [reflexivity | discriminate].
  - split; [|intros _; apply Hodd; reflexivity].
    rewrite Pos2Z.inj_xI. apply Z.div_unique with 1; lia.
  - split; [|discriminate]. rewrite Pos2Z.inj_xO. apply Z.div_unique with 0; lia.
  - split; [reflexivity|]. intros _. apply Hodd. reflexivity.
Qed.

Lemma shr_shift_inv M p :
  0 <= M ->
  shr_inv M (Zpos p) (SpecFloat.iter_pos shr_1 p (shr_record_of_loc M loc_Exact)).
Proof.
  intros HM. change (Zpos p) with (0 + Zpos p).
  apply (iter_pos_shr_inv (shr_inv M)).
  - intros k r Hk. now apply shr_inv_step.
  - lia.
  - split; simpl; [now rewrite Z.div_1_r | discriminate].
Qed.

(** Rounding to nearest adds at most one unit, and only after an inexact shift. *)
Lemma round_nearest_even_le r :
  shr_m r <= round_nearest_even (shr_m r) (loc_of_shr_record r)
  /\ round_nearest_even (shr_m r) (loc_of_shr_record r)
     <= shr_m r + (if shr_r r then 1 else 0).
Proof.
  destruct r as [m [|] [|]]; simpl; try lia.
  destruct (Z.even m); lia.
Qed.

Lemma shr_fexp_exact m e :
  0 <= m ->
  let '(r, e') := shr_fexp prec emax m e loc_Exact in
  (e' = e /\ shr_m r = m /\ shr_r r = false)
  \/ (e < e' /\ e' = fexp prec emax (Zdigits2 m + e) /\ shr_inv m (e' - e) r).
Proof.
  intros Hm. unfold shr_fexp, shr.
  destruct (fexp prec emax (Zdigits2 m + e) - e) as [|p|p] eqn:Hs.
  - left. auto.
  - right. split; [lia|]. split; [lia|].
    replace (e + Z.pos p - e) with (Z.pos p) by lia. now apply shr_shift_inv.
  - left. auto.
Qed.

Lemma val_le_shift m e s B :
  0 <= m -> 0 < s -> val_le m e B -> val_le (m / 2 ^ s) (e + s) B.
Proof.
  unfold val_le. intros Hm Hs H.
  assert (Hps : 0 < 2 ^ s) by (apply Z.pow_pos_nonneg; lia).
  pose proof (Z.mul_div_le m (2 ^ s) Hps) as Hdiv.
  assert (Hq : 0 <= m / 2 ^ s) by (apply Z.div_pos; lia).
  set (q := m / 2 ^ s) in *.
  destruct (Z.le_gt_cases 0 e) as [He | He].
  - rewrite (Z.max_l e 0), (Z.max_r (- e) 0) in H by lia.
    rewrite (Z.max_l (e + s) 0), (Z.max_r (- (e + s)) 0) by lia.
    rewrite Z.pow_add_r by lia.
    assert (0 < 2 ^ e) by (apply Z.pow_pos_nonneg; lia).
    change (2 ^ 0) with 1 in *.
    assert (2 ^ s * q * 2 ^ e <= m * 2 ^ e)
      by (apply Z.mul_le_mono_nonneg_r; lia).
    lia.
  - rewrite (Z.max_r e 0), (Z.max_l (- e) 0) in H by lia.
    change (2 ^ 0) with 1 in H.
    assert (Hpe : 0 < 2 ^ (- e)) by (apply Z.pow_pos_nonneg; lia).
    destruct (Z.le_gt_cases 0 (e + s)) as [Hes | Hes].
    + rewrite (Z.max_l (e + s) 0), (Z.max_r (- (e + s)) 0) by lia.
      change (2 ^ 0) with 1.
      assert (Hsplit : 2 ^ s = 2 ^ (e + s) * 2 ^ (- e)).
      { rewrite <- Z.pow_add_r by lia. f_equal. lia. }
      assert (0 < 2 ^ (e + s)) by (apply Z.pow_pos_nonneg; lia).
      rewrite Hsplit in Hdiv.
      apply Z.mul_le_mono_pos_r with (p := 2 ^ (- e)); [lia|]. lia.
    + rewrite (Z.max_r (e + s) 0), (Z.max_l (- (e + s)) 0) by lia.
      change (2 ^ 0) with 1.
      assert (Hsplit : 2 ^ (- e) = 2 ^ s * 2 ^ (- (e + s))).
      { rewrite <- Z.pow_add_r by lia. f_equal. lia. }
      rewrite Z.mul_1_r. apply Z.div_le_upper_bound; [lia|].
      rewrite Hsplit in H. lia.
Qed.

(** The exponent chosen for a product that does not exceed a 53-bit bound
    is not positive. *)
Lemma fexp_nonpos M E B :
  0 < B < 2 ^ 53 -> val_le (Zpos M) E B ->
  fexp prec emax (Zdigits2 (Zpos M) + E) <= 0.
Proof.
  intros HB H. unfold fexp, emin, prec, emax. simpl Zdigits2.
  pose proof (digits2_pos_bounds M) as [Hd _].
  set (d := Zpos (digits2_pos M)) in *.
  apply Z.max_lub; [|lia].
  destruct (Z.le_gt_cases (d + E) 53) as [|Hbig]; [lia|exfalso].
  unfold val_le in H.
  destruct (Z.le_gt_cases 0 E) as [He | He].
  - rewrite (Z.max_l E 0), (Z.max_r (- E) 0) in H by lia. change (2 ^ 0) with 1 in H.
    assert (2 ^ 53 <= 2 ^ (d - 1) * 2 ^ E).
    { rewrite <- Z.pow_add_r by lia. apply Z.pow_le_mono_r; lia. }
    assert (0 < 2 ^ E) by (apply Z.pow_pos_nonneg; lia). nia.
  - rewrite (Z.max_r E 0), (Z.max_l (- E) 0) in H by lia. change (2 ^ 0) with 1 in H.
    assert (2 ^ 53 * 2 ^ (- E) <= 2 ^ (d - 1)).
    { rewrite <- Z.pow_add_r by lia. apply Z.pow_le_mono_r; lia. }
    assert (0 < 2 ^ (- E)) by (apply Z.pow_pos_nonneg; lia). nia.
Qed.

Lemma binary_round_aux_le M E B :
  0 < B < 2 ^ 53 -> val_le (Zpos M) E B ->
  SF_le (binary_round_aux prec emax false (Zpos M) E loc_Exact) B.
Proof.
  intros HB H. unfold binary_round_aux.
  pose proof (shr_fexp_exact (Zpos M) E ltac:(lia)) as H1.
  destruct (shr_fexp prec emax (Zpos M) E loc_Exact) as [mrs' e'].
  pose proof (round_nearest_even_le mrs') as [Hlo Hhi].
  set (m1 := round_nearest_even (shr_m mrs') (loc_of_shr_record mrs')) in *.
  assert (Hm1 : 0 <= m1 /\ val_le m1 e' B).
  { destruct H1 as [(-> & Hm & Hr) | (Hlt & He' & Hm & Hr)].
    - rewrite Hm, Hr in *. replace m1 with (Zpos M) by lia. split; [lia | exact H].
    - pose proof (fexp_nonpos M E B HB H) as Hnp. rewrite <- He' in Hnp.
      assert (Hps : 0 < 2 ^ (e' - E)) by (apply Z.pow_pos_nonneg; lia).
      assert (0 <= shr_m mrs') by (rewrite Hm; apply Z.div_pos; lia).
      split; [lia|].
      unfold val_le in *.
      rewrite (Z.max_r E 0), (Z.max_l (- E) 0) in H by lia.
      rewrite (Z.max_r e' 0), (Z.max_l (- e') 0) by lia.
      change (2 ^ 0) with 1 in *.
      assert (Hsplit : 2 ^ (- E) = 2 ^ (- e') * 2 ^ (e' - E)).
      { rewrite <- Z.pow_add_r by lia. f_equal. lia. }
      rewrite Hsplit in H.
      set (N := B * 2 ^ (- e')) in *.
      assert (HMN : Zpos M <= N * 2 ^ (e' - E)) by lia.
      assert (Hq : Zpos M / 2 ^ (e' - E) <= N).
      { apply Z.div_le_upper_bound; lia. }
      destruct (shr_r mrs').
      + assert (Zpos M <> N * 2 ^ (e' - E)).
        { intros Heq. apply Hr; [reflexivity|]. rewrite Heq. apply Z.mod_mul. lia. }
        assert (Zpos M / 2 ^ (e' - E) < N).
        { apply Z.div_lt_upper_bound; lia. }
        lia.
      + lia. }
  destruct Hm1 as [Hm1 Hv1].
  pose proof (shr_fexp_exact m1 e' Hm1) as H2.
  destruct (shr_fexp prec emax m1 e' loc_Exact) as [mrs'' e''].
  assert (Hv2 : 0 <= shr_m mrs'' /\ val_le (shr_m mrs'') e'' B).
  { destruct H2 as [(-> & Hm & _) | (Hlt & _ & Hm & _)].
    - rewrite Hm. auto.
    - rewrite Hm. split; [apply Z.div_pos; [lia | apply Z.pow_pos_nonneg; lia]|].
      replace e'' with (e' + (e'' - e')) at 2 by lia.
      apply val_le_shift; [lia | lia | exact Hv1]. }
  destruct Hv2 as [Hpos Hv2].
  destruct (shr_m mrs'') as [|m|m]; [exact I | | lia].
  assert (He : e'' <= emax - prec).
  { unfold emax, prec. destruct (Z.le_gt_cases e'' 971) as [|Hbig]; [lia|exfalso].
    unfold val_le in Hv2.
    rewrite (Z.max_l e'' 0), (Z.max_r (- e'') 0) in Hv2 by lia.
    change (2 ^ 0) with 1 in Hv2.
    assert (2 ^ 53 <= 2 ^ e'') by (apply Z.pow_le_mono_r; lia).
    nia. }
  apply Z.leb_le in He. rewrite He. exact Hv2.
Qed.

Lemma pos_iter_xO m d : Zpos (Pos.iter xO m d) = Zpos m * 2 ^ Zpos d.
Proof.
  induction d as [|d IH] using Pos.peano_ind.
  - simpl. lia.
  - rewrite Pos.iter_succ, Pos2Z.inj_xO, IH, Pos2Z.inj_succ.
    rewrite Z.pow_succ_r by lia. ring.
Qed.

Lemma val_le_mul mx ex mf ef n B :
  0 <= mx -> 0 <= mf -> 0 <= n -> ef <= 0 ->
  val_le mx ex n -> mf * n <= B * 2 ^ (- ef) ->
  val_le (mx * mf) (ex + ef) B.
Proof.
  unfold val_le. intros Hmx Hmf Hn Hef H Hf.
  assert (Hpf : 0 < 2 ^ (- ef)) by (apply Z.pow_pos_nonneg; lia).
  destruct (Z.le_gt_cases ex 0) as [Hex | Hex].
  - rewrite (Z.max_r ex 0), (Z.max_l (- ex) 0) in H by lia.
    rewrite (Z.max_r (ex + ef) 0), (Z.max_l (- (ex + ef)) 0) by lia.
    change (2 ^ 0) with 1 in *.
    replace (- (ex + ef)) with (- ef + - ex) by lia.
    rewrite Z.pow_add_r by lia.
    assert (0 < 2 ^ (- ex)) by (apply Z.pow_pos_nonneg; lia).
    assert (mx * mf <= n * 2 ^ (- ex) * mf) by (apply Z.mul_le_mono_nonneg_r; lia).
    assert (mf * n * 2 ^ (- ex) <= B * 2 ^ (- ef) * 2 ^ (- ex))
      by (apply Z.mul_le_mono_nonneg_r; lia).
    lia.
  - rewrite (Z.max_l ex 0), (Z.max_r (- ex) 0) in H by lia.
    change (2 ^ 0) with 1 in H.
    assert (Hpx : 0 < 2 ^ ex) by (apply Z.pow_pos_nonneg; lia).
    assert (Hall : mf * (mx * 2 ^ ex) <= B * 2 ^ (- ef)).
    { transitivity (mf * n); [apply Z.mul_le_mono_nonneg_l; lia | exact Hf]. }
    destruct (Z.le_gt_cases 0 (ex + ef)) as [Hs | Hs].
    + rewrite (Z.max_l (ex + ef) 0), (Z.max_r (- (ex + ef)) 0) by lia.
      change (2 ^ 0) with 1.
      assert (Hsplit : 2 ^ ex = 2 ^ (ex + ef) * 2 ^ (- ef)).
      { rewrite <- Z.pow_add_r by lia. f_equal. lia. }
      rewrite Hsplit in Hall.
      apply Z.mul_le_mono_pos_r with (p := 2 ^ (- ef)); [lia|]. lia.
    + rewrite (Z.max_r (ex + ef) 0), (Z.max_l (- (ex + ef)) 0) by lia.
      change (2 ^ 0) with 1.
      assert (Hsplit : 2 ^ (- ef) = 2 ^ ex * 2 ^ (- (ex + ef))).
      { rewrite <- Z.pow_add_r by lia. f_equal. lia. }
      rewrite Hsplit in Hall.
      apply Z.mul_le_mono_pos_r with (p := 2 ^ ex); [lia|]. lia.
Qed.

Lemma float_of_nat_zero : Prim2SF (float_of_nat 0) = S754_zero false.
Proof. reflexivity. Qed.

Lemma float_of_nat_le n :
  (0 < n)%nat -> Z.of_nat n < 2 ^ 53 ->
  SF_le (Prim2SF (float_of_nat n)) (Z.of_nat n).
Proof.
  intros Hn Hb. unfold float_of_nat.
  rewrite of_uint63_spec, Uint63.of_Z_spec.
  rewrite Z.mod_small by (change wB with (2 ^ 63); lia).
  destruct (Z.of_nat n) as [|p|p] eqn:Hp; try lia.
  unfold binary_normalize, binary_round.
  destruct (shl_align p 0 (fexp prec emax (Z.pos (digits2_pos p) + 0))) as [mz ez] eqn:Hal.
  apply binary_round_aux_le; [lia|].
  unfold shl_align in Hal.
  destruct (fexp prec emax (Z.pos (digits2_pos p) + 0) - 0) as [|d|d] eqn:Hd;
    inversion Hal; subst mz ez; unfold val_le.
  - apply Z.le_refl.
  - apply Z.le_refl.
  - replace (fexp prec emax (Z.pos (digits2_pos p) + 0)) with (Zneg d) by lia.
    rewrite pos_iter_xO.
    rewrite (Z.max_r (Z.neg d) 0), (Z.max_l (- Z.neg d) 0) by lia.
    change (- Z.neg d) with (Z.pos d). change (2 ^ 0) with 1. lia.
Qed.

(** [len * f] for a finite non-negative [f = mf * 2^ef]: the rounded
    product does not exceed an integer bound that the exact one respects. *)
Lemma mul_len_le n f mf ef B :
  Z.of_nat n < 2 ^ 53 -> 0 < B < 2 ^ 53 ->
  Prim2SF f = S754_finite false mf ef -> ef <= 0 ->
  Zpos mf * Z.of_nat n <= B * 2 ^ (- ef) ->
  SF_le (Prim2SF (float_of_nat n * f)) B.
Proof.
  intros Hn HB Hf Hef Hle. rewrite FloatAxioms.mul_spec, Hf.
  destruct n as [|n'].
  - rewrite float_of_nat_zero. exact I.
  - pose proof (float_of_nat_le (S n') ltac:(lia) Hn) as Hx.
    destruct (Prim2SF (float_of_nat (S n'))) as [s | s | | [|] mx ex]; try contradiction.
    + exact I.
    + unfold SF64mul, SFmul. simpl xorb.
      apply binary_round_aux_le; [exact HB|].
      rewrite Pos2Z.inj_mul.
      apply val_le_mul with (n := Z.of_nat (S n')); try lia; assumption.
Qed.

Lemma py_int_le x B :
  0 <= B -> SF_le (Prim2SF x) B -> exists k, py_int x = Ok k /\ 0 <= k <= B.
Proof.
  intros HB. unfold py_int, SF_le.
  destruct (Prim2SF x) as [s | s | | [|] m e]; try contradiction.
  - intros _. exists 0. split; [reflexivity | lia].
  - unfold val_le, SFtrunc, cond_Zopp. intros H. eexists. split; [reflexivity|].
    destruct (Z.leb_spec 0 e) as [He | He].
    + rewrite (Z.max_l e 0), (Z.max_r (- e) 0) in H by lia.
      change (2 ^ 0) with 1 in H.
      assert (0 < 2 ^ e) by (apply Z.pow_pos_nonneg; lia). nia.
    + rewrite (Z.max_r e 0), (Z.max_l (- e) 0) in H by lia.
      change (2 ^ 0) with 1 in H.
      assert (0 < 2 ^ (- e)) by (apply Z.pow_pos_nonneg; lia).
      split; [apply Z.div_pos; lia|].
      apply Z.div_le_upper_bound; lia.
Qed.

Lemma SFltb_finite m e m' e' :
  SFltb (S754_finite false m e) (S754_finite false m' e') = true ->
  e < e' \/ (e = e' /\ Zpos m < Zpos m').
Proof.
  unfold SFltb, SFcompare.
  destruct (Z.compare_spec e e') as [-> | He | He]; try discriminate.
  - rewrite Pos.compare_cont_spec. unfold Pos.switch_Eq.
    destruct (Pos.compare m m') eqn:Hcmp; try discriminate.
    intros _. right. split; [reflexivity | exact Hcmp].
  - intros _. now left.
Qed.

Lemma SF_one : Prim2SF 1 = S754_finite false 4503599627370496 (-52).
Proof. vm_compute. reflexivity. Qed.

Lemma SF_zero : Prim2SF 0 = S754_zero false.
Proof. vm_compute. reflexivity. Qed.

(** A float in [[0, 1)] is a zero or a positive [mf * 2^ef] below one. *)
Lemma unit_interval_SF f :
  (0 <=? f)%float = true -> (f <? 1)%float = true ->
  (exists s, Prim2SF f = S754_zero s)
  \/ (exists mf ef, Prim2SF f = S754_finite false mf ef
                    /\ ef < 0 /\ Zpos mf < 2 ^ (- ef)).
Proof.
  rewrite FloatAxioms.leb_spec, FloatAxioms.ltb_spec, SF_one, SF_zero.
  pose proof (Prim2SF_valid f) as Hv.
  destruct (Prim2SF f) as [s | s | | s m e].
  - intros _ _. left. eauto.
  - destruct s; discriminate.
  - discriminate.
  - intros Hge Hlt. right. exists m, e.
    destruct s; [discriminate|].
    unfold valid_binary, bounded, canonical_mantissa in Hv.
    apply andb_prop in Hv as [Hc _]. apply Z.eqb_eq in Hc.
    unfold fexp, emin, emax, prec in Hc.
    pose proof (digits2_pos_bounds m) as [_ Hd].
    split; [reflexivity|].
    apply SFltb_finite in Hlt as [He | [-> Hm]].
    + split; [lia|].
      assert (Zpos (digits2_pos m) <= 53) by lia.
      assert (2 ^ Zpos (digits2_pos m) <= 2 ^ (- e)) by (apply Z.pow_le_mono_r; lia).
      lia.
    + split; [lia|].
      replace (2 ^ (- -52)) with 4503599627370496 by (vm_compute; reflexivity).
      exact Hm.
Qed.

(** The start of the tail window, [int(len * f)], for [f] in [[0, 1)]. *)
Lemma tail_start_le n f :
  Z.of_nat n < 2 ^ 53 ->
  (0 <=? f)%float = true -> (f <? 1)%float = true ->
  exists k, py_int (float_of_nat n * f) = Ok k /\ 0 <= k <= Z.of_nat n.
Proof.
  intros Hn H0 H1. apply py_int_le; [lia|].
  destruct (unit_interval_SF f H0 H1) as [[s Hf] | (mf & ef & Hf & Hef & Hm)].
  - rewrite FloatAxioms.mul_spec, Hf.
    destruct n as [|n'].
    + rewrite float_of_nat_zero. exact I.
    + pose proof (float_of_nat_le (S n') ltac:(lia) Hn) as Hx.
      destruct (Prim2SF (float_of_nat (S n'))) as [sx | sx | | [|] mx ex];
        try contradiction; exact I.
  - destruct n as [|n'].
    + rewrite FloatAxioms.mul_spec, Hf, float_of_nat_zero. exact I.
    + apply mul_len_le with (mf := mf) (ef := ef); try lia; try assumption.
      rewrite (Z.mul_comm (Z.of_nat (S n'))).
      apply Z.mul_le_mono_nonneg_r; lia.
Qed.

(** With [f] no larger than 2/3 the window keeps at least one row. *)
Lemma tail_start_lt n f mf ef :
  (0 < n)%nat -> Z.of_nat n < 2 ^ 53 ->
  Prim2SF f = S754_finite false mf ef -> ef <= 0 ->
  3 * Zpos mf <= 2 * 2 ^ (- ef) ->
  (forall k, py_int (float_of_nat 1 * f) = Ok k -> k < 1) ->
  (forall k, py_int (float_of_nat 2 * f) = Ok k -> k < 2) ->
  exists k, py_int (float_of_nat n * f) = Ok k /\ 0 <= k < Z.of_nat n.
Proof.
  intros Hn Hb Hf Hef Hm H1 H2.
  destruct (Nat.le_gt_cases 3 n) as [H3 | H3].
  - destruct (py_int_le (float_of_nat n * f) (Z.of_nat n - 1)) as (k & Hk & Hr); [lia| |].
    + apply mul_len_le with (mf := mf) (ef := ef); try lia; try assumption.
      assert (0 < 2 ^ (- ef)) by (apply Z.pow_pos_nonneg; lia). nia.
    + exists k. split; [exact Hk | lia].
  - assert (Hsmall : 0 <= Z.of_nat n - 1 < 2) by lia.
    destruct (py_int_le (float_of_nat n * f) (Z.of_nat n)) as (k & Hk & Hr); [lia| |].
    + apply mul_len_le with (mf := mf) (ef := ef); try lia; try assumption.
      assert (0 < 2 ^ (- ef)) by (apply Z.pow_pos_nonneg; lia). nia.
    + exists k. split; [exact Hk|].
      assert (n = 1 \/ n = 2)%nat as [-> | ->] by lia.
      * specialize (H1 k Hk). lia.
      * specialize (H2 k Hk). lia.
Qed.

Lemma tail_start_06 n :
  (0 < n)%nat -> Z.of_nat n < 2 ^ 53 ->
  exists k, py_int (float_of_nat n * 0.6) = Ok k /\ 0 <= k < Z.of_nat n.
Proof.
  intros Hn Hb.
  apply tail_start_lt with (mf := 5404319552844595%positive) (ef := -53);
    try assumption; try reflexivity; try lia.
  - intros k. vm_compute. intros [= <-]. reflexivity.
  - intros k. vm_compute. intros [= <-]. reflexivity.
Qed.

Lemma tail_start_05 n :
  (0 < n)%nat -> Z.of_nat n < 2 ^ 53 ->
  exists k, py_int (float_of_nat n * 0.5) = Ok k /\ 0 <= k < Z.of_nat n.
Proof.
  intros Hn Hb.
  apply tail_start_lt with (mf := 4503599627370496%positive) (ef := -53);
    try assumption; try reflexivity; try lia.
  - intros k. vm_compute. intros [= <-]. reflexivity.
  - intros k. vm_compute. intros [= <-]. reflexivity.
Qed.

(** ** Exact conversions *)

Lemma digits2_pos_unique p d :
  2 ^ (d - 1) <= Zpos p < 2 ^ d -> Zpos (digits2_pos p) = d.
Proof.
  intros [Hlo Hhi]. pose proof (digits2_pos_bounds p) as [Dlo Dhi].
  set (D := Zpos (digits2_pos p)) in *.
  assert (HD : 0 < D) by (unfold D; lia).
  destruct (Z.lt_trichotomy D d) as [Hlt | [Heq | Hgt]]; [exfalso | exact Heq | exfalso].
  - assert (2 ^ D <= 2 ^ (d - 1)) by (apply Z.pow_le_mono_r; lia). lia.
  - destruct (Z.le_gt_cases 0 d) as [Hd | Hd].
    + assert (2 ^ d <= 2 ^ (D - 1)) by (apply Z.pow_le_mono_r; lia). lia.
    + rewrite (Z.pow_neg_r 2 d) in Hhi by lia. lia.
Qed.

(** The right shift [shr_fexp] performs, with the amount made explicit. *)
Lemma shr_fexp_shift m e :
  0 <= m ->
  let k := fexp prec emax (Zdigits2 m + e) - e in
  let '(r, e') := shr_fexp prec emax m e loc_Exact in
  (k <= 0 /\ e' = e /\ r = shr_record_of_loc m loc_Exact)
  \/ (0 < k /\ e' = e + k /\ shr_inv m k r).
Proof.
  intros Hm k. unfold shr_fexp, shr. fold k.
  destruct k as [|p|p] eqn:Hs.
  - left. repeat split; lia.
  - right. split; [lia|]. split; [reflexivity|]. now apply shr_shift_inv.
  - left. repeat split; lia.
Qed.

(** A mantissa that is a 53-bit one followed by [k] zero bits is rounded
    to that 53-bit mantissa, exactly. *)
Lemma binary_round_aux_exact M m k E :
  0 <= k -> Zpos M = Zpos m * 2 ^ k -> Zpos (digits2_pos m) = 53 ->
  -1074 <= E + k <= 971 ->
  binary_round_aux prec emax false (Zpos M) E loc_Exact = S754_finite false m (E + k).
Proof.
  intros Hk HM Hd [Hlo Hhi].
  pose proof (digits2_pos_bounds m) as [Dlo Dhi]. rewrite Hd in Dlo, Dhi.
  assert (Hpk : 0 < 2 ^ k) by (apply Z.pow_pos_nonneg; lia).
  assert (HdM : Zdigits2 (Zpos M) = 53 + k).
  { simpl. apply digits2_pos_unique. rewrite HM.
    replace (53 + k - 1) with (52 + k) by lia. rewrite !Z.pow_add_r by lia.
    change (53 - 1) with 52 in Dlo. split.
    - apply Z.mul_le_mono_nonneg_r; lia.
    - apply Z.mul_lt_mono_pos_r; lia. }
  assert (Hfe : fexp prec emax (53 + (E + k)) = E + k).
  { unfold fexp, SpecFloat.emin, prec, emax. lia. }
  unfold binary_round_aux.
  pose proof (shr_fexp_shift (Zpos M) E ltac:(lia)) as H1. cbv zeta in H1.
  rewrite HdM in H1. replace (53 + k + E) with (53 + (E + k)) in H1 by lia.
  rewrite Hfe in H1. replace (E + k - E) with k in H1 by lia.
  destruct (shr_fexp prec emax (Zpos M) E loc_Exact) as [mrs' e'].
  pose proof (round_nearest_even_le mrs') as [Rlo Rhi].
  set (m1 := round_nearest_even (shr_m mrs') (loc_of_shr_record mrs')) in *.
  assert (Hm1 : m1 = Zpos m /\ e' = E + k).
  { destruct H1 as [(Hk0 & -> & ->) | (Hk0 & -> & Hm & Hr)].
    - assert (k = 0) as -> by lia. simpl in Rlo, Rhi.
      rewrite Z.mul_1_r in HM. split; lia.
    - assert (Hq : shr_m mrs' = Zpos m) by (rewrite Hm, HM; apply Z.div_mul; lia).
      destruct (shr_r mrs').
      + exfalso. apply Hr; [reflexivity|]. rewrite HM. apply Z.mod_mul. lia.
      + split; lia. }
  destruct Hm1 as [-> ->].
  pose proof (shr_fexp_shift (Zpos m) (E + k) ltac:(lia)) as H2. cbv zeta in H2.
  simpl Zdigits2 in H2. rewrite Hd, Hfe in H2.
  destruct (shr_fexp prec emax (Zpos m) (E + k) loc_Exact) as [mrs'' e''].
  destruct H2 as [(_ & -> & ->) | (Hk0 & _)]; [|lia].
  simpl shr_m. change (emax - prec) with 971. apply Z.leb_le in Hhi. rewrite Hhi. reflexivity.
Qed.

(** [float(len)] is exact: a 53-bit mantissa over a non-positive exponent. *)
Lemma float_of_nat_exact n :
  (0 < n)%nat -> Z.of_nat n < 2 ^ 53 ->
  exists m e, Prim2SF (float_of_nat n) = S754_finite false m e
              /\ Zpos (digits2_pos m) = 53 /\ -52 <= e <= 0
              /\ Zpos m = Z.of_nat n * 2 ^ (- e).
Proof.
  intros Hn Hb. unfold float_of_nat.
  rewrite of_uint63_spec, Uint63.of_Z_spec.
  rewrite Z.mod_small by (change wB with (2 ^ 63); lia).
  destruct (Z.of_nat n) as [|p|p] eqn:Hp; try lia.
  pose proof (digits2_pos_bounds p) as [Dlo Dhi].
  set (d := Zpos (digits2_pos p)) in *.
  assert (Hd : 1 <= d <= 53).
  { split; [unfold d; lia|].
    destruct (Z.le_gt_cases d 53) as [|Hbig]; [lia|exfalso].
    assert (2 ^ 53 <= 2 ^ (d - 1)) by (apply Z.pow_le_mono_r; lia). lia. }
  assert (Hfe : fexp prec emax (d + 0) = d - 53).
  { unfold fexp, SpecFloat.emin, prec, emax. lia. }
  assert (Hs : 0 < 2 ^ (53 - d)) by (apply Z.pow_pos_nonneg; lia).
  assert (Hmd : forall m : positive, Zpos m = Zpos p * 2 ^ (53 - d) ->
                                     Zpos (digits2_pos m) = 53).
  { intros m Hm. apply digits2_pos_unique. rewrite Hm. change (53 - 1) with 52. split.
    - replace 52 with (d - 1 + (53 - d)) by lia. rewrite Z.pow_add_r by lia.
      apply Z.mul_le_mono_nonneg_r; lia.
    - replace 53 with (d + (53 - d)) at 2 by lia. rewrite Z.pow_add_r by lia.
      apply Z.mul_lt_mono_pos_r; lia. }
  unfold binary_normalize, binary_round. fold d. rewrite Hfe.
  unfold shl_align.
  destruct (d - 53 - 0) as [|s|s] eqn:Hsh.
  - assert (d = 53) by lia.
    assert (Hp53 : Zpos (digits2_pos p) = 53)
      by (apply Hmd; replace (53 - d) with 0 by lia; lia).
    exists p, 0. split.
    + replace (d - 53) with 0 by lia.
      apply (binary_round_aux_exact p p 0 0); [lia | lia | exact Hp53 | lia].
    + split; [exact Hp53|]. split; [lia|]. change (2 ^ (- 0)) with 1. lia.
  - lia.
  - assert (Hsd : Zpos s = 53 - d) by lia.
    assert (Hit : Zpos (Pos.iter xO p s) = Zpos p * 2 ^ (53 - d))
      by (rewrite pos_iter_xO, Hsd; reflexivity).
    exists (Pos.iter xO p s), (d - 53). split.
    + replace (Z.neg s) with (d - 53) by lia.
      replace (d - 53) with (d - 53 + 0) at 2 by lia.
      apply binary_round_aux_exact; [lia | lia | now apply Hmd | lia].
    + split; [now apply Hmd|]. split; [lia|].
      rewrite Hit. f_equal. f_equal. lia.
Qed.

(** ** Rounding to nearest, in general *)

Lemma shr_frac_step N P r :
  0 <= N -> 0 < P -> shr_frac N P r -> shr_frac N (P * 2) (shr_1 r).
Proof.
  intros HN HP (Hm & Hr1 & Hr0 & Hs). destruct r as [m r s].
  simpl in Hm, Hr1, Hr0, Hs.
  assert (Hm0 : 0 <= m) by (subst m; apply Z.div_pos; lia).
  pose proof (Z.mod_pos_bound N P HP) as Hrem.
  assert (Hdiv : N / (P * 2) = m / 2).
  { rewrite <- Z.div_div by lia. now subst m. }
  assert (Hmod : N mod (P * 2) = N mod P + P * (m mod 2)).
  { rewrite Z.rem_mul_r by lia. now subst m. }
  assert (Hz : (r || s)%bool = false -> N mod P = 0).
  { intros Hrs. apply orb_false_elim in Hrs as [-> ->].
    specialize (Hr0 eq_refl). destruct (Hs eq_refl); lia. }
  unfold shr_frac. rewrite Hdiv, Hmod.
  set (rem := N mod P) in *. clearbody rem. clear Hm Hdiv Hmod.
  destruct m as [|[p|p|]|p]; simpl shr_1; cbn [shr_m shr_r shr_s]; try lia.
  - change (0 mod 2) with 0. change (0 / 2) with 0.
    repeat split; try discriminate; try lia.
    intros Hrs. specialize (Hz Hrs). lia.
  - assert (Z.pos p~1 / 2 = Z.pos p) as ->
        by (symmetry; apply Z.div_unique with 1; lia).
    assert (Z.pos p~1 mod 2 = 1) as ->
        by (symmetry; apply Z.mod_unique with (Z.pos p); lia).
    repeat split; try discriminate; try lia.
    intros Hrs. specialize (Hz Hrs). lia.
  - assert (Z.pos p~0 / 2 = Z.pos p) as ->
        by (symmetry; apply Z.div_unique with 0; lia).
    assert (Z.pos p~0 mod 2 = 0) as ->
        by (symmetry; apply Z.mod_unique with (Z.pos p); lia).
    repeat split; try discriminate; try lia.
    intros Hrs. specialize (Hz Hrs). lia.
  - change (1 / 2) with 0. change (1 mod 2) with 1.
    repeat split; try discriminate; try lia.
    intros Hrs. specialize (Hz Hrs). lia.
Qed.

Lemma shr_frac_shift N D p r :
  0 <= N -> 0 < D -> shr_frac N D r ->
  shr_frac N (D * 2 ^ Zpos p) (SpecFloat.iter_pos shr_1 p r).
Proof.
  intros HN HD H0. change (Zpos p) with (0 + Zpos p).
  apply (iter_pos_shr_inv (fun k r => shr_frac N (D * 2 ^ k) r)).
  - intros k r' Hk H. rewrite Z.pow_add_r by lia. change (2 ^ 1) with 2.
    rewrite Z.mul_assoc. apply shr_frac_step; [lia | | exact H].
    apply Z.mul_pos_pos; [lia | apply Z.pow_pos_nonneg; lia].
  - lia.
  - now rewrite Z.mul_1_r.
Qed.

(** Rounding to nearest moves the quotient by at most half a unit, and not
    at all when the division is exact. *)
Lemma round_nearest_even_frac N P r :
  0 <= N -> 0 < P -> shr_frac N P r ->
  let m1 := round_nearest_even (shr_m r) (loc_of_shr_record r) in
  0 <= m1 /\ N / P <= m1 <= N / P + 1
  /\ - P <= 2 * (m1 * P - N) <= P
  /\ (N mod P = 0 -> m1 * P = N).
Proof.
  intros HN HP (Hm & Hr1 & Hr0 & Hs).
  pose proof (Z.mod_pos_bound N P HP) as Hrem.
  pose proof (Z.div_mod N P ltac:(lia)) as HN'.
  assert (Hq : 0 <= N / P) by (apply Z.div_pos; lia).
  destruct r as [m [|] [|]]; simpl in *; subst m;
    set (q := N / P) in *; set (rem := N mod P) in *; clearbody q rem.
  - specialize (Hr1 eq_refl). repeat split; try lia.
  - specialize (Hr1 eq_refl). destruct (Hs eq_refl) as [H0 | Hh]; [lia|].
    destruct (Z.even q); repeat split; lia.
  - specialize (Hr0 eq_refl). repeat split; lia.
  - specialize (Hr0 eq_refl). repeat split; lia.
Qed.

(** The location that a division hands to the rounding. *)
Lemma new_location_frac q D r :
  0 < D -> 0 <= r < D ->
  shr_frac (q * D + r) D (shr_record_of_loc q (new_location D r)).
Proof.
  intros HD Hr.
  assert (Hdiv : (q * D + r) / D = q).
  { symmetry. apply Z.div_unique with r; [lia | ring]. }
  assert (Hmod : (q * D + r) mod D = r).
  { symmetry. apply Z.mod_unique with q; [lia | ring]. }
  unfold shr_frac. rewrite Hdiv, Hmod.
  unfold new_location.
  destruct (Z.even D) eqn:Hev;
    [unfold new_location_even | unfold new_location_odd];
    (destruct (Z.eqb_spec r 0) as [-> | Hr0];
     [cbn [shr_record_of_loc shr_m shr_r shr_s];
      repeat split; try discriminate; intros; lia|]).
  - destruct (Z.compare_spec (2 * r) D) as [He | Hl | Hg];
      cbn [shr_record_of_loc shr_m shr_r shr_s];
      repeat split; try discriminate; intros; lia.
  - assert (2 * r <> D).
    { intros E. rewrite <- E, Z.even_mul in Hev. discriminate. }
    destruct (Z.compare_spec (2 * r + 1) D) as [He | Hl | Hg];
      cbn [shr_record_of_loc shr_m shr_r shr_s];
      repeat split; try discriminate; intros; lia.
Qed.

Lemma exact_location_frac q D :
  0 < D -> shr_frac (q * D) D (shr_record_of_loc q loc_Exact).
Proof.
  intros HD. unfold shr_frac. rewrite Z.div_mul, Z.mod_mul by lia.
  cbn [shr_record_of_loc shr_m shr_r shr_s].
  repeat split; try discriminate; intros; lia.
Qed.

Lemma Zdigits2_bound q : 0 <= q -> q < 2 ^ Zdigits2 q.
Proof.
  intros Hq. destruct q as [|p|p]; try lia.
  - simpl. lia.
  - simpl Zdigits2. apply digits2_pos_bounds.
Qed.

Lemma shr_m_of_loc q lz : shr_m (shr_record_of_loc q lz) = q.
Proof. destruct lz as [|[| |]]; reflexivity. Qed.

(** The heart of every binary64 operation: a non-negative mantissa [q]
    with exponent [e] and a remainder below one unit, which together stand
    for the fraction [N / D] of [2^e], is rounded to a float whose
    magnitude [W] is off by at most half a unit of the exponent [e1] at
    which the rounding takes place, and not at all when [N / D] fits. *)
Lemma binary_round_aux_frac s q e lz N D :
  0 <= N -> 0 < D -> shr_frac N D (shr_record_of_loc q lz) ->
  -1074 <= e ->
  Z.max e (fexp prec emax (Zdigits2 q + e)) <= 970 ->
  exists W,
    SFfinite (binary_round_aux prec emax s q e lz) = true
    /\ SFval (binary_round_aux prec emax s q e lz) = cond_Zopp s W
    /\ 0 <= W
    /\ 2 * Z.abs (W * D - N * 2 ^ (e + 1074))
       <= D * 2 ^ (Z.max e (fexp prec emax (Zdigits2 q + e)) + 1074)
    /\ (N mod (D * 2 ^ (Z.max e (fexp prec emax (Zdigits2 q + e)) - e)) = 0 ->
        W * D = N * 2 ^ (e + 1074)).
Proof.
  intros HN HD H0 He.
  set (e1 := Z.max e (fexp prec emax (Zdigits2 q + e))). intros He1.
  assert (Hq : q = N / D).
  { destruct H0 as [H0 _]. now rewrite shr_m_of_loc in H0. }
  assert (Hq0 : 0 <= q) by (subst q; apply Z.div_pos; lia).
  set (j := e1 - e). assert (Hj : 0 <= j) by (unfold j, e1; lia).
  assert (HJ : 0 < 2 ^ j) by (apply Z.pow_pos_nonneg; lia).
  set (P := D * 2 ^ j). assert (HP : 0 < P) by (unfold P; apply Z.mul_pos_pos; lia).
  unfold binary_round_aux.
  assert (H1 : let '(r, e') := shr_fexp prec emax q e lz in
               e' = e1 /\ shr_frac N P r).
  { unfold shr_fexp, shr.
    destruct (fexp prec emax (Zdigits2 q + e) - e) as [|p|p] eqn:Hk.
    - assert (j = 0) as Hj0 by (unfold j, e1; lia).
      split; [unfold j in Hj0; lia|]. unfold P. rewrite Hj0, Z.mul_1_r. exact H0.
    - assert (j = Zpos p) as Hjp by (unfold j, e1; lia).
      split; [unfold j in Hjp; lia|]. unfold P. rewrite Hjp.
      now apply shr_frac_shift.
    - assert (j = 0) as Hj0 by (unfold j, e1; lia).
      split; [unfold j in Hj0; lia|]. unfold P. rewrite Hj0, Z.mul_1_r. exact H0. }
  destruct (shr_fexp prec emax q e lz) as [mrs' e']. destruct H1 as [-> Hfrac].
  pose proof (round_nearest_even_frac N P mrs' HN HP Hfrac) as Hr. cbv zeta in Hr.
  set (m1 := round_nearest_even (shr_m mrs') (loc_of_shr_record mrs')) in *.
  clearbody m1. clear Hfrac mrs'.
  destruct Hr as (Hm0 & Hmq & Herr & Hex).
  assert (Hm53 : m1 <= 2 ^ 53).
  { assert (N / P < 2 ^ 53); [|lia].
    unfold P. rewrite <- Z.div_div by lia. rewrite <- Hq.
    apply Z.div_lt_upper_bound; [lia|].
    pose proof (Zdigits2_bound q Hq0) as Hd.
    assert (Zdigits2 q <= 53 + j).
    { unfold j, e1, fexp, SpecFloat.emin, prec, emax. lia. }
    assert (2 ^ Zdigits2 q <= 2 ^ (j + 53)) by (apply Z.pow_le_mono_r; lia).
    rewrite Z.pow_add_r in H1 by lia. lia. }
  assert (He1m : -1074 <= e1) by (unfold e1; lia).
  set (U := 2 ^ (e + 1074)).
  assert (HU : 0 < U) by (apply Z.pow_pos_nonneg; lia).
  assert (HU1 : 2 ^ (e1 + 1074) = 2 ^ j * U).
  { unfold U, j. rewrite <- Z.pow_add_r by lia. f_equal. lia. }
  exists (m1 * 2 ^ (e1 + 1074)).
  assert (Hres : let R := (let '(mrs'', e'') := shr_fexp prec emax m1 e1 loc_Exact in
                           match shr_m mrs'' with
                           | 0 => S754_zero s
                           | Z.pos m => if e'' <=? emax - prec
                                        then S754_finite s m e'' else S754_infinity s
                           | Z.neg _ => S754_nan
                           end) in
                 SFfinite R = true /\ SFval R = cond_Zopp s (m1 * 2 ^ (e1 + 1074))).
  { pose proof (shr_fexp_shift m1 e1 Hm0) as H2. cbv zeta in H2. cbv zeta.
    destruct (shr_fexp prec emax m1 e1 loc_Exact) as [mrs'' e''].
    destruct (Z.eq_dec m1 (2 ^ 53)) as [E53 | N53].
    - subst m1. change (Zdigits2 (2 ^ 53)) with 54 in H2.
      assert (Hf : fexp prec emax (54 + e1) - e1 = 1)
        by (unfold fexp, SpecFloat.emin, prec, emax; lia).
      rewrite Hf in H2. destruct H2 as [(Hk & _) | (_ & -> & Hm & _)]; [lia|].
      rewrite Hm. change (2 ^ 53 / 2 ^ 1) with 4503599627370496.
      assert (Hle : (e1 + 1 <=? emax - prec) = true)
        by (apply Z.leb_le; unfold emax, prec; lia).
      rewrite Hle. split; [reflexivity|]. simpl SFval. f_equal.
      replace (e1 + 1 + 1074) with (1 + (e1 + 1074)) by lia.
      rewrite Z.pow_add_r by lia. change (2 ^ 53) with 9007199254740992.
      change (2 ^ 1) with 2. ring.
    - assert (Hk : fexp prec emax (Zdigits2 m1 + e1) - e1 <= 0).
      { destruct m1 as [|p|p]; try lia.
        - simpl Zdigits2. unfold fexp, SpecFloat.emin, prec, emax. lia.
        - simpl Zdigits2. pose proof (digits2_pos_bounds p) as [Dlo _].
          assert (Zpos (digits2_pos p) <= 53).
          { destruct (Z.le_gt_cases (Zpos (digits2_pos p)) 53) as [|Hbig]; [lia|exfalso].
            assert (2 ^ 53 <= 2 ^ (Zpos (digits2_pos p) - 1))
              by (apply Z.pow_le_mono_r; lia).
            lia. }
          unfold fexp, SpecFloat.emin, prec, emax. lia. }
      destruct H2 as [(_ & -> & ->) | (Hk' & _)]; [|lia].
      cbn [shr_record_of_loc shr_m].
      destruct m1 as [|p|p]; try lia.
      + split; [reflexivity|]. simpl. now destruct s.
      + assert (Hle : (e1 <=? emax - prec) = true)
          by (apply Z.leb_le; unfold emax, prec; lia).
        rewrite Hle. split; reflexivity. }
  cbv zeta in Hres. destruct Hres as [Hfin Hval].
  split; [exact Hfin|]. split; [exact Hval|].
  split; [apply Z.mul_nonneg_nonneg; lia|].
  assert (HW : m1 * 2 ^ (e1 + 1074) * D - N * U = (m1 * P - N) * U).
  { rewrite HU1. unfold P. ring. }
  split.
  - rewrite HW, Z.abs_mul, (Z.abs_eq U) by lia.
    rewrite HU1. replace (D * (2 ^ j * U)) with (P * U) by (unfold P; ring).
    assert (2 * Z.abs (m1 * P - N) <= P) by lia.
    replace (2 * (Z.abs (m1 * P - N) * U)) with (2 * Z.abs (m1 * P - N) * U) by ring.
    apply Z.mul_le_mono_nonneg_r; lia.
  - fold j. fold P. intros Hmod. specialize (Hex Hmod).
    apply Z.sub_move_0_r. rewrite HW, Hex. ring.
Qed.

Lemma pow2_digits_le (p : positive) (E B : Z) :
  0 <= E -> Zpos p * 2 ^ E < 2 ^ B -> Zpos (digits2_pos p) + E <= B.
Proof.
  intros HE Hlt. pose proof (digits2_pos_bounds p) as [Dlo _].
  set (d := Zpos (digits2_pos p)) in *.
  assert (Hd : 1 <= d) by (unfold d; lia).
  destruct (Z.le_gt_cases (d + E) B) as [|Hbig]; [lia|exfalso].
  assert (HpE : 0 < 2 ^ E) by (apply Z.pow_pos_nonneg; lia).
  assert (2 ^ B <= 2 ^ (d - 1 + E)) by (apply Z.pow_le_mono_r; lia).
  rewrite Z.pow_add_r in H by lia.
  assert (2 ^ (d - 1) * 2 ^ E <= Zpos p * 2 ^ E)
    by (apply Z.mul_le_mono_nonneg_r; lia).
  lia.
Qed.

(** Rounding an exact number [M * 2^E]: a relative error of at most
    2^-53, as long as the number is below 2^1022. *)
Lemma binary_round_rel s M E :
  -1074 <= E -> Zpos M * 2 ^ (E + 1074) < 2 ^ 2096 ->
  exists W,
    SFfinite (binary_round prec emax s M E) = true
    /\ SFval (binary_round prec emax s M E) = cond_Zopp s W
    /\ 0 <= W
    /\ 2 ^ 53 * Z.abs (W - Zpos M * 2 ^ (E + 1074)) <= Zpos M * 2 ^ (E + 1074).
Proof.
  intros HE HX.
  pose proof (pow2_digits_le M (E + 1074) 2096 ltac:(lia) HX) as Hd.
  pose proof (digits2_pos_bounds M) as [Dlo Dhi].
  set (d := Zpos (digits2_pos M)) in *.
  assert (Hd1 : 1 <= d) by (unfold d; lia).
  set (U := 2 ^ (E + 1074)) in *.
  assert (HU : 0 < U) by (apply Z.pow_pos_nonneg; lia).
  unfold binary_round, shl_align. fold d.
  set (fx := fexp prec emax (d + E)).
  assert (Hfx : fx = Z.max (d + E - 53) (-1074))
    by (unfold fx, fexp, SpecFloat.emin, prec, emax; lia).
  destruct (fx - E) as [|p|p] eqn:Hk.
  - destruct (binary_round_aux_frac s (Zpos M) E loc_Exact (Zpos M) 1)
      as (W & Hfin & Hval & HW & _ & Hex); try lia.
    + rewrite <- (Z.mul_1_r (Zpos M)) at 1. apply exact_location_frac. lia.
    + simpl Zdigits2. fold d. fold fx. lia.
    + exists W. repeat (split; [assumption|]).
      simpl Zdigits2 in Hex. fold d in Hex. fold fx in Hex.
      replace (1 * 2 ^ (Z.max E fx - E)) with 1 in Hex
        by (replace (Z.max E fx - E) with 0 by lia; reflexivity).
      rewrite Z.mul_1_r in Hex. rewrite (Hex (Z.mod_1_r _)).
      fold U. rewrite Z.sub_diag. simpl. lia.
  - destruct (binary_round_aux_frac s (Zpos M) E loc_Exact (Zpos M) 1)
      as (W & Hfin & Hval & HW & Herr & _); try lia.
    + rewrite <- (Z.mul_1_r (Zpos M)) at 1. apply exact_location_frac. lia.
    + simpl Zdigits2. fold d. fold fx. lia.
    + exists W. repeat (split; [assumption|]).
      simpl Zdigits2 in Herr. fold d in Herr. fold fx in Herr. fold U in Herr.
      rewrite Z.mul_1_r, Z.mul_1_l in Herr.
      assert (Hfe : fx = d + E - 53) by lia.
      rewrite (Z.max_r E fx) in Herr by lia.
      assert (Hp : 2 ^ 53 * 2 ^ (fx + 1074) = 2 * (2 ^ (d - 1) * U)).
      { unfold U. rewrite <- Z.pow_add_r by lia.
        rewrite <- Z.pow_add_r by lia.
        replace (53 + (fx + 1074)) with (1 + (d - 1 + (E + 1074))) by lia.
        rewrite Z.pow_add_r by lia. reflexivity. }
      assert (2 ^ (d - 1) * U <= Zpos M * U)
        by (apply Z.mul_le_mono_nonneg_r; lia).
      assert (2 ^ 53 * (2 * Z.abs (W - Zpos M * U)) <= 2 ^ 53 * 2 ^ (fx + 1074))
        by (apply Z.mul_le_mono_nonneg_l; lia).
      lia.
  - assert (Hpe : Zpos p = E - fx) by lia.
    assert (HM' : Zpos (Pos.iter xO M p) = Zpos M * 2 ^ Zpos p) by apply pos_iter_xO.
    assert (Hp2 : 0 < 2 ^ Zpos p) by (apply Z.pow_pos_nonneg; lia).
    assert (Hd' : Zdigits2 (Zpos (Pos.iter xO M p)) = d + Zpos p).
    { simpl Zdigits2. apply digits2_pos_unique. rewrite HM'.
      replace (d + Zpos p - 1) with (d - 1 + Zpos p) by lia.
      rewrite !Z.pow_add_r by lia. split.
      - apply Z.mul_le_mono_nonneg_r; lia.
      - apply Z.mul_lt_mono_pos_r; lia. }
    assert (Hfx' : fexp prec emax (d + Zpos p + fx) = fx).
    { replace (d + Zpos p + fx) with (d + E) by lia. reflexivity. }
    destruct (binary_round_aux_frac s (Zpos (Pos.iter xO M p)) fx loc_Exact
                (Zpos (Pos.iter xO M p)) 1)
      as (W & Hfin & Hval & HW & _ & Hex); try lia.
    + rewrite <- (Z.mul_1_r (Zpos (Pos.iter xO M p))) at 1.
      apply exact_location_frac. lia.
    + rewrite Hd', Hfx'. lia.
    + exists W. repeat (split; [assumption|]).
      rewrite Hd', Hfx', Z.max_id, Z.sub_diag in Hex.
      change (1 * 2 ^ 0) with 1 in Hex.
      rewrite Z.mul_1_r in Hex. specialize (Hex (Z.mod_1_r _)).
      assert (W = Zpos M * U) as ->.
      { rewrite Hex, HM'. unfold U. rewrite <- Z.mul_assoc. f_equal.
        rewrite <- Z.pow_add_r by lia. f_equal. lia. }
      rewrite Z.sub_diag. simpl. lia.
Qed.

Lemma valid_finite s m e :
  valid_binary (S754_finite s m e) = true ->
  -1074 <= e <= 971 /\ Zpos (digits2_pos m) <= 53 /\ Zpos m < 2 ^ 53.
Proof.
  unfold valid_binary, bounded, canonical_mantissa. intros H.
  apply andb_prop in H as [Hc Hb]. apply Z.eqb_eq in Hc. apply Z.leb_le in Hb.
  unfold fexp, SpecFloat.emin, prec, emax in *.
  pose proof (digits2_pos_bounds m) as [_ Dhi].
  assert (Zpos (digits2_pos m) <= 53) by lia.
  assert (2 ^ Zpos (digits2_pos m) <= 2 ^ 53) by (apply Z.pow_le_mono_r; lia).
  lia.
Qed.

Lemma shl_align_val m e ez :
  ez <= e -> Zpos (fst (shl_align m e ez)) = Zpos m * 2 ^ (e - ez).
Proof.
  intros H. unfold shl_align. destruct (ez - e) as [|p|p] eqn:Hk; try lia.
  - simpl. replace (e - ez) with 0 by lia. lia.
  - simpl. rewrite pos_iter_xO. f_equal. f_equal. lia.
Qed.


Lemma cond_Zopp_mul s a b : cond_Zopp s (a * b) = cond_Zopp s a * b.
Proof. destruct s; simpl; ring. Qed.

(** Addition of finite binary64 numbers: a relative error of at most
    2^-53 as long as the exact sum is below 2^1022.  Gradual underflow
    costs nothing: a sum too small to be normal is exact. *)
Lemma SFadd_rel x y :
  valid_binary x = true -> valid_binary y = true ->
  SFfinite x = true -> SFfinite y = true ->
  Z.abs (SFval x + SFval y) < 2 ^ 2096 ->
  SFfinite (SF64add x y) = true
  /\ 2 ^ 53 * Z.abs (SFval (SF64add x y) - (SFval x + SFval y))
     <= Z.abs (SFval x + SFval y).
Proof.
  intros Vx Vy Fx Fy Hb. unfold SF64add.
  destruct x as [sx | sx | | sx mx ex]; try discriminate;
    destruct y as [sy | sy | | sy my ey]; try discriminate.
  - destruct sx, sy; cbn [SFadd SFfinite SFval]; split; try reflexivity; lia.
  - cbn [SFadd SFfinite]. split; [reflexivity|].
    change (SFval (S754_zero sx)) with 0.
    replace (SFval (S754_finite sy my ey) - (0 + SFval (S754_finite sy my ey)))
      with 0 by ring.
    simpl Z.abs at 1. lia.
  - cbn [SFadd SFfinite]. split; [reflexivity|].
    change (SFval (S754_zero sy)) with 0.
    replace (SFval (S754_finite sx mx ex) - (SFval (S754_finite sx mx ex) + 0))
      with 0 by ring.
    simpl Z.abs at 1. lia.
  - apply valid_finite in Vx as (Hex & _), Vy as (Hey & _).
    cbn [SFadd]. set (ez := Z.min ex ey).
    rewrite (shl_align_val mx ex ez), (shl_align_val my ey ez) by (unfold ez; lia).
    set (U := 2 ^ (ez + 1074)).
    assert (HU : 0 < U) by (apply Z.pow_pos_nonneg; unfold ez; lia).
    assert (Hx : SFval (S754_finite sx mx ex)
                 = cond_Zopp sx (Zpos mx * 2 ^ (ex - ez)) * U).
    { cbn [SFval]. rewrite <- cond_Zopp_mul. f_equal. rewrite <- Z.mul_assoc. f_equal.
      unfold U. rewrite <- Z.pow_add_r by (unfold ez; lia). f_equal. lia. }
    assert (Hy : SFval (S754_finite sy my ey)
                 = cond_Zopp sy (Zpos my * 2 ^ (ey - ez)) * U).
    { cbn [SFval]. rewrite <- cond_Zopp_mul. f_equal. rewrite <- Z.mul_assoc. f_equal.
      unfold U. rewrite <- Z.pow_add_r by (unfold ez; lia). f_equal. lia. }
    rewrite Hx, Hy in *. rewrite <- Z.mul_add_distr_r in *.
    set (Zs := cond_Zopp sx (Zpos mx * 2 ^ (ex - ez))
               + cond_Zopp sy (Zpos my * 2 ^ (ey - ez))) in *.
    clearbody Zs. unfold binary_normalize.
    destruct Zs as [|M|M].
    + cbn [SFfinite SFval]. split; [reflexivity | simpl; lia].
    + destruct (binary_round_rel false M ez) as (W & Hfin & Hval & HW & Herr).
      * unfold ez. lia.
      * fold U. rewrite Z.abs_eq in Hb by lia. exact Hb.
      * split; [exact Hfin|]. rewrite Hval. cbn [cond_Zopp]. fold U in Herr.
        rewrite (Z.abs_eq (Zpos M * U)) by lia. exact Herr.
    + destruct (binary_round_rel true M ez) as (W & Hfin & Hval & HW & Herr).
      * unfold ez. lia.
      * fold U. replace (Zneg M * U) with (- (Zpos M * U)) in Hb by lia.
        rewrite Z.abs_opp, Z.abs_eq in Hb by lia. exact Hb.
      * split; [exact Hfin|]. rewrite Hval. cbn [cond_Zopp]. fold U in Herr.
        replace (Zneg M * U) with (- (Zpos M * U)) by lia.
        replace (- W - - (Zpos M * U)) with (- (W - Zpos M * U)) by ring.
        rewrite !Z.abs_opp, (Z.abs_eq (Zpos M * U)) by lia. exact Herr.
Qed.

(** Division of a finite binary64 number by [float(n)]: a relative error
    of at most 2^-53, or half of the smallest positive number when the
    quotient underflows. *)
Lemma SFdiv_nat_rel x n my ey :
  valid_binary x = true -> SFfinite x = true -> Z.abs (SFval x) < 2 ^ 2096 ->
  0 < n -> Zpos (digits2_pos my) = 53 -> -52 <= ey <= 0 ->
  Zpos my = n * 2 ^ (- ey) ->
  SFfinite (SF64div x (S754_finite false my ey)) = true
  /\ 2 ^ 53 * Z.abs (n * SFval (SF64div x (S754_finite false my ey)) - SFval x)
     <= Z.abs (SFval x) + n * 2 ^ 52.
Proof.
  intros Vx Fx Hb Hn Hd2 Hey Hmy. unfold SF64div.
  destruct x as [sx | sx | | sx mx ex]; try discriminate.
  { cbn [SFdiv SFfinite SFval]. split; [reflexivity|].
    rewrite Z.mul_0_r. simpl Z.abs. lia. }
  apply valid_finite in Vx as (Hex & Hd1 & Hmx).
  pose proof (digits2_pos_bounds mx) as [D1lo D1hi].
  pose proof (digits2_pos_bounds my) as [D2lo D2hi]. rewrite Hd2 in D2lo, D2hi.
  change (2 ^ (53 - 1)) with 4503599627370496 in D2lo.
  change (2 ^ 53) with 9007199254740992 in D2hi.
  set (AV := Zpos mx * 2 ^ (ex + 1074)).
  assert (HAV : SFval (S754_finite sx mx ex) = cond_Zopp sx AV) by reflexivity.
  assert (HAV0 : 0 < AV).
  { unfold AV. apply Z.mul_pos_pos; [lia | apply Z.pow_pos_nonneg; lia]. }
  rewrite HAV in *.
  assert (Hb' : AV < 2 ^ 2096) by (destruct sx; simpl in Hb; lia).
  pose proof (pow2_digits_le mx (ex + 1074) 2096 ltac:(lia) Hb') as Hd1e.
  cbn [SFdiv]. unfold SFdiv_core_binary. simpl Zdigits2. rewrite Hd2.
  set (d1 := Zpos (digits2_pos mx)) in *.
  assert (Hd1p : 1 <= d1) by (unfold d1; lia).
  set (e' := Z.min (fexp prec emax (d1 + ex - (53 + ey))) (ex - ey)).
  assert (He' : -1074 <= e' <= 968 /\ 0 <= ex - ey - e'
                /\ (-1074 < e' -> ex - ey - e' = 106 - d1)).
  { unfold e', fexp, SpecFloat.emin, prec, emax. lia. }
  destruct He' as (He'b & Hs0 & Hs106).
  set (s := ex - ey - e') in *.
  set (m' := match s with
             | 0 => Zpos mx
             | Zpos _ => Z.shiftl (Zpos mx) s
             | Zneg _ => 0
             end).
  assert (Hps : 0 < 2 ^ s) by (apply Z.pow_pos_nonneg; lia).
  assert (Hm' : m' = Zpos mx * 2 ^ s).
  { unfold m'. destruct s as [|p|p] eqn:Hs; try lia.
    - now rewrite Z.shiftl_mul_pow2 by lia. }
  clearbody m'.
  pose proof (Z_div_mod m' (Zpos my) ltac:(lia)) as Hdm.
  destruct (Z.div_eucl m' (Zpos my)) as [q r]. destruct Hdm as [Hdm Hr].
  assert (Hq0 : 0 <= q) by nia.
  assert (HN : q * Zpos my + r = m') by lia.
  set (e1 := Z.max e' (fexp prec emax (Zdigits2 q + e'))).
  assert (Hdq : 0 < q -> 2 ^ (Zdigits2 q - 1) <= q /\ Zdigits2 q + 52 <= d1 + s).
  { intros Hqp. destruct q as [|pq|pq]; try lia. simpl Zdigits2.
    pose proof (digits2_pos_bounds pq) as [Qlo _]. split; [exact Qlo|].
    set (dq := Zpos (digits2_pos pq)) in *.
    assert (1 <= dq) by (unfold dq; lia).
    destruct (Z.le_gt_cases (dq + 52) (d1 + s)) as [|Hbig]; [lia|exfalso].
    assert (2 ^ (d1 + s) <= 2 ^ (dq - 1 + 52)) by (apply Z.pow_le_mono_r; lia).
    rewrite !Z.pow_add_r in H0 by lia. change (2 ^ 52) with 4503599627370496 in H0.
    assert (Zpos mx * 2 ^ s < 2 ^ d1 * 2 ^ s)
      by (apply Z.mul_lt_mono_pos_r; lia).
    assert (2 ^ (dq - 1) * 4503599627370496 <= Zpos pq * Zpos my).
    { transitivity (Zpos pq * 4503599627370496).
      - apply Z.mul_le_mono_nonneg_r; lia.
      - apply Z.mul_le_mono_nonneg_l; lia. }
    lia. }
  assert (He1 : e1 <= 970).
  { unfold e1. destruct (Z.eq_dec q 0) as [-> | Hqn].
    - simpl Zdigits2. unfold fexp, SpecFloat.emin, prec, emax. lia.
    - destruct (Hdq ltac:(lia)) as [_ Hq52].
      unfold fexp, SpecFloat.emin, prec, emax. unfold s in Hq52. lia. }
  destruct (binary_round_aux_frac (xorb sx false) q e'
              (new_location (Zpos my) r) (q * Zpos my + r) (Zpos my))
    as (W & Hfin & Hval & HW & Herr & _); try lia.
  { apply new_location_frac; lia. }
  fold e1 in Herr.
  split; [exact Hfin|]. rewrite Hval, xorb_false_r.
  replace (n * cond_Zopp sx W - cond_Zopp sx AV) with (cond_Zopp sx (n * W - AV))
    by (destruct sx; simpl; ring).
  assert (Habs : forall z, Z.abs (cond_Zopp sx z) = Z.abs z)
    by (intros z; destruct sx; simpl; [apply Z.abs_opp | reflexivity]).
  rewrite !Habs, (Z.abs_eq AV) by lia.
  (* back to units of 2^-1074 *)
  set (G := 2 ^ (- ey)) in *.
  assert (HG : 0 < G) by (apply Z.pow_pos_nonneg; lia).
  set (T := 2 ^ (e1 + 1074)) in *.
  assert (He1lo : -1074 <= e1) by (unfold e1; lia).
  assert (HT : 0 < T) by (apply Z.pow_pos_nonneg; lia).
  assert (HNU : (q * Zpos my + r) * 2 ^ (e' + 1074) = AV * G).
  { rewrite HN, Hm'. unfold AV, G. rewrite <- !Z.mul_assoc. f_equal.
    rewrite <- !Z.pow_add_r by lia. f_equal. unfold s. lia. }
  rewrite HNU, Hmy in Herr.
  assert (Hcore : 2 * Z.abs (n * W - AV) <= n * T).
  { replace (W * (n * G) - AV * G) with ((n * W - AV) * G) in Herr by ring.
    rewrite Z.abs_mul, (Z.abs_eq G) in Herr by lia.
    apply Z.mul_le_mono_pos_r with (p := G); [lia|]. lia. }
  destruct (Z.eq_dec e1 (-1074)) as [Hemin | Hnorm].
  - unfold T in Hcore. rewrite Hemin in Hcore. change (2 ^ (-1074 + 1074)) with 1 in Hcore.
    change (2 ^ 53) with (2 ^ 52 * 2). lia.
  - assert (Hfull : Zpos my * 2 ^ (e1 - e' + 52) <= m').
    { destruct (Z.le_gt_cases (fexp prec emax (Zdigits2 q + e')) e') as [Hle | Hgt].
      - assert (e1 = e') as -> by (unfold e1; lia).
        rewrite Z.sub_diag. change (2 ^ (0 + 52)) with 4503599627370496.
        rewrite Hm', (Hs106 ltac:(lia)).
        assert (2 ^ 105 <= Zpos mx * 2 ^ (106 - d1)).
        { replace 105 with (d1 - 1 + (106 - d1)) by lia.
          rewrite Z.pow_add_r by lia. apply Z.mul_le_mono_nonneg_r; [|lia].
          apply Z.pow_nonneg. lia. }
        change (2 ^ 105) with 40564819207303340847894502572032 in H. lia.
      - assert (Hqp : 0 < q).
        { destruct (Z.eq_dec q 0) as [-> | ]; [|lia]. exfalso. simpl Zdigits2 in Hgt.
          unfold fexp, SpecFloat.emin, prec, emax in Hgt. lia. }
        destruct (Hdq Hqp) as [Qlo _].
        assert (e1 - e' + 52 = Zdigits2 q - 1).
        { unfold e1. unfold fexp, SpecFloat.emin, prec, emax in *. lia. }
        rewrite H.
        transitivity (Zpos my * q); [apply Z.mul_le_mono_nonneg_l; lia | lia]. }
    assert (HnT : n * T * 2 ^ 52 <= AV).
    { apply Z.mul_le_mono_pos_r with (p := G); [lia|].
      rewrite <- HNU, HN.
      replace (n * T * 2 ^ 52 * G) with (n * G * (T * 2 ^ 52)) by ring.
      rewrite <- Hmy.
      assert (Hsplit : T * 2 ^ 52 = 2 ^ (e1 - e' + 52) * 2 ^ (e' + 1074)).
      { unfold T. rewrite <- !Z.pow_add_r by lia. f_equal. lia. }
      rewrite Hsplit, Z.mul_assoc.
      apply Z.mul_le_mono_nonneg_r; [apply Z.pow_nonneg; lia | exact Hfull]. }
    change (2 ^ 53) with (2 ^ 52 * 2).
    assert (0 <= n * 2 ^ 52) by (apply Z.mul_nonneg_nonneg; lia).
    assert (2 ^ 52 * (2 * Z.abs (n * W - AV)) <= 2 ^ 52 * (n * T))
      by (apply Z.mul_le_mono_nonneg_l; lia).
    lia.
Qed.

(** ** Summation *)

Lemma approx_leaf x : finite x = true -> approx 0 x (Fval x) (Z.abs (Fval x)).
Proof.
  intros Hx. unfold approx. split; [exact Hx|]. split; [lia|].
  rewrite Z.sub_diag. simpl. lia.
Qed.

Lemma approx_zero : approx 0 0%float 0 0.
Proof.
  unfold approx. split; [reflexivity|]. change (Fval 0) with 0. simpl. lia.
Qed.

Lemma approx_mono c c' x S a :
  approx c x S a -> c <= c' -> approx c' x S a.
Proof.
  intros (Hf & HS & He) Hc. split; [exact Hf|]. split; [exact HS|].
  assert (0 <= a) by lia.
  assert (c * a <= c' * a) by (apply Z.mul_le_mono_nonneg_r; lia). lia.
Qed.

(** The error of a sum grows by one rounding. *)
Lemma approx_add c x y c1 S1 a1 c2 S2 a2 :
  approx c1 x S1 a1 -> approx c2 y S2 a2 ->
  0 <= c1 <= c -> 0 <= c2 <= c -> c <= 2 ^ 52 ->
  2 * (a1 + a2) < 2 ^ 2096 ->
  approx (c + 1) (x + y) (S1 + S2) (a1 + a2).
Proof.
  intros (Fx & HS1 & E1) (Fy & HS2 & E2) Hc1 Hc2 Hc Hb.
  unfold approx, finite, Fval in *. rewrite FloatAxioms.add_spec.
  set (vx := SFval (Prim2SF x)) in *. set (vy := SFval (Prim2SF y)) in *.
  assert (Ha1 : 0 <= a1) by lia. assert (Ha2 : 0 <= a2) by lia.
  assert (Hca1 : c1 * a1 <= c * a1) by (apply Z.mul_le_mono_nonneg_r; lia).
  assert (Hca2 : c2 * a2 <= c * a2) by (apply Z.mul_le_mono_nonneg_r; lia).
  assert (Hpa1 : c * a1 <= 2 ^ 52 * a1) by (apply Z.mul_le_mono_nonneg_r; lia).
  assert (Hpa2 : c * a2 <= 2 ^ 52 * a2) by (apply Z.mul_le_mono_nonneg_r; lia).
  change (2 ^ 53) with (2 * 2 ^ 52) in *.
  set (P := 2 ^ 52) in *. assert (HP : 0 < P) by (unfold P; lia).
  assert (Hx : Z.abs (vx - S1) <= a1).
  { apply Z.mul_le_mono_pos_l with (p := P); lia. }
  assert (Hy : Z.abs (vy - S2) <= a2).
  { apply Z.mul_le_mono_pos_l with (p := P); lia. }
  destruct (SFadd_rel (Prim2SF x) (Prim2SF y)) as [Ff Hr];
    try apply Prim2SF_valid; try assumption.
  { fold vx vy. lia. }
  fold vx vy in Hr. change (2 ^ 53) with (2 * P) in Hr.
  set (vz := SFval (SF64add (Prim2SF x) (Prim2SF y))) in *.
  split; [exact Ff|]. split; [lia|].
  assert (Hca : c * (a1 + a2) = c * a1 + c * a2) by ring.
  assert (Hexp : 2 * (c + 1) * (a1 + a2) = 2 * (c * a1 + c * a2) + 2 * (a1 + a2)) by ring.
  rewrite Hexp.
  assert (Htri : Z.abs (vz - (S1 + S2))
                 <= Z.abs (vz - (vx + vy)) + Z.abs (vx - S1) + Z.abs (vy - S2)) by lia.
  assert (2 * P * Z.abs (vz - (S1 + S2))
          <= 2 * P * Z.abs (vz - (vx + vy)) + 2 * P * Z.abs (vx - S1)
             + 2 * P * Z.abs (vy - S2)).
  { rewrite <- !Z.mul_add_distr_l. apply Z.mul_le_mono_nonneg_l; lia. }
  lia.
Qed.

Lemma Fabs_sum_nonneg l : 0 <= Fabs_sum l.
Proof. induction l; simpl; lia. Qed.

Lemma Fsum_abs l : Z.abs (Fsum l) <= Fabs_sum l.
Proof. induction l; simpl; lia. Qed.

Lemma Fsum_app l k : Fsum (l ++ k) = Fsum l + Fsum k.
Proof. induction l; simpl; lia. Qed.

Lemma Fabs_sum_app l k : Fabs_sum (l ++ k) = Fabs_sum l + Fabs_sum k.
Proof. induction l; simpl; lia. Qed.

Lemma fold_left_add_approx l : forall acc c v a,
  approx c acc v a -> 0 <= c ->
  Forall (fun x => finite x = true) l ->
  c + Z.of_nat (length l) <= 2 ^ 52 ->
  2 * (a + Fabs_sum l) < 2 ^ 2096 ->
  approx (c + Z.of_nat (length l)) (fold_left PrimFloat.add l acc)
    (v + Fsum l) (a + Fabs_sum l).
Proof.
  induction l as [|x l IH]; intros acc c v a Ha Hc Hf Hn Hb.
  - simpl. now rewrite !Z.add_0_r.
  - inversion Hf as [|? ? Hx Hl]; subst. cbn [fold_left Fsum Fabs_sum fold_right length] in *.
    pose proof (Fabs_sum_nonneg l) as Hl0.
    replace (c + Z.of_nat (S (length l))) with (c + 1 + Z.of_nat (length l)) by lia.
    replace (v + (Fval x + fold_right (fun x s => Fval x + s) 0 l))
      with (v + Fval x + Fsum l) by (unfold Fsum; ring).
    replace (a + (Z.abs (Fval x) + fold_right (fun x s => Z.abs (Fval x) + s) 0 l))
      with (a + Z.abs (Fval x) + Fabs_sum l) by (unfold Fabs_sum; ring).
    fold (Fabs_sum l) in Hb.
    apply IH; try assumption; try lia.
    apply (approx_add c acc x c v a 0 (Fval x) (Z.abs (Fval x))); try lia.
    + exact Ha.
    + now apply approx_leaf.
Qed.

Lemma sum_small_approx l :
  Forall (fun x => finite x = true) l ->
  Z.of_nat (length l) <= 2 ^ 52 -> 2 * Fabs_sum l < 2 ^ 2096 ->
  approx (Z.of_nat (length l)) (np.sum_small l) (Fsum l) (Fabs_sum l).
Proof.
  intros Hf Hn Hb.
  pose proof (fold_left_add_approx l 0%float 0 0 0 approx_zero ltac:(lia) Hf
                ltac:(lia) ltac:(lia)) as H.
  exact H.
Qed.

Lemma approx_all_nonneg c r ws :
  Forall2 (fun x w => approx c x (fst w) (snd w)) r ws ->
  0 <= Zsum (map snd ws) /\ Forall (fun w => 0 <= snd w) ws.
Proof.
  induction 1 as [|x w r ws (_ & Hs & _) _ [IH1 IH2]]; simpl.
  - split; [lia | constructor].
  - split; [lia|]. constructor; [lia | exact IH2].
Qed.

(** One pass of the eight running sums over a group. *)
Lemma add_step_approx c : forall r ys ws,
  Forall2 (fun x w => approx c x (fst w) (snd w)) r ws ->
  length ys = length r ->
  Forall (fun x => finite x = true) ys ->
  0 <= c <= 2 ^ 52 ->
  2 * (Zsum (map snd ws) + Fabs_sum ys) < 2 ^ 2096 ->
  exists ws',
    Forall2 (fun x w => approx (c + 1) x (fst w) (snd w))
      (map (fun p => PrimFloat.add (fst p) (snd p)) (combine r ys)) ws'
    /\ Zsum (map fst ws') = Zsum (map fst ws) + Fsum ys
    /\ Zsum (map snd ws') = Zsum (map snd ws) + Fabs_sum ys.
Proof.
  intros r ys ws H. revert ys.
  induction H as [|x w r ws Hx Hr IH]; intros [|y ys] Hl Hf Hc Hb;
    simpl in Hl; try discriminate.
  - exists []. simpl. split; [constructor|]. split; lia.
  - inversion Hf as [|? ? Hy Hys]; subst.
    destruct (approx_all_nonneg _ _ _ Hr) as [Hws _].
    pose proof (Fabs_sum_nonneg ys) as Hys0.
    assert (Hw : 0 <= snd w) by (destruct Hx as (_ & ? & _); lia).
    cbn [map Zsum fold_right Fabs_sum Fsum] in *.
    fold (Fabs_sum ys) in *. fold (Fsum ys) in *.
    fold (Zsum (map snd ws)) in *. fold (Zsum (map fst ws)) in *.
    destruct (IH ys ltac:(lia) Hys Hc ltac:(lia)) as (ws' & HF & HS & HA).
    exists ((fst w + Fval y, snd w + Z.abs (Fval y)) :: ws').
    split; [|cbn [map Zsum fold_right fst snd];
             fold (Zsum (map fst ws')); fold (Zsum (map snd ws')); lia].
    cbn [combine map fst snd]. constructor; [|exact HF].
    cbn [fst snd].
    apply (approx_add c x y c (fst w) (snd w) 0 (Fval y) (Z.abs (Fval y)));
      try lia; [exact Hx | now apply approx_leaf].
Qed.

Lemma Forall_finite_split (l : list float) n :
  Forall (fun x => finite x = true) l ->
  Forall (fun x => finite x = true) (firstn n l)
  /\ Forall (fun x => finite x = true) (skipn n l).
Proof.
  intros H. rewrite <- (firstn_skipn n l) in H.
  apply Forall_app in H. exact H.
Qed.

Lemma Fsum_split l n : Fsum l = Fsum (firstn n l) + Fsum (skipn n l).
Proof. now rewrite <- Fsum_app, firstn_skipn. Qed.

Lemma Fabs_sum_split l n :
  Fabs_sum l = Fabs_sum (firstn n l) + Fabs_sum (skipn n l).
Proof. now rewrite <- Fabs_sum_app, firstn_skipn. Qed.

Lemma add_groups_approx fuel : forall c r l ws r' rest,
  np.add_groups fuel r l = (r', rest) ->
  length r = 8%nat ->
  Forall2 (fun x w => approx c x (fst w) (snd w)) r ws ->
  Forall (fun x => finite x = true) l ->
  0 <= c -> c + Z.of_nat (length l) <= 2 ^ 52 ->
  2 * (Zsum (map snd ws) + Fabs_sum l) < 2 ^ 2096 ->
  exists c' ws',
    Forall2 (fun x w => approx c' x (fst w) (snd w)) r' ws'
    /\ length r' = 8%nat /\ 0 <= c'
    /\ 8 * c' + Z.of_nat (length rest) = 8 * c + Z.of_nat (length l)
    /\ Zsum (map fst ws') + Fsum rest = Zsum (map fst ws) + Fsum l
    /\ Zsum (map snd ws') + Fabs_sum rest = Zsum (map snd ws) + Fabs_sum l
    /\ Forall (fun x => finite x = true) rest.
Proof.
  induction fuel as [|fuel IH]; intros c r l ws r' rest Hg Hr8 Hr Hf Hc Hn Hb.
  - simpl in Hg. injection Hg as <- <-. exists c, ws. repeat split; auto.
  - cbn [np.add_groups] in Hg.
    destruct (8 <=? length l)%nat eqn:H8.
    + apply Nat.leb_le in H8.
      destruct (Forall_finite_split l 8 Hf) as [Hf1 Hf2].
      assert (Hl1 : length (firstn 8 l) = 8%nat) by (rewrite length_firstn; lia).
      assert (Hl2 : length (skipn 8 l) = (length l - 8)%nat) by apply length_skipn.
      pose proof (Fabs_sum_nonneg (skipn 8 l)) as Hn2.
      rewrite (Fabs_sum_split l 8) in Hb.
      destruct (add_step_approx c r (firstn 8 l) ws Hr ltac:(lia) Hf1 ltac:(lia)
                  ltac:(lia)) as (ws1 & HF1 & HS1 & HA1).
      destruct (IH (c + 1) _ _ ws1 r' rest Hg) as (c' & ws' & HF & Hr' & Hc' & Hcnt & HS & HA & Hfr);
        try assumption; try lia.
      { rewrite length_map, length_combine. lia. }
      exists c', ws'. repeat split; try assumption; try lia.
      * rewrite (Fsum_split l 8). lia.
      * rewrite (Fabs_sum_split l 8). lia.
    + injection Hg as <- <-. exists c, ws. repeat split; auto.
Qed.

Lemma Zsum_leaves k :
  Zsum (map fst (map (fun x => (Fval x, Z.abs (Fval x))) k)) = Fsum k
  /\ Zsum (map snd (map (fun x => (Fval x, Z.abs (Fval x))) k)) = Fabs_sum k.
Proof.
  unfold Zsum, Fsum, Fabs_sum.
  induction k as [|x k [IH1 IH2]]; cbn [map fold_right fst snd];
    [split; reflexivity | now rewrite IH1, IH2].
Qed.

Lemma sum_block_approx l :
  (8 <= length l)%nat ->
  Forall (fun x => finite x = true) l ->
  Z.of_nat (length l) <= 2 ^ 52 -> 2 * Fabs_sum l < 2 ^ 2096 ->
  approx (Z.of_nat (length l)) (np.sum_block l) (Fsum l) (Fabs_sum l).
Proof.
  intros H8 Hf Hn Hb. unfold np.sum_block.
  destruct (np.add_groups (length l) (firstn 8 l) (skipn 8 l)) as [r' rest] eqn:Hg.
  destruct (Forall_finite_split l 8 Hf) as [Hf1 Hf2].
  assert (Hl1 : length (firstn 8 l) = 8%nat) by (rewrite length_firstn; lia).
  assert (Hl2 : length (skipn 8 l) = (length l - 8)%nat) by apply length_skipn.
  set (ws0 := map (fun x => (Fval x, Z.abs (Fval x))) (firstn 8 l)).
  assert (H0 : Forall2 (fun x w => approx 0 x (fst w) (snd w)) (firstn 8 l) ws0).
  { unfold ws0. clear -Hf1. induction Hf1; simpl; constructor; [|assumption].
    simpl. now apply approx_leaf. }
  assert (HS0 : Zsum (map fst ws0) = Fsum (firstn 8 l)).
  { apply Zsum_leaves. }
  assert (HA0 : Zsum (map snd ws0) = Fabs_sum (firstn 8 l)).
  { apply Zsum_leaves. }
  destruct (add_groups_approx _ 0 _ _ ws0 r' rest Hg Hl1 H0 Hf2)
    as (c & ws & HF & Hr' & Hc & Hcnt & HS & HA & Hfr); try lia.
  { rewrite HA0, <- Fabs_sum_split. lia. }
  rewrite HS0, <- Fsum_split in HS. rewrite HA0, <- Fabs_sum_split in HA.
  destruct r' as [|r0 [|r1 [|r2 [|r3 [|r4 [|r5 [|r6 [|r7 [|]]]]]]]]];
    try discriminate.
  repeat match goal with
         | H : Forall2 _ (_ :: _) _ |- _ => inversion H; clear H; subst
         | H : Forall2 _ [] _ |- _ => inversion H; clear H; subst
         end.
  cbn [nth].
  repeat match goal with
         | w : (Z * Z)%type |- _ => destruct w as [? ?]
         end.
  cbn [fst snd map] in *. unfold Zsum in HS, HA. cbn [fold_right] in HS, HA.
  pose proof (Fabs_sum_nonneg rest) as Hrest0.
  repeat match goal with
         | H : approx _ _ _ ?a |- _ =>
             match goal with
             | _ : 0 <= a |- _ => fail 1
             | _ => assert (0 <= a) by (destruct H as (_ & ? & _); lia)
             end
         end.
  assert (Hc52 : c + 3 + Z.of_nat (length rest) <= Z.of_nat (length l)) by lia.
  match goal with
  | H0 : approx c r0 _ _, H1 : approx c r1 _ _, H2 : approx c r2 _ _,
    H3 : approx c r3 _ _, H4 : approx c r4 _ _, H5 : approx c r5 _ _,
    H6 : approx c r6 _ _, H7 : approx c r7 _ _ |- _ =>
      pose proof (approx_add c _ _ c _ _ c _ _ H0 H1 ltac:(lia) ltac:(lia)
                    ltac:(lia) ltac:(lia)) as A01;
      pose proof (approx_add c _ _ c _ _ c _ _ H2 H3 ltac:(lia) ltac:(lia)
                    ltac:(lia) ltac:(lia)) as A23;
      pose proof (approx_add c _ _ c _ _ c _ _ H4 H5 ltac:(lia) ltac:(lia)
                    ltac:(lia) ltac:(lia)) as A45;
      pose proof (approx_add c _ _ c _ _ c _ _ H6 H7 ltac:(lia) ltac:(lia)
                    ltac:(lia) ltac:(lia)) as A67
  end.
  pose proof (approx_add (c + 1) _ _ _ _ _ _ _ _ A01 A23 ltac:(lia) ltac:(lia)
                ltac:(lia) ltac:(lia)) as A03.
  pose proof (approx_add (c + 1) _ _ _ _ _ _ _ _ A45 A67 ltac:(lia) ltac:(lia)
                ltac:(lia) ltac:(lia)) as A47.
  pose proof (approx_add (c + 1 + 1) _ _ _ _ _ _ _ _ A03 A47 ltac:(lia) ltac:(lia)
                ltac:(lia) ltac:(lia)) as A07.
  pose proof (fold_left_add_approx rest _ _ _ _ A07 ltac:(lia) Hfr ltac:(lia)
                ltac:(lia)) as Hres.
  apply approx_mono with (c' := Z.of_nat (length l)) in Hres; [|lia].
  match goal with
  | H : approx _ ?x ?s ?a |- approx _ ?x' ?s' ?a' =>
      replace s' with s by lia; replace a' with a by lia; exact H
  end.
Qed.

Lemma pairwise_sum_approx fuel : forall l,
  Forall (fun x => finite x = true) l ->
  Z.of_nat (length l) <= 2 ^ 52 -> 2 * Fabs_sum l < 2 ^ 2096 ->
  approx (Z.of_nat (length l)) (np.pairwise_sum fuel l) (Fsum l) (Fabs_sum l).
Proof.
  induction fuel as [|fuel IH]; intros l Hf Hn Hb; cbn [np.pairwise_sum]; cbv zeta;
    (destruct (length l <? 8)%nat eqn:H8; [now apply sum_small_approx|]);
    apply Nat.ltb_ge in H8;
    (destruct (length l <=? 128)%nat eqn:H128; [now apply sum_block_approx|]).
  - now apply sum_block_approx.
  - apply Nat.leb_gt in H128.
    set (n2 := (length l / 2 - (length l / 2) mod 8)%nat).
    assert (Hn2 : (1 <= n2 < length l)%nat).
    { unfold n2.
      pose proof (Nat.mod_upper_bound (length l / 2) 8 ltac:(lia)).
      pose proof (Nat.div_mod_eq (length l) 2).
      pose proof (Nat.mod_upper_bound (length l) 2 ltac:(lia)). lia. }
    destruct (Forall_finite_split l n2 Hf) as [Hf1 Hf2].
    assert (Hl1 : length (firstn n2 l) = n2) by (rewrite length_firstn; lia).
    assert (Hl2 : length (skipn n2 l) = (length l - n2)%nat) by apply length_skipn.
    pose proof (Fabs_sum_nonneg (firstn n2 l)) as Ha1.
    pose proof (Fabs_sum_nonneg (skipn n2 l)) as Ha2.
    pose proof (Fabs_sum_split l n2) as Hsplit.
    pose proof (IH _ Hf1 ltac:(lia) ltac:(lia)) as A1.
    pose proof (IH _ Hf2 ltac:(lia) ltac:(lia)) as A2.
    pose proof (approx_add (Z.of_nat (length l) - 1) _ _ _ _ _ _ _ _ A1 A2
                  ltac:(lia) ltac:(lia) ltac:(lia) ltac:(lia)) as A.
    replace (Z.of_nat (length l) - 1 + 1) with (Z.of_nat (length l)) in A by lia.
    rewrite (Fsum_split l n2), Hsplit. exact A.
Qed.

Lemma sum_approx l :
  Forall (fun x => finite x = true) l ->
  Z.of_nat (length l) <= 2 ^ 52 -> 2 * Fabs_sum l < 2 ^ 2096 ->
  approx (Z.of_nat (length l) + 1) (np.sum l) (Fsum l) (Fabs_sum l).
Proof.
  intros Hf Hn Hb. unfold np.sum.
  pose proof (pairwise_sum_approx (length l) l Hf Hn Hb) as A.
  pose proof (Fabs_sum_nonneg l).
  exact (approx_add (Z.of_nat (length l)) _ _ _ _ _ _ _ _ approx_zero A
           ltac:(lia) ltac:(lia) ltac:(lia) ltac:(lia)).
Qed.

Lemma Fsum_range l lo hi A :
  Forall (fun x => finite x = true /\ lo <= Fval x <= hi /\ Z.abs (Fval x) <= A) l ->
  Forall (fun x => finite x = true) l
  /\ Z.of_nat (length l) * lo <= Fsum l <= Z.of_nat (length l) * hi
  /\ Fabs_sum l <= Z.of_nat (length l) * A.
Proof.
  induction 1 as [|x l (Hf & Hr & Ha) _ (IHf & IHr & IHa)];
    cbn [Fsum Fabs_sum fold_right length].
  - split; [constructor | simpl; lia].
  - fold (Fsum l). fold (Fabs_sum l). split; [now constructor|].
    rewrite Nat2Z.inj_succ. lia.
Qed.

(** The computed mean of finite numbers lies between their minimum and
    their maximum, up to the rounding of the sum and of the division. *)
Lemma mean_within l lo hi A :
  l <> [] -> Z.of_nat (length l) < 2 ^ 52 ->
  Forall (fun x => finite x = true /\ lo <= Fval x <= hi /\ Z.abs (Fval x) <= A) l ->
  2 * Z.of_nat (length l) * A < 2 ^ 2096 ->
  finite (np.mean l) = true
  /\ 2 ^ 53 * (lo - Fval (np.mean l)) <= 2 * (Z.of_nat (length l) + 2) * A + 2 ^ 52
  /\ 2 ^ 53 * (Fval (np.mean l) - hi) <= 2 * (Z.of_nat (length l) + 2) * A + 2 ^ 52.
Proof.
  intros Hne Hn Hall Hb.
  destruct (Fsum_range l lo hi A Hall) as (Hf & Hr & Ha).
  set (n := Z.of_nat (length l)) in *.
  assert (Hn1 : 1 <= n) by (unfold n; destruct l; [congruence | simpl; lia]).
  pose proof (Fabs_sum_nonneg l) as Ha0. pose proof (Fsum_abs l) as HSa.
  set (a := Fabs_sum l) in *. set (S0 := Fsum l) in *.
  destruct (sum_approx l Hf ltac:(fold n; lia) ltac:(fold a; lia)) as (Ff & _ & He).
  fold n a S0 in He.
  set (vs := Fval (np.sum l)) in *.
  change (2 ^ 53) with (2 * 2 ^ 52) in *. change (2 ^ 52) with 4503599627370496 in *.
  assert (Hna : (n + 1) * a <= 4503599627370496 * a)
    by (apply Z.mul_le_mono_nonneg_r; lia).
  assert (Hvs : Z.abs vs <= 2 * a) by lia.
  destruct (float_of_nat_exact (length l)) as (m & e & Hx & Hd & Hexp & Hm).
  { destruct l; [congruence | simpl; lia]. }
  { fold n. change (2 ^ 53) with 9007199254740992. lia. }
  fold n in Hm.
  unfold np.mean, finite, Fval. rewrite FloatAxioms.div_spec, Hx.
  destruct (SFdiv_nat_rel (Prim2SF (np.sum l)) n m e) as [Fm Hdiv];
    try assumption; try lia.
  { apply Prim2SF_valid. }
  { fold (Fval (np.sum l)). fold vs. lia. }
  fold (Fval (np.sum l)) in Hdiv. fold vs in Hdiv.
  change (2 ^ 53) with (2 * 4503599627370496) in Hdiv.
  change (2 ^ 52) with 4503599627370496 in Hdiv.
  set (vR := SFval (SF64div (Prim2SF (np.sum l)) (S754_finite false m e))) in *.
  split; [exact Fm|].
  assert (HnA : a <= n * A) by lia.
  assert (Hn2A : (n + 2) * a <= (n + 2) * (n * A))
    by (apply Z.mul_le_mono_nonneg_l; lia).
  assert (Hcore : 2 * 4503599627370496 * Z.abs (n * vR - S0)
                  <= n * (2 * (n + 2) * A + 4503599627370496)).
  { assert (Z.abs (n * vR - S0) <= Z.abs (n * vR - vs) + Z.abs (vs - S0)) by lia.
    assert (2 * 4503599627370496 * Z.abs (n * vR - S0)
            <= 2 * 4503599627370496 * Z.abs (n * vR - vs)
               + 2 * 4503599627370496 * Z.abs (vs - S0)).
    { rewrite <- Z.mul_add_distr_l. apply Z.mul_le_mono_nonneg_l; lia. }
    replace (n * (2 * (n + 2) * A + 4503599627370496))
      with (2 * ((n + 2) * (n * A)) + n * 4503599627370496) by ring.
    replace (2 * (n + 1) * a) with (2 * ((n + 1) * a)) in He by ring.
    replace ((n + 2) * a) with ((n + 1) * a + a) in Hn2A by ring.
    lia. }
  set (B := 2 * (n + 2) * A + 4503599627370496) in *.
  split.
  - apply Z.mul_le_mono_pos_l with (p := n); [lia|].
    replace (n * (2 * 4503599627370496 * (lo - vR)))
      with (2 * 4503599627370496 * (n * lo - n * vR)) by ring.
    assert (n * lo - n * vR <= Z.abs (n * vR - S0)) by lia.
    assert (2 * 4503599627370496 * (n * lo - n * vR)
            <= 2 * 4503599627370496 * Z.abs (n * vR - S0))
      by (apply Z.mul_le_mono_nonneg_l; lia).
    lia.
  - apply Z.mul_le_mono_pos_l with (p := n); [lia|].
    replace (n * (2 * 4503599627370496 * (vR - hi)))
      with (2 * 4503599627370496 * (n * vR - n * hi)) by ring.
    assert (n * vR - n * hi <= Z.abs (n * vR - S0)) by lia.
    assert (2 * 4503599627370496 * (n * vR - n * hi)
            <= 2 * 4503599627370496 * Z.abs (n * vR - S0))
      by (apply Z.mul_le_mono_nonneg_l; lia).
    lia.
Qed.

(** ** The reducer *)

Lemma slice_from_nonneg {A} (k : Z) (l : list A) :
  0 <= k -> slice_from k l = skipn (Z.to_nat k) l.
Proof.
  intros Hk. unfold slice_from.
  destruct (Z.ltb_spec k 0); [lia | reflexivity].
Qed.

Lemma slice_from_length {A} (k : Z) (l : list A) :
  0 <= k <= Z.of_nat (length l) ->
  Z.of_nat (length (slice_from k l)) = Z.of_nat (length l) - k.
Proof.
  intros Hk. rewrite slice_from_nonneg by lia. rewrite length_skipn. lia.
Qed.

(** The tail window of a 2-d array, once the start is known. *)
Lemma tail_slice_Arr2 ncols rows f c k :
  py_int (float_of_nat (length rows) * f) = Ok k ->
  tail_slice (np.Arr2 ncols rows) f c =
    if (c <? ncols)%nat
    then Ok (map (fun r => nth c r nan) (slice_from k rows))
    else raise "IndexError".
Proof.
  intros Hk. unfold tail_slice. simpl. unfold mbind, result_bind at 1.
  rewrite Hk. reflexivity.
Qed.

Lemma mean_nil : np.mean [] = nan.
Proof. vm_compute. reflexivity. Qed.

(** No exception of the reducer is one of the workflow's own making. *)
Lemma tail_slice_errors data f c e :
  tail_slice data f c = Err e ->
  e = Exn "TypeError" \/ e = Exn "OverflowError" \/ e = Exn "ValueError"
  \/ e = Exn "IndexError".
Proof.
  unfold tail_slice. destruct data as [x | xs | ncols rows]; simpl.
  - intros [= <-]. auto.
  - unfold py_int. destruct (Prim2SF _); simpl; intros [= <-]; auto.
  - unfold py_int. destruct (Prim2SF _); simpl;
      try (intros [= <-]; auto);
      destruct (c <? ncols)%nat; intros [= <-]; auto.
Qed.

Lemma reducer_errors data f c e :
  reducer f c data = Err e ->
  e = Exn "TypeError" \/ e = Exn "OverflowError" \/ e = Exn "ValueError"
  \/ e = Exn "IndexError".
Proof.
  unfold reducer. destruct (tail_slice data f c) as [x | e'] eqn:Ht; simpl.
  - discriminate.
  - intros [= <-]. now apply tail_slice_errors in Ht.
Qed.

Lemma tail_slice_window ncols rows f c k :
  (c < ncols)%nat ->
  py_int (float_of_nat (length rows) * f) = Ok k ->
  0 <= k <= Z.of_nat (length rows) ->
  exists tail,
    tail_slice (np.Arr2 ncols rows) f c = Ok tail
    /\ Z.of_nat (length tail) = Z.of_nat (length rows) - k
    /\ reducer f c (np.Arr2 ncols rows) = Ok (np.mean tail).
Proof.
  intros Hc Hk Hr.
  exists (map (fun r => nth c r nan) (slice_from k rows)).
  assert (Ht : tail_slice (np.Arr2 ncols rows) f c
               = Ok (map (fun r => nth c r nan) (slice_from k rows))).
  { rewrite (tail_slice_Arr2 _ _ _ _ k Hk).
    apply Nat.ltb_lt in Hc. now rewrite Hc. }
  split; [exact Ht|]. split.
  - rewrite length_map. now apply slice_from_length.
  - unfold reducer. rewrite Ht. reflexivity.
Qed.

(** C1 (as amended).  A series without rows never makes the reducer fail
    with [InsufficientDataError]: for a skip fraction in [[0, 1)] the empty
    1-d array that [loadtxt] returns for a file without rows fails with
    [IndexError] at the column index, a 2-d array without rows gives [nan]
    (or [IndexError] when it lacks the column), and no input at all makes
    the reducer raise [InsufficientDataError]. *)
Theorem reducer_zero_rows f c ncols :
  (0 <=? f)%float = true -> (f <? 1)%float = true ->
  reducer f c (np.Arr1 []) = Err (Exn "IndexError")
  /\ reducer f c (np.Arr2 ncols []) =
       (if (c <? ncols)%nat then Ok nan else Err (Exn "IndexError"))
  /\ forall data, reducer f c data <> Err (Exn "InsufficientDataError").
Proof.
  intros H0 H1.
  destruct (tail_start_le 0 f ltac:(reflexivity) H0 H1) as (k & Hk & Hr).
  assert (k = 0) as -> by (simpl in Hr; lia).
  split; [|split].
  - unfold reducer, tail_slice. simpl. unfold mbind, result_bind.
    change (length (@nil float)) with 0%nat. rewrite Hk. reflexivity.
  - unfold reducer. rewrite (tail_slice_Arr2 ncols [] f c 0 Hk).
    destruct (c <? ncols)%nat; [|reflexivity].
    simpl. unfold mbind, result_bind. now rewrite mean_nil.
  - intros data He. apply reducer_errors in He.
    destruct He as [He | [He | [He | He]]]; discriminate.
Qed.

Lemma reducer_zero_rows_witness :
  reducer 0.6 1 (np.Arr1 []) = Err (Exn "IndexError")
  /\ reducer 0.6 1 (np.Arr2 3 []) =
       (if (1 <? 3)%nat then Ok nan else Err (Exn "IndexError"))
  /\ forall data, reducer 0.6 1 data <> Err (Exn "InsufficientDataError").
Proof. apply (reducer_zero_rows 0.6 1 3); reflexivity. Defined.

(** C1, the claim as stated, fails: on zero rows the reducer returns [nan]
    (2-d input) or raises [IndexError] (the array [loadtxt] makes of a file
    without rows). *)
Lemma reducer_zero_rows_counterexample :
  np.len (np.Arr2 3 []) = Ok 0%nat
  /\ reducer 0.6 1 (np.Arr2 3 []) = Ok nan
  /\ np.loadtxt {["shear_5nN-S2.txt" := []]} "shear_5nN-S2.txt" 0 = Ok (np.Arr1 [])
  /\ np.len (np.Arr1 []) = Ok 0%nat
  /\ reducer 0.6 1 (np.Arr1 []) = Err (Exn "IndexError").
Proof. vm_compute. repeat split. Qed.

(** C3 (as amended).  For a 2-d series of [len] rows (fewer than 2^53) and
    a skip fraction [f] in [[0, 1)], the tail window is column [c] of the
    last [len - int(len*f)] rows, where [0 <= int(len*f) <= len] and the
    product is the binary64 one, and the reducer returns [np.mean] of that
    window.  The mean is the binary64 sum divided by the count, so it lies
    between the minimum and the maximum of the window up to rounding: for
    a window of [n] finite numbers (fewer than 2^52) that lie in
    [[lo, hi]], are at most [A] in magnitude and cannot overflow
    ([n * A] below 2^1021), the mean is finite and lies in
    [[lo - d, hi + d]] with [d = (n + 2) * 2^-52 * A + 2^-1075].  Values
    are counted in units of 2^-1074. *)
Theorem tail_window_size ncols rows f c :
  Z.of_nat (length rows) < 2 ^ 53 -> (c < ncols)%nat ->
  (0 <=? f)%float = true -> (f <? 1)%float = true ->
  exists k tail,
    py_int (float_of_nat (length rows) * f) = Ok k
    /\ 0 <= k <= Z.of_nat (length rows)
    /\ tail_slice (np.Arr2 ncols rows) f c = Ok tail
    /\ tail = map (fun r => nth c r nan) (skipn (Z.to_nat k) rows)
    /\ Z.of_nat (length tail) = Z.of_nat (length rows) - k
    /\ reducer f c (np.Arr2 ncols rows) = Ok (np.mean tail)
    /\ forall lo hi A,
         tail <> [] -> Z.of_nat (length tail) < 2 ^ 52 ->
         Forall (fun x => finite x = true /\ lo <= Fval x <= hi
                          /\ Z.abs (Fval x) <= A) tail ->
         2 * Z.of_nat (length tail) * A < 2 ^ 2096 ->
         finite (np.mean tail) = true
         /\ 2 ^ 53 * (lo - Fval (np.mean tail))
            <= 2 * (Z.of_nat (length tail) + 2) * A + 2 ^ 52
         /\ 2 ^ 53 * (Fval (np.mean tail) - hi)
            <= 2 * (Z.of_nat (length tail) + 2) * A + 2 ^ 52.
Proof.
  intros Hlen Hc H0 H1.
  destruct (tail_start_le (length rows) f Hlen H0 H1) as (k & Hk & Hr).
  destruct (tail_slice_window ncols rows f c k Hc Hk Hr) as (tail & Ht & Hl & Hm).
  exists k, tail.
  assert (Htail : tail = map (fun r => nth c r nan) (skipn (Z.to_nat k) rows)).
  { rewrite (tail_slice_Arr2 _ _ _ _ k Hk) in Ht.
    apply Nat.ltb_lt in Hc. rewrite Hc in Ht.
    rewrite slice_from_nonneg in Ht by lia. now injection Ht as <-. }
  repeat (split; [assumption|]).
  intros lo hi A. apply mean_within.
Qed.

Lemma tail_window_size_witness :
  exists k tail,
    py_int (float_of_nat (length (repeat [0; 0.1; 0.2]%float 7)) * 0.6) = Ok k
    /\ 0 <= k <= Z.of_nat (length (repeat [0; 0.1; 0.2]%float 7))
    /\ tail_slice (np.Arr2 3 (repeat [0; 0.1; 0.2]%float 7)) 0.6 1 = Ok tail
    /\ tail = map (fun r => nth 1 r nan)
                (skipn (Z.to_nat k) (repeat [0; 0.1; 0.2]%float 7))
    /\ Z.of_nat (length tail) = Z.of_nat (length (repeat [0; 0.1; 0.2]%float 7)) - k
    /\ reducer 0.6 1 (np.Arr2 3 (repeat [0; 0.1; 0.2]%float 7)) = Ok (np.mean tail)
    /\ finite (np.mean tail) = true
    /\ 2 ^ 53 * (Fval 0.1 - Fval (np.mean tail))
       <= 2 * (Z.of_nat (length tail) + 2) * Fval 0.1 + 2 ^ 52
    /\ 2 ^ 53 * (Fval (np.mean tail) - Fval 0.1)
       <= 2 * (Z.of_nat (length tail) + 2) * Fval 0.1 + 2 ^ 52.
Proof.
  destruct (tail_window_size 3 (repeat [0; 0.1; 0.2]%float 7) 0.6 1)
    as (k & tail & Hk & Hr & Ht & Htail & Hl & Hm & Hrange);
    [reflexivity | simpl; lia | reflexivity | reflexivity |].
  exists k, tail. repeat (split; [assumption|]).
  assert (Hw : tail = [0.1; 0.1; 0.1]%float).
  { vm_compute in Ht. now injection Ht as <-. }
  apply (Hrange (Fval 0.1) (Fval 0.1) (Fval 0.1)).
  - rewrite Hw. discriminate.
  - rewrite Hw. reflexivity.
  - rewrite Hw. repeat constructor; vm_compute; discriminate.
  - rewrite Hw. reflexivity.
Defined.

(** C3, the claim as stated, fails: seven rows whose column 1 is 0.1
    throughout, skip fraction 0.6.  The tail window has 7 - 4 = 3 rows, all
    0.1, and their mean is 0.10000000000000002, above the maximum. *)
Lemma mean_above_max_counterexample :
  (5 <= length (repeat [0; 0.1; 0.2]%float 7))%nat
  /\ py_int (float_of_nat 7 * 0.6) = Ok 4
  /\ tail_slice (np.Arr2 3 (repeat [0; 0.1; 0.2]%float 7)) 0.6 1
     = Ok [0.1; 0.1; 0.1]%float
  /\ reducer 0.6 1 (np.Arr2 3 (repeat [0; 0.1; 0.2]%float 7))
     = Ok 0.10000000000000002%float
  /\ (0.1 <? 0.10000000000000002)%float = true.
Proof. vm_compute. repeat split. lia. Qed.

(** Without room for the sum the mean leaves every range: the mean of
    twice 1e308 is infinite. *)
Example mean_overflows :
  np.mean [1e308; 1e308]%float = infinity
  /\ finite (np.mean [1e308; 1e308]%float) = false.
Proof. split; reflexivity. Qed.

(** C10.  For a 2-d series with at least one row (and fewer than 2^53) the
    tail windows taken with the skip fractions 0.6 and 0.5 are never empty:
    [int(len*f) < len], so the mean is over at least one element.  An empty
    window can only come from a series without rows. *)
Theorem tail_window_nonempty ncols rows c f :
  Z.of_nat (length rows) < 2 ^ 53 -> (c < ncols)%nat ->
  f = 0.6%float \/ f = 0.5%float ->
  exists k tail,
    py_int (float_of_nat (length rows) * f) = Ok k
    /\ tail_slice (np.Arr2 ncols rows) f c = Ok tail
    /\ reducer f c (np.Arr2 ncols rows) = Ok (np.mean tail)
    /\ (rows <> [] -> k < Z.of_nat (length rows) /\ (1 <= length tail)%nat)
    /\ (tail = [] -> rows = []).
Proof.
  intros Hlen Hc Hf.
  assert (Hk : exists k, py_int (float_of_nat (length rows) * f) = Ok k
                 /\ 0 <= k <= Z.of_nat (length rows)
                 /\ (rows <> [] -> k < Z.of_nat (length rows))).
  { destruct rows as [|r rows'].
    - exists 0. destruct Hf as [-> | ->]; (split; [reflexivity|]); simpl; split; lia || congruence.
    - assert (Hpos : (0 < length (r :: rows'))%nat) by (simpl; lia).
      destruct Hf as [-> | ->];
        [destruct (tail_start_06 _ Hpos Hlen) as (k & Hk & Hr)
        |destruct (tail_start_05 _ Hpos Hlen) as (k & Hk & Hr)];
        exists k; (split; [exact Hk|]); split; lia. }
  destruct Hk as (k & Hk & Hr & Hlt).
  destruct (tail_slice_window ncols rows f c k Hc Hk Hr) as (tail & Ht & Hl & Hm).
  exists k, tail. repeat split; try assumption.
  - now apply Hlt.
  - specialize (Hlt H). lia.
  - intros ->. simpl in Hl. destruct rows; [reflexivity|].
    assert (k < Z.of_nat (length (l :: rows))) by (apply Hlt; discriminate). lia.
Qed.

Lemma tail_window_nonempty_witness :
  exists k tail,
    py_int (float_of_nat (length (repeat [0; 0.1; 0.2]%float 7)) * 0.5) = Ok k
    /\ tail_slice (np.Arr2 3 (repeat [0; 0.1; 0.2]%float 7)) 0.5 2 = Ok tail
    /\ reducer 0.5 2 (np.Arr2 3 (repeat [0; 0.1; 0.2]%float 7)) = Ok (np.mean tail)
    /\ (repeat [0; 0.1; 0.2]%float 7 <> [] ->
        k < Z.of_nat (length (repeat [0; 0.1; 0.2]%float 7)) /\ (1 <= length tail)%nat)
    /\ (tail = [] -> repeat [0; 0.1; 0.2]%float 7 = []).
Proof.
  apply (tail_window_nonempty 3 (repeat [0; 0.1; 0.2]%float 7) 2 0.5);
    [reflexivity | simpl; lia | right; reflexivity].
Defined.

(** ** Stages and the job document *)

Lemma stage_bind_unfold {A B} (m : stage A) (k : A -> stage B) j :
  (m ≫= k) j = match m j with
               | (Ok a, j') => k a j'
               | (Err e, j') => (Err e, j')
               end.
Proof. reflexivity. Qed.

Lemma dp_ret {A} (a : A) : doc_preserving (mret a : stage A).
Proof. intros j. reflexivity. Qed.

Lemma dp_lift {A} (r : result A) : doc_preserving (lift r).
Proof. intros j. reflexivity. Qed.

Lemma dp_get_sp : doc_preserving get_sp.
Proof. intros j. reflexivity. Qed.

Lemma dp_loadtxt fname skiprows : doc_preserving (loadtxt fname skiprows).
Proof. intros j. reflexivity. Qed.

Lemma dp_run_tool tool out_file : doc_preserving (run_tool tool out_file).
Proof. intros j. unfold run_tool. now destruct (tool (workspace j)). Qed.

Lemma dp_bind {A B} (m : stage A) (k : A -> stage B) :
  doc_preserving m -> (forall a, doc_preserving (k a)) ->
  doc_preserving (m ≫= k).
Proof.
  intros Hm Hk j. rewrite stage_bind_unfold. specialize (Hm j).
  destruct (m j) as [[a | e] j1]; simpl in *.
  - now rewrite Hk.
  - exact Hm.
Qed.

Lemma dp_for_in {A S} (l : list A) (body : A -> S -> stage S) :
  (forall x s, doc_preserving (body x s)) ->
  forall s, doc_preserving (for_in l body s).
Proof.
  intros Hb. induction l as [|x l IH]; intros s; simpl.
  - apply dp_ret.
  - apply dp_bind; [apply Hb | exact IH].
Qed.

Lemma dp_calc_S2 lib name n_chains : doc_preserving (_calc_S2 lib name n_chains).
Proof. apply dp_run_tool. Qed.

Lemma dp_calc_tilt lib name n_chains : doc_preserving (_calc_tilt lib name n_chains).
Proof. apply dp_run_tool. Qed.

Lemma dp_calc_interdigitation lib name :
  doc_preserving (_calc_interdigitation lib name).
Proof. apply dp_run_tool. Qed.

Create HintDb stage.
#[local] Hint Resolve dp_ret dp_lift dp_get_sp dp_loadtxt dp_run_tool
  dp_calc_S2 dp_calc_tilt dp_calc_interdigitation : stage.

Ltac dp_solve :=
  repeat first
    [ apply dp_for_in; intros
    | apply dp_bind; [|intros]
    | match goal with |- doc_preserving (let '(_, _) := ?p in _) => destruct p end
    | solve [auto with stage] ].

Lemma all_or_nothing_bind {A} keys (m : stage A) (k : A -> stage unit) :
  doc_preserving m -> (forall a, all_or_nothing keys (k a)) ->
  all_or_nothing keys (m ≫= k).
Proof.
  intros Hm Hk j r j'. rewrite stage_bind_unfold. specialize (Hm j).
  destruct (m j) as [[a | e] j1]; simpl in Hm.
  - intros Hr. specialize (Hk a j1 r j' Hr). now rewrite Hm in Hk.
  - intros [= <- <-]. exact Hm.
Qed.

Lemma all_or_nothing_assign1 k1 v1 :
  all_or_nothing [k1] (set_document k1 v1).
Proof. intros j r j' [= <- <-]. now exists [v1]. Qed.

Lemma all_or_nothing_assign2 k1 v1 k2 v2 :
  all_or_nothing [k1; k2] (set_document k1 v1;; set_document k2 v2).
Proof. intros j r j' [= <- <-]. now exists [v1; v2]. Qed.

Lemma all_or_nothing_assign3 k1 v1 k2 v2 k3 v3 :
  all_or_nothing [k1; k2; k3]
    (set_document k1 v1;; set_document k2 v2;; set_document k3 v3).
Proof. intros j r j' [= <- <-]. now exists [v1; v2; v3]. Qed.

Ltac aon_solve :=
  repeat first
    [ apply all_or_nothing_assign1
    | apply all_or_nothing_assign2
    | apply all_or_nothing_assign3
    | apply all_or_nothing_bind; [dp_solve | intros]
    | match goal with |- all_or_nothing _ (let '(_, _) := ?p in _) => destruct p end ].

(** C9.  Every post-processing stage writes its document fields all or
    nothing: when the stage fails, whether in an analysis, a file read or a
    reduction, the job document is exactly what it was before, and when it
    succeeds every field of the stage has been assigned.  (Assignments to
    the document themselves do not fail.) *)
Theorem stages_all_or_nothing lib name :
  all_or_nothing ["S2_bottom"; "S2_top"] (calc_S2_shear lib)
  /\ all_or_nothing ["tilt_bottom"; "tilt_top"] (calc_tilt_shear lib)
  /\ all_or_nothing ["COF"; "intercept"] (log_cof lib)
  /\ all_or_nothing ["interdigitation"] (calc_interdigitation lib)
  /\ all_or_nothing [name ++ "-qq"; name ++ "-lj"; name ++ "-Etotal"]
       (_log_interaction_energy name).
Proof.
  repeat split.
  - unfold calc_S2_shear. aon_solve.
  - unfold calc_tilt_shear. aon_solve.
  - unfold log_cof, log_cof_loads, mean_friction_forces. aon_solve.
  - unfold calc_interdigitation. aon_solve.
  - unfold _log_interaction_energy. aon_solve.
Qed.

(** ** The friction-to-COF regression *)

Lemma ro_bind {A B} (m : stage A) (k : A -> stage B) :
  read_only m -> (forall a, read_only (k a)) -> read_only (m ≫= k).
Proof.
  intros Hm Hk j. rewrite stage_bind_unfold. specialize (Hm j).
  destruct (m j) as [[a | e] j1]; simpl in *; subst j1.
  - apply Hk.
  - reflexivity.
Qed.

Lemma ro_for_in {A S} (l : list A) (body : A -> S -> stage S) :
  (forall x s, read_only (body x s)) -> forall s, read_only (for_in l body s).
Proof.
  intros Hb. induction l as [|x l IH]; intros s; simpl.
  - intros j. reflexivity.
  - apply ro_bind; [apply Hb | exact IH].
Qed.

Lemma ro_mean_friction_forces loads : read_only (mean_friction_forces loads).
Proof.
  apply ro_for_in. intros x s.
  apply ro_bind; [intros j; reflexivity | intros a].
  apply ro_bind; [intros j; reflexivity | intros b]. intros j. reflexivity.
Qed.


Lemma linregress_errors b x y e :
  stats.linregress b x y = Err e -> e = Exn "ValueError".
Proof.
  unfold stats.linregress.
  repeat match goal with |- context [if ?c then _ else _] => destruct c end;
    intros [= <-]; reflexivity.
Qed.




(** What [log_cof] does, step by step. *)
Lemma log_cof_loads_run lib loads j :
  log_cof_loads lib loads j =
    match fst (mean_friction_forces loads j) with
    | Ok forces =>
        match stats.linregress (linregress_rejects_identical_x lib) loads forces with
        | Ok (cof, intercept) =>
            (Ok tt, {| sp := sp j; workspace := workspace j;
                       document := <["intercept" := VFloat intercept]>
                                     (<["COF" := VFloat cof]> (document j)) |})
        | Err e => (Err e, j)
        end
    | Err e => (Err e, j)
    end.
Proof.
  unfold log_cof_loads. rewrite stage_bind_unfold.
  pose proof (ro_mean_friction_forces loads j) as Hro.
  destruct (mean_friction_forces loads j) as [[forces | e] j1]; simpl in *; subst j1;
    [|reflexivity].
  rewrite stage_bind_unfold. unfold lift at 1.
  destruct (stats.linregress _ loads forces) as [[cof intercept] | e]; reflexivity.
Qed.

(** With the fixed loads and three forces the regression always succeeds. *)
Lemma linregress_fixed_loads b forces :
  length forces = 3%nat ->
  exists cof intercept, stats.linregress b [5; 15; 25]%nat forces = Ok (cof, intercept).
Proof.
  intros Hl. destruct forces as [|y1 [|y2 [|y3 [|]]]]; try discriminate.
  unfold stats.linregress.
  change (stats.all_identical [5; 15; 25]%nat) with false.
  rewrite andb_false_r. simpl. eauto.
Qed.



(** C4.  With the loads 5, 15, 25 and the per-load mean friction forces
    1.0, 2.0, 3.0 the least-squares fit gives the slope 0.1 and the
    intercept 0.5 exactly (as binary64 numbers), and these are what
    [log_cof] stores. *)
Theorem log_cof_noiseless lib j :
  fst (mean_friction_forces [5; 15; 25]%nat j) = Ok [1; 2; 3]%float ->
  stats.linregress (linregress_rejects_identical_x lib) [5; 15; 25]%nat
    [1; 2; 3]%float = Ok (0.1, 0.5)%float
  /\ log_cof lib j =
       (Ok tt, {| sp := sp j; workspace := workspace j;
                  document := <["intercept" := VFloat 0.5]>
                                (<["COF" := VFloat 0.1]> (document j)) |}).
Proof.
  intros Hm.
  assert (Hfit : stats.linregress (linregress_rejects_identical_x lib)
                   [5; 15; 25]%nat [1; 2; 3]%float = Ok (0.1, 0.5)%float).
  { destruct (linregress_rejects_identical_x lib); vm_compute; reflexivity. }
  split; [exact Hfit|].
  unfold log_cof. rewrite log_cof_loads_run, Hm, Hfit. reflexivity.
Qed.

Lemma log_cof_noiseless_witness :
  stats.linregress (linregress_rejects_identical_x (copy_tools false))
    [5; 15; 25]%nat [1; 2; 3]%float = Ok (0.1, 0.5)%float
  /\ log_cof (copy_tools false) sample_job =
       (Ok tt, {| sp := sp sample_job; workspace := workspace sample_job;
                  document := <["intercept" := VFloat 0.5]>
                                (<["COF" := VFloat 0.1]> (document sample_job)) |}).
Proof. apply (log_cof_noiseless (copy_tools false) sample_job). vm_compute. reflexivity. Defined.

(** C5.  After [log_cof] has run, the document holds under [COF] and
    [intercept] exactly the slope and the intercept that the [linregress]
    call on the per-load friction means returned. *)
Theorem log_cof_stores_regression lib j j' :
  log_cof lib j = (Ok tt, j') ->
  exists forces cof intercept,
    fst (mean_friction_forces [5; 15; 25]%nat j) = Ok forces
    /\ stats.linregress (linregress_rejects_identical_x lib) [5; 15; 25]%nat forces
       = Ok (cof, intercept)
    /\ document j' !! "COF" = Some (VFloat cof)
    /\ document j' !! "intercept" = Some (VFloat intercept).
Proof.
  unfold log_cof. rewrite log_cof_loads_run.
  destruct (fst (mean_friction_forces [5; 15; 25]%nat j)) as [forces | e];
    [|discriminate].
  destruct (stats.linregress _ _ forces) as [[cof intercept] | e] eqn:Hfit;
    [|discriminate].
  intros [= <-]. exists forces, cof, intercept. cbn [document].
  split; [reflexivity|]. split; [exact Hfit|]. split.
  - rewrite lookup_insert_ne by discriminate. apply lookup_insert_eq.
  - apply lookup_insert_eq.
Qed.

Lemma log_cof_stores_regression_witness :
  exists forces cof intercept,
    fst (mean_friction_forces [5; 15; 25]%nat sample_job) = Ok forces
    /\ stats.linregress (linregress_rejects_identical_x (copy_tools true))
         [5; 15; 25]%nat forces = Ok (cof, intercept)
    /\ document (snd (log_cof (copy_tools true) sample_job)) !! "COF"
       = Some (VFloat cof)
    /\ document (snd (log_cof (copy_tools true) sample_job)) !! "intercept"
       = Some (VFloat intercept).
Proof.
  apply (log_cof_stores_regression (copy_tools true) sample_job).
  vm_compute. reflexivity.
Defined.

(** ** The cross-job correlation *)

Lemma append_job_spec acc j acc' :
  plotting.append_job acc j = Ok acc' ->
  exists hi lo y,
    plotting.interdigitation_at j "25nN" = Ok hi
    /\ plotting.interdigitation_at j "5nN" = Ok lo
    /\ plotting.cof_of j = Ok y
    /\ plotting.all_x acc' = (plotting.all_x acc ++ [(hi - lo)%float])%list
    /\ plotting.all_y acc' = (plotting.all_y acc ++ [y])%list
    /\ plotting.all_terminal_groups acc'
       = (plotting.all_terminal_groups acc ++ [terminal_groups (sp j)])%list.
Proof.
  unfold plotting.append_job.
  destruct (plotting.interdigitation_at j "25nN") as [hi | e]; [|discriminate].
  destruct (plotting.interdigitation_at j "5nN") as [lo | e]; [|discriminate].
  destruct (plotting.cof_of j) as [y | e]; [|discriminate].
  simpl. intros [= <-]. exists hi, lo, y. simpl. repeat split.
Qed.

Lemma collect_spec project : forall acc s,
  plotting.collect project acc = Ok s ->
  exists xs ys,
    plotting.all_x s = (plotting.all_x acc ++ xs)%list
    /\ plotting.all_y s = (plotting.all_y acc ++ ys)%list
    /\ length xs = length project /\ length ys = length project
    /\ forall (i : nat) j, project !! i = Some j ->
         exists hi lo y,
           plotting.interdigitation_at j "25nN" = Ok hi
           /\ plotting.interdigitation_at j "5nN" = Ok lo
           /\ plotting.cof_of j = Ok y
           /\ xs !! i = Some (hi - lo)%float
           /\ ys !! i = Some y.
Proof.
  induction project as [|j0 rest IH]; intros acc s; simpl.
  - intros [= <-]. exists [], []. rewrite !app_nil_r.
    repeat split. intros i j Hi. discriminate.
  - destruct (plotting.append_job acc j0) as [acc' | e] eqn:Ha; [|discriminate].
    simpl. intros Hc.
    destruct (append_job_spec _ _ _ Ha) as (hi & lo & y & Hhi & Hlo & Hy & Hx & Hy' & _).
    destruct (IH acc' s Hc) as (xs & ys & Ex & Ey & Lx & Ly & Hall).
    exists ((hi - lo)%float :: xs), (y :: ys).
    rewrite Ex, Ey, Hx, Hy', <- !app_assoc. simpl.
    repeat split; try lia.
    intros [|i] j Hi; simpl in Hi.
    + injection Hi as <-. exists hi, lo, y. repeat split; assumption.
    + apply Hall. exact Hi.
Qed.

(** C6.  In the cross-job correlation, sample [i] is built from job [i] of
    the project: its x is the job's stored interdigitation at 25nN, the
    highest load, minus the one at 5nN, the lowest load, and its y is the
    job's stored COF. *)
Theorem collect_samples project s :
  plotting.collect project
    {| plotting.all_x := []; plotting.all_y := [];
       plotting.all_terminal_groups := [] |} = Ok s ->
  length (plotting.all_x s) = length project
  /\ length (plotting.all_y s) = length project
  /\ forall (i : nat) j, project !! i = Some j ->
       exists hi lo y,
         plotting.interdigitation_at j "25nN" = Ok hi
         /\ plotting.interdigitation_at j "5nN" = Ok lo
         /\ plotting.cof_of j = Ok y
         /\ plotting.all_x s !! i = Some (hi - lo)%float
         /\ plotting.all_y s !! i = Some y.
Proof.
  intros Hc. destruct (collect_spec _ _ _ Hc) as (xs & ys & Ex & Ey & Lx & Ly & Hall).
  simpl in Ex, Ey. rewrite Ex, Ey. auto.
Qed.

Lemma collect_samples_witness :
  length [0.5; -0.25]%float = length sample_project
  /\ length [0.125; 0.5]%float = length sample_project
  /\ forall (i : nat) j, sample_project !! i = Some j ->
       exists hi lo y,
         plotting.interdigitation_at j "25nN" = Ok hi
         /\ plotting.interdigitation_at j "5nN" = Ok lo
         /\ plotting.cof_of j = Ok y
         /\ [0.5; -0.25]%float !! i = Some (hi - lo)%float
         /\ [0.125; 0.5]%float !! i = Some y.
Proof.
  apply (collect_samples sample_project
           {| plotting.all_x := [0.5; -0.25]%float;
              plotting.all_y := [0.125; 0.5]%float;
              plotting.all_terminal_groups :=
                [("methyl", "methyl"); ("hydroxyl", "carboxyl")] |}).
  vm_compute. reflexivity.
Defined.

(** C7.  The classification of the robust regression is a strict binary
    partition: the two masks have one entry per classified point, and a
    point is flagged as an inlier exactly when it is not flagged as an
    outlier. *)
Theorem inlier_xor_outlier ransac_fit project c :
  plotting.classify ransac_fit project = Ok c ->
  length (plotting.outlier_mask c) = length (plotting.inlier_mask c)
  /\ forall i : nat,
       (plotting.inlier_mask c !! i = Some true
        <-> plotting.outlier_mask c !! i = Some false)
       /\ (plotting.inlier_mask c !! i = Some false
           <-> plotting.outlier_mask c !! i = Some true).
Proof.
  unfold plotting.classify.
  destruct (plotting.collect _ _) as [s | e]; [|discriminate]. simpl.
  destruct (ransac_fit _ _) as [mask | e]; [|discriminate]. simpl.
  destruct (plotting.select_outliers _ _ _) as [out | e]; [|discriminate]. simpl.
  intros [= <-]. simpl. unfold np.logical_not.
  split; [apply length_map|].
  intros i. change (map negb mask) with (negb <$> mask).
  rewrite list_lookup_fmap.
  destruct (mask !! i) as [[|]|]; simpl; split; split; congruence.
Qed.

Lemma inlier_xor_outlier_witness :
  length (np.logical_not [true; false]) = length [true; false]
  /\ forall i : nat,
       ([true; false] !! i = Some true
        <-> np.logical_not [true; false] !! i = Some false)
       /\ ([true; false] !! i = Some false
           <-> np.logical_not [true; false] !! i = Some true).
Proof.
  apply (inlier_xor_outlier (fun _ _ => Ok [true; false]) sample_project
           {| plotting.data :=
                {| plotting.all_x := [0.5; -0.25]%float;
                   plotting.all_y := [0.125; 0.5]%float;
                   plotting.all_terminal_groups :=
                     [("methyl", "methyl"); ("hydroxyl", "carboxyl")] |};
              plotting.inlier_mask := [true; false];
              plotting.outlier_mask := np.logical_not [true; false];
              plotting.outliers := [("hydroxyl", "carboxyl")] |}).
  vm_compute. reflexivity.
Defined.

(** ** Re-running the per-load aggregators *)

Lemma loadtxt_lookup files files' fname skiprows :
  files !! fname = files' !! fname ->
  np.loadtxt files fname skiprows = np.loadtxt files' fname skiprows.
Proof. unfold np.loadtxt. now intros ->. Qed.

Lemma names_5 : shear_name 5 = "shear_5nN" /\ load_key 5 = "5nN".
Proof. vm_compute. auto. Qed.

Lemma names_15 : shear_name 15 = "shear_15nN" /\ load_key 15 = "15nN".
Proof. vm_compute. auto. Qed.

Lemma names_25 : shear_name 25 = "shear_25nN" /\ load_key 25 = "25nN".
Proof. vm_compute. auto. Qed.

Ltac name_loads :=
  rewrite ?(proj1 names_5), ?(proj2 names_5), ?(proj1 names_15), ?(proj2 names_15),
    ?(proj1 names_25), ?(proj2 names_25) in *;
  cbn [String.append] in *.

Lemma bind_ok {A B} (m : stage A) (k : A -> stage B) j b j' :
  (m ≫= k) j = (Ok b, j') ->
  exists a j1, m j = (Ok a, j1) /\ k a j1 = (Ok b, j').
Proof.
  rewrite stage_bind_unfold. destruct (m j) as [[a | e] j1]; [|discriminate].
  intros H. now exists a, j1.
Qed.

Lemma bind_step {A B} (m : stage A) (k : A -> stage B) j a j1 r :
  m j = (Ok a, j1) -> k a j1 = r -> (m ≫= k) j = r.
Proof. intros Hm Hk. rewrite stage_bind_unfold, Hm. exact Hk. Qed.

Lemma run_tool_ok tool out_file j u j1 :
  run_tool tool out_file j = (Ok u, j1) ->
  exists text, tool (workspace j) = Ok text
    /\ j1 = {| sp := sp j; workspace := <[out_file := text]> (workspace j);
               document := document j |}.
Proof.
  unfold run_tool. destruct (tool (workspace j)) as [text | e]; [|discriminate].
  intros [= _ <-]. now exists text.
Qed.

(** An analysis whose output is already in place changes nothing. *)
Lemma run_tool_rerun tool out_file j text :
  tool (workspace j) = Ok text -> workspace j !! out_file = Some text ->
  run_tool tool out_file j = (Ok tt, j).
Proof.
  intros Ht Hw. unfold run_tool. rewrite Ht, (insert_id _ _ _ Hw).
  now destruct j.
Qed.

Lemma loadtxt_ok fname skiprows j a j1 :
  loadtxt fname skiprows j = (Ok a, j1) ->
  np.loadtxt (workspace j) fname skiprows = Ok a /\ j1 = j.
Proof. unfold loadtxt. now intros [= -> <-]. Qed.

Lemma lift_ok {A} (r : result A) j a j1 :
  lift r j = (Ok a, j1) -> r = Ok a /\ j1 = j.
Proof. unfold lift. now intros [= -> <-]. Qed.

Lemma set_document_ok key v j u j1 :
  set_document key v j = (Ok u, j1) ->
  j1 = {| sp := sp j; workspace := workspace j;
          document := <[key := v]> (document j) |}.
Proof. unfold set_document. now intros [= _ <-]. Qed.

Lemma get_sp_ok j s j1 : get_sp j = (Ok s, j1) -> s = sp j /\ j1 = j.
Proof. unfold get_sp. now intros [= <- <-]. Qed.

Lemma mret_ok {A} (a : A) j b j1 :
  (mret a : stage A) j = (Ok b, j1) -> b = a /\ j1 = j.
Proof. now intros [= <- <-]. Qed.

Ltac inv_ok :=
  repeat match goal with
    | H : (_ ≫= _) _ = (Ok _, _) |- _ =>
        apply bind_ok in H; destruct H as (? & ? & ? & ?)
    | H : run_tool _ _ _ = (Ok _, _) |- _ =>
        apply run_tool_ok in H; destruct H as (? & ? & ->)
    | H : loadtxt _ _ _ = (Ok _, _) |- _ =>
        apply loadtxt_ok in H; destruct H as [? ->]
    | H : lift _ _ = (Ok _, _) |- _ =>
        apply lift_ok in H; destruct H as [? ->]
    | H : get_sp _ = (Ok _, _) |- _ =>
        apply get_sp_ok in H; destruct H as [-> ->]
    | H : mret _ _ = (Ok _, _) |- _ =>
        apply mret_ok in H; destruct H as [-> ->]
    | H : set_document _ _ _ = (Ok _, _) |- _ =>
        apply set_document_ok in H; subst
    | H : (let '(_, _) := ?p in _) _ = (Ok _, _) |- _ => destruct p
    end.

Ltac str_ne := let H := fresh in intros H; vm_compute in H; discriminate H.

Ltac strip_inserts := rewrite ?lookup_insert_ne by str_ne.

Lemma insert_twice_2 (d : gmap string value) k1 v1 k2 v2 :
  <[k2 := v2]> (<[k1 := v1]> (<[k2 := v2]> (<[k1 := v1]> d)))
  = <[k2 := v2]> (<[k1 := v1]> d).
Proof.
  apply map_eq. intros i.
  destruct (decide (i = k2)) as [-> | H2].
  - now rewrite !lookup_insert_eq.
  - rewrite !(lookup_insert_ne _ k2) by congruence.
    destruct (decide (i = k1)) as [-> | H1].
    + now rewrite !lookup_insert_eq.
    + now rewrite !lookup_insert_ne by congruence.
Qed.

(** Replay of a run on a workspace that already holds its outputs. *)
Ltac replay Hro :=
  cbn beta;
  lazymatch goal with
  | |- (_ ≫= _) _ = _ => eapply bind_step; [replay Hro | replay Hro]
  | |- (let '(_, _) := ?p in _) _ = _ => cbn iota; replay Hro
  | |- run_tool _ _ _ = _ =>
      eapply run_tool_rerun; cbn beta; cbn [workspace sp];
      [ match goal with
        | |- ?tool _ ?traj ?top ?ndx ?n = Ok _ =>
            erewrite (Hro _ _ traj top ndx);
            [eassumption | strip_inserts; reflexivity ..]
        | |- ?tool _ ?traj ?top ?ndx = Ok _ =>
            erewrite (Hro _ _ traj top ndx);
            [eassumption | strip_inserts; reflexivity ..]
        end
      | strip_inserts; apply lookup_insert_eq ]
  | |- loadtxt _ _ _ = _ =>
      unfold loadtxt; cbn [workspace]; apply (f_equal2 pair); [|reflexivity];
      match goal with
      | H : np.loadtxt _ ?f ?k = Ok _ |- np.loadtxt _ ?f ?k = Ok _ =>
          rewrite <- H; apply loadtxt_lookup; strip_inserts; reflexivity
      end
  | |- lift _ _ = _ =>
      unfold lift; apply (f_equal2 pair); [eassumption | reflexivity]
  | |- get_sp _ = _ => reflexivity
  | |- mret _ _ = _ => reflexivity
  | |- set_document _ _ _ = _ => first [reflexivity | idtac]
  | |- _ => idtac
  end.

(** C8.  Running a per-load aggregator again on the job it has just
    processed, with analyses that depend on nothing but their input files,
    succeeds and leaves the job exactly as the first run left it: the stored
    load-to-statistic mappings are overwritten with the same values, nothing
    accumulates. *)
Theorem aggregators_idempotent lib j :
  reads_only (calc_nematic_order lib) ->
  reads_only (calc_avg_tilt_angle lib) ->
  reads_only (calc_interdigitation_traj lib) ->
  (forall j1, calc_S2_shear lib j = (Ok tt, j1) ->
              calc_S2_shear lib j1 = (Ok tt, j1))
  /\ (forall j1, calc_tilt_shear lib j = (Ok tt, j1) ->
                 calc_tilt_shear lib j1 = (Ok tt, j1))
  /\ (forall j1, calc_interdigitation lib j = (Ok tt, j1) ->
                 calc_interdigitation lib j1 = (Ok tt, j1)).
Proof.
  intros HS2 Htilt Hint. split; [|split]; intros j1 H1.
  - unfold calc_S2_shear in *. cbn [for_in] in *. unfold _calc_S2 in *.
    name_loads. inv_ok. cbn [workspace sp document] in *.
    replay HS2. unfold set_document. cbn [workspace sp document].
    now rewrite insert_twice_2.
  - unfold calc_tilt_shear in *. cbn [for_in] in *. unfold _calc_tilt in *.
    name_loads. inv_ok. cbn [workspace sp document] in *.
    replay Htilt. unfold set_document. cbn [workspace sp document].
    now rewrite insert_twice_2.
  - unfold calc_interdigitation in *. cbn [for_in] in *.
    unfold _calc_interdigitation in *.
    name_loads. inv_ok. cbn [workspace sp document] in *.
    replay Hint. unfold set_document. cbn [workspace sp document].
    now rewrite insert_insert_eq.
Qed.

Lemma aggregators_idempotent_witness :
  fst (calc_S2_shear (copy_tools false) sample_job) = Ok tt
  /\ fst (calc_interdigitation (copy_tools false) sample_job) = Ok tt
  /\ (forall j1, calc_S2_shear (copy_tools false) sample_job = (Ok tt, j1) ->
                 calc_S2_shear (copy_tools false) j1 = (Ok tt, j1))
  /\ (forall j1, calc_tilt_shear (copy_tools false) sample_job = (Ok tt, j1) ->
                 calc_tilt_shear (copy_tools false) j1 = (Ok tt, j1))
  /\ (forall j1, calc_interdigitation (copy_tools false) sample_job = (Ok tt, j1) ->
                 calc_interdigitation (copy_tools false) j1 = (Ok tt, j1)).
Proof.
  split; [vm_compute; reflexivity|]. split; [vm_compute; reflexivity|].
  apply (aggregators_idempotent (copy_tools false) sample_job);
    intros files files' traj top ndx E _ _; simpl; rewrite E; reflexivity.
Defined.

(** ** Further properties of the regression stage *)

Lemma mean_friction_forces_files loads j fs j' :
  mean_friction_forces loads j = (Ok fs, j') ->
  forall load, In load loads ->
    is_Some (workspace j !! ("friction_" ++ load_key load ++ ".txt")).
Proof.
  unfold mean_friction_forces.
  enough (H : forall acc,
             for_in loads
               (fun load friction_forces =>
                  friction_data ← loadtxt ("friction_" ++ load_key load ++ ".txt") 0;
                  friction_data ← lift (tail_slice friction_data 0.6 1);
                  mret (friction_forces ++ [np.mean friction_data])%list) acc j
             = (Ok fs, j') ->
             forall load, In load loads ->
               is_Some (workspace j !! ("friction_" ++ load_key load ++ ".txt")))
    by apply H.
  induction loads as [|x l IH]; intros acc H load Hin; [destruct Hin|].
  cbn [for_in] in H. apply bind_ok in H as (acc' & j1 & Hx & Hrest).
  apply bind_ok in Hx as (data & j2 & Hl & Hx).
  apply loadtxt_ok in Hl as [Hl ->].
  assert (j1 = j) as ->.
  { apply bind_ok in Hx as (? & ? & Hs & Hm).
    apply lift_ok in Hs as [_ ->]. now apply mret_ok in Hm as [_ ->]. }
  destruct Hin as [<- | Hin].
  - unfold np.loadtxt in Hl.
    destruct (workspace j !! _) as [ls|]; [eauto | discriminate].
  - eapply IH; eassumption.
Qed.

(** X1.  [log_cof] succeeds only on a job that holds all three friction
    files; without [friction_5nN.txt] it fails with [OSError]; and whenever
    it fails it leaves the job, files and document, as it was. *)
Theorem log_cof_needs_friction_files lib j :
  (forall j', log_cof lib j = (Ok tt, j') ->
     forall load, In load [5; 15; 25]%nat ->
       is_Some (workspace j !! ("friction_" ++ load_key load ++ ".txt")))
  /\ (workspace j !! "friction_5nN.txt" = None ->
      log_cof lib j = (Err (Exn "OSError"), j))
  /\ (forall e j', log_cof lib j = (Err e, j') -> j' = j).
Proof.
  unfold log_cof. rewrite log_cof_loads_run. split; [|split].
  - intros j' H load Hin.
    destruct (mean_friction_forces [5; 15; 25]%nat j) as [[fs | e] j1] eqn:Hm;
      [|discriminate].
    eapply mean_friction_forces_files; eassumption.
  - intros Hnone. unfold mean_friction_forces. cbn [for_in].
    rewrite stage_bind_unfold, stage_bind_unfold. unfold loadtxt at 1.
    unfold np.loadtxt. name_loads. cbv [String.append]. rewrite Hnone. reflexivity.
  - intros e j'.
    destruct (fst (mean_friction_forces [5; 15; 25]%nat j)) as [fs | e1].
    + destruct (stats.linregress _ _ fs) as [[cof intercept] | e2];
        [discriminate | now intros [= _ <-]].
    + now intros [= _ <-].
Qed.

Lemma log_cof_needs_friction_files_witness :
  is_Some (workspace sample_job !! ("friction_" ++ load_key 15 ++ ".txt"))
  /\ log_cof (copy_tools false) sheared_job = (Err (Exn "OSError"), sheared_job)
  /\ snd (log_cof (copy_tools true) sheared_job) = sheared_job.
Proof.
  split; [|split].
  - apply (proj1 (log_cof_needs_friction_files (copy_tools false) sample_job)
             (snd (log_cof (copy_tools false) sample_job)));
      [vm_compute; reflexivity | simpl; auto].
  - apply (proj1 (proj2 (log_cof_needs_friction_files (copy_tools false) sheared_job))).
    vm_compute. reflexivity.
  - apply (proj2 (proj2 (log_cof_needs_friction_files (copy_tools true) sheared_job))
             (Exn "OSError")).
    vm_compute. reflexivity.
Defined.

(** ** Shapes of loaded series *)




Lemma parse_rows_nonempty ls rows :
  np.parse ls = Ok rows -> Forall (fun r => r <> []) rows.
Proof.
  revert rows. induction ls as [|[| [|v vs] |] l IH]; simpl; intros rows.
  - intros [= <-]. constructor.
  - apply IH.
  - apply IH.
  - destruct (np.parse l) as [rows' | e]; simpl; [|discriminate].
    intros [= <-]. constructor; [discriminate | now apply IH].
  - discriminate.
Qed.

(** X3.  Every 2-d array that [loadtxt] returns is rectangular: it has at
    least two rows and two columns and each row holds exactly [ncols]
    numbers, so the column slice [a[k:, c]] of the reducer reads an actual
    entry of every row of the tail. *)
Theorem loadtxt_rectangular files fname skiprows ncols rows :
  np.loadtxt files fname skiprows = Ok (np.Arr2 ncols rows) ->
  (2 <= ncols)%nat /\ (2 <= length rows)%nat
  /\ Forall (fun r => length r = ncols) rows
  /\ forall k c, (c < ncols)%nat ->
       exists col, np.tail_column (np.Arr2 ncols rows) k c = Ok col
         /\ Forall2 (fun r v => r !! c = Some v) (slice_from k rows) col.
Proof.
  unfold np.loadtxt. destruct (files !! fname) as [ls|]; [|discriminate].
  destruct (np.parse (skipn skiprows ls)) as [rs | e] eqn:Hp; simpl; [|discriminate].
  apply parse_rows_nonempty in Hp.
  destruct rs as [|row rs]; [discriminate|].
  destruct (forallb _ _) eqn:Hall; [|discriminate].
  assert (Hrect : Forall (fun r => length r = length row) (row :: rs)).
  { apply Forall_forall. intros r Hr.
    rewrite forallb_forall in Hall. apply Nat.eqb_eq, Hall.
    now apply list_elem_of_In. }
  unfold np.squeeze.
  destruct rs as [|row2 rs].
  { destruct row as [|a [|b row']]; discriminate. }
  destruct row as [|a [|b row']]; try discriminate.
  { now inversion Hp. }
  intros [= <- <-].
  split; [simpl; lia|]. split; [simpl; lia|]. split; [exact Hrect|].
  intros k c Hc. unfold np.tail_column.
  apply Nat.ltb_lt in Hc as Hc'. rewrite Hc'.
  eexists. split; [reflexivity|].
  assert (Hsub : Forall (fun r => length r = length (a :: b :: row'))
                   (slice_from k ((a :: b :: row') :: row2 :: rs))).
  { unfold slice_from. now apply Forall_drop. }
  induction Hsub as [|r l Hr _ IH]; simpl; constructor; [|exact IH].
  destruct (lookup_lt_is_Some_2 r c) as [v Hv]; [simpl in *; lia|].
  rewrite Hv. f_equal. symmetry. now apply nth_lookup_Some.
Qed.

Lemma loadtxt_rectangular_witness :
  (2 <= 3)%nat
  /\ (2 <= length (map (fun t => [t; 1; 2 * 1]%float) [0; 1; 2; 3; 4]%float))%nat
  /\ Forall (fun r => length r = 3%nat)
       (map (fun t => [t; 1; 2 * 1]%float) [0; 1; 2; 3; 4]%float)
  /\ forall k c, (c < 3)%nat ->
       exists col,
         np.tail_column
           (np.Arr2 3 (map (fun t => [t; 1; 2 * 1]%float) [0; 1; 2; 3; 4]%float)) k c
         = Ok col
         /\ Forall2 (fun r v => r !! c = Some v)
              (slice_from k (map (fun t => [t; 1; 2 * 1]%float) [0; 1; 2; 3; 4]%float))
              col.
Proof.
  apply (loadtxt_rectangular (workspace sample_job) "friction_5nN.txt" 0 3
           (map (fun t => [t; 1; 2 * 1]%float) [0; 1; 2; 3; 4]%float)).
  vm_compute. reflexivity.
Defined.

(** ** The energy series *)

Lemma loadtxt_skiprows files files' fname n header header' body :
  length header = n -> length header' = n ->
  files !! fname = Some (header ++ body)%list ->
  files' !! fname = Some (header' ++ body)%list ->
  np.loadtxt files fname n = np.loadtxt files' fname n.
Proof.
  intros H1 H2 Hf Hf'. unfold np.loadtxt. rewrite Hf, Hf'.
  rewrite <- H1 at 1. rewrite <- H2. now rewrite !drop_app_length.
Qed.

Lemma log_interaction_energy_run name j :
  _log_interaction_energy name j =
    match np.loadtxt (workspace j) (name ++ "-energy.xvg") 24 with
    | Ok data =>
        match tail_slice data 0.5 1, tail_slice data 0.5 2 with
        | Ok coul_energy, Ok lj_energy =>
            let total_energy := np.add coul_energy lj_energy in
            (Ok tt,
             {| sp := sp j; workspace := workspace j;
                document :=
                  <[name ++ "-Etotal" :=
                      VTuple (np.mean total_energy) (np.std total_energy)]>
                    (<[name ++ "-lj" :=
                         VTuple (np.mean lj_energy) (np.std lj_energy)]>
                       (<[name ++ "-qq" :=
                            VTuple (np.mean coul_energy) (np.std coul_energy)]>
                          (document j))) |})
        | Ok _, Err e => (Err e, j)
        | Err e, _ => (Err e, j)
        end
    | Err e => (Err e, j)
    end.
Proof.
  unfold _log_interaction_energy. rewrite stage_bind_unfold. unfold loadtxt at 1.
  destruct (np.loadtxt _ _ _) as [data | e]; [|reflexivity].
  rewrite stage_bind_unfold. unfold lift at 1.
  destruct (tail_slice data 0.5 1) as [coul | e]; [|reflexivity].
  rewrite stage_bind_unfold. unfold lift at 1.
  destruct (tail_slice data 0.5 2) as [lj | e]; reflexivity.
Qed.

(** X4.  [_log_interaction_energy] never looks at the first 24 lines of the
    energy file: two jobs that differ only in those lines get the same
    result and the same document.  A file of at most 24 lines is a series
    without rows, on which the stage fails with [IndexError], the job left
    as it was. *)
Theorem energy_header_is_skipped name j header header' body :
  length header = 24%nat -> length header' = 24%nat ->
  workspace j !! (name ++ "-energy.xvg") = Some (header ++ body)%list ->
  (let j' := {| sp := sp j;
                workspace := <[name ++ "-energy.xvg" := (header' ++ body)%list]>
                               (workspace j);
                document := document j |} in
   fst (_log_interaction_energy name j') = fst (_log_interaction_energy name j)
   /\ document (snd (_log_interaction_energy name j'))
      = document (snd (_log_interaction_energy name j)))
  /\ (body = [] ->
      _log_interaction_energy name j = (Err (Exn "IndexError"), j)).
Proof.
  intros H1 H2 Hf. split.
  - cbv zeta. rewrite !log_interaction_energy_run. cbn [workspace sp document].
    rewrite (loadtxt_skiprows _ (workspace j) _ 24 header' header body H2 H1
               (lookup_insert_eq _ _ _) Hf).
    destruct (np.loadtxt _ _ _) as [data | e]; [|split; reflexivity].
    destruct (tail_slice data 0.5 1) as [coul | e]; [|split; reflexivity].
    destruct (tail_slice data 0.5 2) as [lj | e]; split; reflexivity.
  - intros ->. rewrite log_interaction_energy_run.
    unfold np.loadtxt. rewrite Hf, app_nil_r.
    rewrite <- H1, drop_all. reflexivity.
Qed.

Lemma energy_header_is_skipped_witness :
  (let j' := {| sp := sp sample_job;
                workspace := <["shear_5nN" ++ "-energy.xvg" :=
                                 (repeat np.Blank 24 ++ series (-8))%list]>
                               (workspace sample_job);
                document := document sample_job |} in
   fst (_log_interaction_energy "shear_5nN" j')
   = fst (_log_interaction_energy "shear_5nN" sample_job)
   /\ document (snd (_log_interaction_energy "shear_5nN" j'))
      = document (snd (_log_interaction_energy "shear_5nN" sample_job)))
  /\ (series (-8) = [] ->
      _log_interaction_energy "shear_5nN" sample_job
      = (Err (Exn "IndexError"), sample_job)).
Proof.
  apply (energy_header_is_skipped "shear_5nN" sample_job
           (repeat np.Garbage 24) (repeat np.Blank 24) (series (-8)));
    vm_compute; reflexivity.
Defined.

(** ** What the stages leave alone *)

Lemma wo_pure {A} outs keys (m : stage A) :
  (forall j, snd (m j) = j) -> writes_only outs keys m.
Proof. intros H j. now rewrite H. Qed.

Lemma wo_set_document outs keys key v :
  key ∈ keys -> writes_only outs keys (set_document key v).
Proof.
  intros Hin j. simpl. repeat split.
  intros k Hk. apply lookup_insert_ne. intros ->. contradiction.
Qed.

Lemma wo_run_tool outs keys tool out_file :
  out_file ∈ outs -> writes_only outs keys (run_tool tool out_file).
Proof.
  intros Hin j. unfold run_tool.
  destruct (tool (workspace j)) as [text | e]; simpl; repeat split.
  intros f Hf. apply lookup_insert_ne. intros ->. contradiction.
Qed.

Lemma wo_bind {A B} outs keys (m : stage A) (k : A -> stage B) :
  writes_only outs keys m -> (forall a, writes_only outs keys (k a)) ->
  writes_only outs keys (m ≫= k).
Proof.
  intros Hm Hk j. rewrite stage_bind_unfold. specialize (Hm j).
  destruct (m j) as [[a | e] j1]; simpl in Hm; [|exact Hm].
  destruct Hm as (Hs & Hw & Hd). destruct (Hk a j1) as (Hs' & Hw' & Hd').
  split; [congruence|]. split.
  - intros f Hf. rewrite Hw' by exact Hf. now apply Hw.
  - intros f Hf. rewrite Hd' by exact Hf. now apply Hd.
Qed.

Ltac wo_solve :=
  repeat first
    [ apply wo_set_document; set_solver
    | apply wo_run_tool; vm_compute; set_solver
    | apply wo_pure; intros; reflexivity
    | apply wo_bind; [|intros]
    | match goal with |- writes_only _ _ (let '(_, _) := ?p in _) => destruct p end ].

(** X5.  What a stage leaves alone, whether it succeeds or fails part-way.
    No stage changes the statepoint.  Of the data files a stage changes
    only the output files of its own analyses: the per-load aggregators
    their three per-load series, the equilibrium stages one series each,
    [log_cof] and [_log_interaction_energy] none.  Of the job document
    (which signac persists in a file of its own in the job directory) a
    stage changes only its own fields: [calc_S2_shear] the two S2
    mappings, [calc_tilt_shear] the two tilt mappings,
    [calc_interdigitation] the interdigitation mapping, [log_cof] the COF
    and the intercept, [_log_interaction_energy] the three energy tuples
    of its run, and the stages that only run an analysis none. *)
Theorem stages_write_only_their_outputs lib ext name :
  writes_only ["shear_5nN-S2.txt"; "shear_15nN-S2.txt"; "shear_25nN-S2.txt"]
    ["S2_bottom"; "S2_top"] (calc_S2_shear lib)
  /\ writes_only ["shear_5nN-tilt.txt"; "shear_15nN-tilt.txt"; "shear_25nN-tilt.txt"]
       ["tilt_bottom"; "tilt_top"] (calc_tilt_shear lib)
  /\ writes_only ["shear_5nN-interdigitation.txt"; "shear_15nN-interdigitation.txt";
                  "shear_25nN-interdigitation.txt"]
       ["interdigitation"] (calc_interdigitation lib)
  /\ writes_only ["nvt-S2.txt"] [] (calc_S2_nvt lib)
  /\ writes_only ["nvt-tilt.txt"] [] (calc_tilt_nvt lib)
  /\ writes_only ["friction_5nN.txt"; "friction_15nN.txt"; "friction_25nN.txt"] []
       (calc_friction ext)
  /\ writes_only ["shear_5nN-h-bonds.txt"; "shear_15nN-h-bonds.txt";
                  "shear_25nN-h-bonds.txt"] []
       (count_hydrogen_bonds ext)
  /\ writes_only [] ["COF"; "intercept"] (log_cof lib)
  /\ writes_only [] [name ++ "-qq"; name ++ "-lj"; name ++ "-Etotal"]
       (_log_interaction_energy name).
Proof.
  repeat apply conj.
  - unfold calc_S2_shear, _calc_S2. cbn [for_in]. wo_solve.
  - unfold calc_tilt_shear, _calc_tilt. cbn [for_in]. wo_solve.
  - unfold calc_interdigitation, _calc_interdigitation. cbn [for_in]. wo_solve.
  - unfold calc_S2_nvt, _calc_S2. wo_solve.
  - unfold calc_tilt_nvt, _calc_tilt. wo_solve.
  - unfold calc_friction. cbn [for_in]. wo_solve.
  - unfold count_hydrogen_bonds, _count_hydrogen_bonds. cbn [for_in]. wo_solve.
  - unfold log_cof, log_cof_loads, mean_friction_forces. cbn [for_in]. wo_solve.
  - unfold _log_interaction_energy. wo_solve.
Qed.

(** ** How the stages feed one another *)

Lemma parse_errors ls e : np.parse ls = Err e -> e = Exn "ValueError".
Proof.
  induction ls as [|[| [|v vs] |] l IH]; simpl; try discriminate; auto.
  - destruct (np.parse l) as [rows | e0]; simpl; [discriminate|].
    intros [= <-]. exact (IH eq_refl).
  - now intros [= <-].
Qed.

(** [loadtxt] raises [OSError] for a missing file only. *)
Lemma loadtxt_OSError files fname skiprows :
  np.loadtxt files fname skiprows = Err (Exn "OSError") -> files !! fname = None.
Proof.
  unfold np.loadtxt. destruct (files !! fname) as [ls|]; [|reflexivity].
  destruct (np.parse (skipn skiprows ls)) as [rows | e] eqn:Hp; simpl.
  - destruct rows as [|row rows]; [discriminate|].
    destruct (forallb _ _); discriminate.
  - apply parse_errors in Hp as ->. discriminate.
Qed.

(** Symbolic execution of a successful run, to the end. *)
Ltac inv_run :=
  repeat first
    [ progress inv_ok
    | match goal with
      | H : mret _ _ = (Ok _, _) |- _ => apply mret_ok in H; destruct H as [_ ->]
      end ].

Lemma mean_friction_forces_OSError loads j j' :
  mean_friction_forces loads j = (Err (Exn "OSError"), j') ->
  exists load, In load loads
    /\ workspace j !! ("friction_" ++ load_key load ++ ".txt") = None.
Proof.
  unfold mean_friction_forces.
  enough (H : forall acc,
             for_in loads
               (fun load friction_forces =>
                  friction_data ← loadtxt ("friction_" ++ load_key load ++ ".txt") 0;
                  friction_data ← lift (tail_slice friction_data 0.6 1);
                  mret (friction_forces ++ [np.mean friction_data])%list) acc j
             = (Err (Exn "OSError"), j') ->
             exists load, In load loads
               /\ workspace j !! ("friction_" ++ load_key load ++ ".txt") = None)
    by apply H.
  induction loads as [|x l IH]; intros acc; [discriminate|].
  cbn [for_in]. rewrite stage_bind_unfold, stage_bind_unfold. unfold loadtxt at 1.
  destruct (np.loadtxt _ _ _) as [data | e] eqn:Hl.
  - rewrite stage_bind_unfold. unfold lift at 1.
    destruct (tail_slice data 0.6 1) as [v | e] eqn:Ht.
    + intros H. destruct (IH _ H) as (load & Hin & Hnone).
      exists load. split; [now right | exact Hnone].
    + intros [= -> _]. apply tail_slice_errors in Ht.
      destruct Ht as [Ht | [Ht | [Ht | Ht]]]; discriminate.
  - intros [= -> _]. exists x. split; [now left|]. now apply loadtxt_OSError in Hl.
Qed.

(** X6.  [calc_friction] produces exactly the files that [log_cof] reads:
    once it has succeeded the three friction series are in the workspace,
    the document is untouched, and [log_cof] cannot fail for a missing
    file. *)
Theorem calc_friction_feeds_log_cof ext lib j j1 :
  calc_friction ext j = (Ok tt, j1) ->
  (forall load, In load [5; 15; 25]%nat ->
     is_Some (workspace j1 !! ("friction_" ++ load_key load ++ ".txt")))
  /\ document j1 = document j
  /\ fst (log_cof lib j1) <> Err (Exn "OSError").
Proof.
  intros H. unfold calc_friction in H. cbn [for_in] in H. name_loads. inv_run.
  cbn [workspace sp document] in *.
  match goal with
  | |- (forall load, _ -> is_Some (?W !! _)) /\ _ =>
      assert (Hfiles : forall load, In load [5; 15; 25]%nat ->
                is_Some (W !! ("friction_" ++ load_key load ++ ".txt")))
  end.
  { intros load [<- | [<- | [<- | []]]]; strip_inserts;
      eexists; apply lookup_insert_eq. }
  split; [exact Hfiles|]. split; [reflexivity|].
  unfold log_cof. rewrite log_cof_loads_run.
  match goal with |- context [mean_friction_forces ?l ?jj] =>
    destruct (mean_friction_forces l jj) as [[fs | e] j2] eqn:Hm end; simpl.
  - destruct (stats.linregress _ _ fs) as [[cof intercept] | e] eqn:Hfit;
      simpl; [discriminate|].
    apply linregress_errors in Hfit as ->. discriminate.
  - intros [= ->]. apply mean_friction_forces_OSError in Hm as (load & Hin & Hnone).
    cbn [workspace] in Hnone. destruct (Hfiles load Hin) as [t Ht]. congruence.
Qed.

Lemma calc_friction_feeds_log_cof_witness :
  (forall load, In load [5; 15; 25]%nat ->
     is_Some (workspace (snd (calc_friction copy_io sheared_job))
                !! ("friction_" ++ load_key load ++ ".txt")))
  /\ document (snd (calc_friction copy_io sheared_job)) = document sheared_job
  /\ fst (log_cof (copy_tools false) (snd (calc_friction copy_io sheared_job)))
     <> Err (Exn "OSError").
Proof.
  apply (calc_friction_feeds_log_cof copy_io (copy_tools false) sheared_job).
  vm_compute. reflexivity.
Defined.

(** X7.  A job that has been through [calc_interdigitation] and then
    [log_cof] is accepted by the loop of the correlation script: the keys
    the stages store are the keys the script reads.  Its x is the reduced
    interdigitation at 25nN minus the one at 5nN, taken from the series
    files the stage wrote, and its y is the stored slope. *)
Theorem processed_job_is_plottable lib j j1 j2 acc :
  calc_interdigitation lib j = (Ok tt, j1) ->
  log_cof lib j1 = (Ok tt, j2) ->
  exists hi lo cof,
    (np.loadtxt (workspace j1) "shear_25nN-interdigitation.txt" 0
       ≫= reducer 0.6 1) = Ok hi
    /\ (np.loadtxt (workspace j1) "shear_5nN-interdigitation.txt" 0
          ≫= reducer 0.6 1) = Ok lo
    /\ document j2 !! "COF" = Some (VFloat cof)
    /\ plotting.append_job acc j2 =
         Ok {| plotting.all_x := (plotting.all_x acc ++ [(hi - lo)%float])%list;
               plotting.all_y := (plotting.all_y acc ++ [cof])%list;
               plotting.all_terminal_groups :=
                 (plotting.all_terminal_groups acc ++ [terminal_groups (sp j)])%list |}.
Proof.
  intros H1 H2.
  unfold calc_interdigitation in H1. cbn [for_in] in H1.
  unfold _calc_interdigitation in H1. name_loads. inv_run.
  unfold log_cof in H2. rewrite log_cof_loads_run in H2.
  cbn [workspace sp document] in *.
  match type of H2 with context [fst ?m] => destruct (fst m) as [fs | e] end;
    [|discriminate].
  match type of H2 with context [stats.linregress ?b ?x ?y] =>
    destruct (stats.linregress b x y) as [[cof intercept] | e] end; [|discriminate].
  injection H2 as <-.
  match goal with
  | Hl25 : np.loadtxt _ ("shear_25nN" +:+ "-interdigitation.txt") 0 = Ok ?d25,
    Ht25 : tail_slice ?d25 _ 1 = Ok ?t25,
    Hl5 : np.loadtxt _ ("shear_5nN" +:+ "-interdigitation.txt") 0 = Ok ?d5,
    Ht5 : tail_slice ?d5 _ 1 = Ok ?t5 |- _ =>
      exists (np.mean t25), (np.mean t5), cof; split; [|split; [|split]];
      [ erewrite loadtxt_lookup; [change ("shear_25nN-interdigitation.txt") with ("shear_25nN" +:+ "-interdigitation.txt"); rewrite Hl25|];
        [simpl; unfold reducer; rewrite Ht25; reflexivity | strip_inserts; reflexivity]
      | erewrite loadtxt_lookup; [change ("shear_5nN-interdigitation.txt") with ("shear_5nN" +:+ "-interdigitation.txt"); rewrite Hl5|];
        [simpl; unfold reducer; rewrite Ht5; reflexivity | strip_inserts; reflexivity]
      | | ]
  end.
  - cbn [document]. rewrite lookup_insert_ne by discriminate. apply lookup_insert_eq.
  - unfold plotting.append_job, plotting.interdigitation_at, plotting.cof_of,
      plotting.getitem. cbn [document sp].
    rewrite !(lookup_insert_ne _ "intercept") by discriminate.
    rewrite (lookup_insert_ne _ "COF" "interdigitation") by discriminate.
    rewrite !lookup_insert_eq. simpl.
    rewrite lookup_insert_eq. simpl.
    rewrite !lookup_insert_ne by discriminate. rewrite lookup_insert_eq. simpl.
    reflexivity.
Qed.

Lemma processed_job_is_plottable_witness :
  exists hi lo cof,
    (np.loadtxt
       (workspace (snd (calc_interdigitation (copy_tools false) sample_job)))
       "shear_25nN-interdigitation.txt" 0 ≫= reducer 0.6 1) = Ok hi
    /\ (np.loadtxt
          (workspace (snd (calc_interdigitation (copy_tools false) sample_job)))
          "shear_5nN-interdigitation.txt" 0 ≫= reducer 0.6 1) = Ok lo
    /\ document
         (snd (log_cof (copy_tools false)
                 (snd (calc_interdigitation (copy_tools false) sample_job))))
         !! "COF" = Some (VFloat cof)
    /\ plotting.append_job
         {| plotting.all_x := []; plotting.all_y := [];
            plotting.all_terminal_groups := [] |}
         (snd (log_cof (copy_tools false)
                 (snd (calc_interdigitation (copy_tools false) sample_job)))) =
         Ok {| plotting.all_x := ([] ++ [(hi - lo)%float])%list;
               plotting.all_y := ([] ++ [cof])%list;
               plotting.all_terminal_groups :=
                 ([] ++ [terminal_groups (sp sample_job)])%list |}.
Proof.
  apply (processed_job_is_plottable (copy_tools false) sample_job
           (snd (calc_interdigitation (copy_tools false) sample_job))
           (snd (log_cof (copy_tools false)
                   (snd (calc_interdigitation (copy_tools false) sample_job))))
           {| plotting.all_x := []; plotting.all_y := [];
              plotting.all_terminal_groups := [] |});
    vm_compute; reflexivity.
Defined.

(** ** The report of the correlation script *)

Lemma collect_groups project : forall acc s,
  plotting.collect project acc = Ok s ->
  plotting.all_terminal_groups s
  = (plotting.all_terminal_groups acc
     ++ map (fun j => terminal_groups (sp j)) project)%list.
Proof.
  induction project as [|j0 rest IH]; intros acc s; simpl.
  - intros [= <-]. now rewrite app_nil_r.
  - destruct (plotting.append_job acc j0) as [acc' | e] eqn:Ha; [|discriminate].
    simpl. intros Hc.
    destruct (append_job_spec _ _ _ Ha) as (hi & lo & y & _ & _ & _ & _ & _ & Hg).
    rewrite (IH _ _ Hc), Hg, <- app_assoc. reflexivity.
Qed.

Lemma nth_error_is_lookup {A} (l : list A) (i : nat) : nth_error l i = l !! i.
Proof.
  revert i. induction l as [|x l IH]; intros [|i]; simpl; try reflexivity.
  apply IH.
Qed.

Lemma select_outliers_spec groups mask : forall i out,
  plotting.select_outliers groups i mask = Ok out ->
  out = map snd (List.filter fst (combine mask (skipn i groups))).
Proof.
  induction mask as [|val rest IH]; intros i out; simpl.
  - now intros [= <-].
  - destruct val.
    + destruct (nth_error groups i) as [g|] eqn:Hg; [|discriminate].
      destruct (plotting.select_outliers groups (S i) rest) as [gs | e] eqn:Hs;
        simpl; [|discriminate].
      intros [= <-]. apply IH in Hs.
      rewrite (drop_S groups g i) by (now rewrite <- nth_error_is_lookup).
      simpl. now rewrite Hs.
    + intros Hs. apply IH in Hs.
      destruct (skipn i groups) as [|g tl] eqn:Hd.
      * assert (skipn (S i) groups = []) as Hd'.
        { apply drop_ge. apply (f_equal length) in Hd. rewrite length_drop in Hd.
          simpl in Hd. lia. }
        rewrite Hd' in Hs. now destruct rest.
      * assert (skipn (S i) groups = tl) as Hd'.
        { assert (Hl : groups !! i = Some g).
          { rewrite <- nth_error_is_lookup, <- hd_error_skipn, Hd. reflexivity. }
          rewrite (drop_S groups g i Hl) in Hd. now injection Hd as <-. }
        rewrite Hd' in Hs. exact Hs.
Qed.

(** X8.  The table of outliers lists, in project order, exactly the pairs of
    terminal groups of the jobs whose outlier flag is set. *)
Theorem outliers_are_flagged_jobs ransac_fit project c :
  plotting.classify ransac_fit project = Ok c ->
  plotting.all_terminal_groups (plotting.data c)
  = map (fun j => terminal_groups (sp j)) project
  /\ plotting.outliers c
     = map snd (List.filter fst
                  (combine (plotting.outlier_mask c)
                           (map (fun j => terminal_groups (sp j)) project))).
Proof.
  unfold plotting.classify.
  destruct (plotting.collect _ _) as [s | e] eqn:Hc; [|discriminate]. simpl.
  destruct (ransac_fit _ _) as [mask | e]; [|discriminate]. simpl.
  destruct (plotting.select_outliers _ _ _) as [out | e] eqn:Hs; [|discriminate].
  simpl. intros [= <-]. simpl.
  apply collect_groups in Hc. simpl in Hc.
  split; [exact Hc|].
  apply select_outliers_spec in Hs. rewrite Hc in Hs. exact Hs.
Qed.

Lemma outliers_are_flagged_jobs_witness :
  [("methyl", "methyl"); ("hydroxyl", "carboxyl")]
  = map (fun j => terminal_groups (sp j)) sample_project
  /\ [("hydroxyl", "carboxyl")]
     = map snd (List.filter fst
                  (combine (np.logical_not [true; false])
                           (map (fun j => terminal_groups (sp j)) sample_project))).
Proof.
  apply (outliers_are_flagged_jobs (fun _ _ => Ok [true; false]) sample_project
           {| plotting.data :=
                {| plotting.all_x := [0.5; -0.25]%float;
                   plotting.all_y := [0.125; 0.5]%float;
                   plotting.all_terminal_groups :=
                     [("methyl", "methyl"); ("hydroxyl", "carboxyl")] |};
              plotting.inlier_mask := [true; false];
              plotting.outlier_mask := np.logical_not [true; false];
              plotting.outliers := [("hydroxyl", "carboxyl")] |}).
  vm_compute. reflexivity.
Defined.

Lemma boolean_index_mismatch {A} (a : list A) mask :
  length a <> length mask -> boolean_index a mask = Err (Exn "IndexError").
Proof.
  revert mask. induction a as [|x a IH]; intros [|b mask] Hl; simpl in *;
    try reflexivity; try congruence.
  rewrite IH by congruence. reflexivity.
Qed.

Lemma boolean_index_ok {A} (a : list A) mask r :
  boolean_index a mask = Ok r ->
  length a = length mask /\ length r = length (List.filter id mask).
Proof.
  revert mask r. induction a as [|x a IH]; intros [|b mask] r; simpl;
    try discriminate.
  - now intros [= <-].
  - destruct (boolean_index a mask) as [r' | e] eqn:Hr; simpl; [|discriminate].
    intros [= <-]. destruct (IH _ _ Hr) as [Hl Hc].
    split; [congruence|]. destruct b; simpl; congruence.
Qed.

Lemma boolean_index_filter {A} (a : list A) mask r :
  boolean_index a mask = Ok r ->
  r = map snd (List.filter fst (combine mask a)).
Proof.
  revert mask r. induction a as [|x a IH]; intros [|b mask] r; simpl;
    try discriminate.
  - now intros [= <-].
  - destruct (boolean_index a mask) as [r' | e] eqn:Hr; simpl; [|discriminate].
    intros [= <-]. rewrite (IH _ _ Hr). now destruct b.
Qed.

Lemma filter_logical_not {A} (a : list A) mask :
  map snd (List.filter fst (combine (np.logical_not mask) a))
  = map snd (List.filter (fun bp => negb (fst bp)) (combine mask a)).
Proof.
  revert a. induction mask as [|b mask IH]; intros [|x a]; simpl; try reflexivity.
  destruct b; simpl; now rewrite IH.
Qed.

(** Selecting from two arrays by one mask selects pairs. *)
Lemma filter_pairs {A B} (q : bool -> bool) mask (xs : list A) (ys : list B) :
  length xs = length ys ->
  map snd (List.filter (fun bp => q (fst bp)) (combine mask xs))
  = map fst (map snd (List.filter (fun bp => q (fst bp))
                        (combine mask (combine xs ys))))
  /\ map snd (List.filter (fun bp => q (fst bp)) (combine mask ys))
     = map snd (map snd (List.filter (fun bp => q (fst bp))
                           (combine mask (combine xs ys)))).
Proof.
  revert xs ys. induction mask as [|b mask IH]; intros [|x xs] [|y ys] Hl;
    simpl in *; try discriminate; try (split; reflexivity).
  destruct (IH xs ys ltac:(congruence)) as [Hx Hy].
  destruct (q b); simpl; split; congruence.
Qed.

Lemma filter_partition {A} (l : list (bool * A)) :
  (map snd (List.filter fst l)
   ++ map snd (List.filter (fun bp => negb (fst bp)) l))%list ≡ₚ map snd l.
Proof.
  induction l as [|[[|] x] l IH]; simpl.
  - reflexivity.
  - now constructor.
  - rewrite <- Permutation_middle. now constructor.
Qed.

Lemma snd_combine {A B} (l : list A) (k : list B) :
  length l = length k -> map snd (combine l k) = k.
Proof.
  revert k. induction l as [|a l IH]; intros [|b k] Hl; simpl in *;
    try discriminate; try reflexivity.
  rewrite IH by congruence. reflexivity.
Qed.

Lemma lookup_combine_In {A B} (l : list A) (k : list B) (i : nat) a b :
  l !! i = Some a -> k !! i = Some b -> In (a, b) (combine l k).
Proof.
  revert k i. induction l as [|a' l IH]; intros [|b' k] [|i]; simpl;
    try discriminate.
  - intros [= ->] [= ->]. now left.
  - intros Ha Hb. right. eapply IH; eassumption.
Qed.

Lemma lookup_combine_pair {A B} (l : list A) (k : list B) (i : nat) a b :
  l !! i = Some a -> k !! i = Some b -> combine l k !! i = Some (a, b).
Proof.
  revert k i. induction l as [|a' l IH]; intros [|b' k] [|i]; simpl;
    try discriminate.
  - now intros [= ->] [= ->].
  - apply IH.
Qed.

Lemma classify_inv ransac_fit project c :
  plotting.classify ransac_fit project = Ok c ->
  plotting.collect project
    {| plotting.all_x := []; plotting.all_y := [];
       plotting.all_terminal_groups := [] |} = Ok (plotting.data c)
  /\ plotting.outlier_mask c = np.logical_not (plotting.inlier_mask c).
Proof.
  unfold plotting.classify.
  destruct (plotting.collect _ _) as [s | e] eqn:Hs; [|discriminate]. simpl.
  destruct (ransac_fit _ _) as [mask | e]; [|discriminate]. simpl.
  destruct (plotting.select_outliers _ _ _) as [out | e]; [|discriminate].
  simpl. intros [= <-]. simpl. auto.
Qed.

(** X9.  The script selects x and y by one and the same mask, so what it
    hands to the robust correlation and draws green are the points
    [(x_i, y_i)] of the jobs flagged as inliers, in project order, and what
    it draws red are the points of the other jobs: every job's point,
    built from that job's interdigitation and COF, is in exactly the set
    its flag names, and the two sets together are the project's points,
    each once.  The selection needs one flag per job: a mask of any other
    length fails with [IndexError]. *)
Theorem point_sets_partition ransac_fit project c :
  plotting.classify ransac_fit project = Ok c ->
  let points := combine (plotting.all_x (plotting.data c))
                        (plotting.all_y (plotting.data c)) in
  let flagged := combine (plotting.inlier_mask c) points in
  let inliers := map snd (List.filter fst flagged) in
  let outliers := map snd (List.filter (fun bp => negb (fst bp)) flagged) in
  (forall p, select_points c = Ok p ->
     length (plotting.inlier_mask c) = length project
     /\ length points = length project
     /\ inlier_x p = map fst inliers /\ inlier_y p = map snd inliers
     /\ outlier_x p = map fst outliers /\ outlier_y p = map snd outliers
     /\ (inliers ++ outliers)%list ≡ₚ points
     /\ forall (i : nat) j, project !! i = Some j ->
          exists hi lo y (flag : bool),
            plotting.interdigitation_at j "25nN" = Ok hi
            /\ plotting.interdigitation_at j "5nN" = Ok lo
            /\ plotting.cof_of j = Ok y
            /\ points !! i = Some ((hi - lo)%float, y)
            /\ plotting.inlier_mask c !! i = Some flag
            /\ In ((hi - lo)%float, y) (if flag then inliers else outliers))
  /\ (length (plotting.inlier_mask c) <> length project ->
      select_points c = Err (Exn "IndexError")).
Proof.
  intros Hc points flagged inliers outliers.
  destruct (classify_inv _ _ _ Hc) as [Hs Hmask].
  destruct (collect_spec _ _ _ Hs) as (xs & ys & Ex & Ey & Lx & Ly & Hall).
  simpl in Ex, Ey. rewrite <- Ex in Lx, Hall. rewrite <- Ey in Ly, Hall. clear Ex Ey xs ys.
  set (ax := plotting.all_x (plotting.data c)) in *.
  set (ay := plotting.all_y (plotting.data c)) in *.
  set (mask := plotting.inlier_mask c) in *.
  assert (Hxy : length ax = length ay) by congruence.
  assert (Hpts : length points = length project).
  { unfold points. rewrite length_combine. lia. }
  unfold select_points. fold ax ay mask. rewrite Hmask. fold mask. split.
  - intros p.
    destruct (boolean_index ax mask) as [ix | e] eqn:Hix; simpl; [|discriminate].
    destruct (boolean_index ay mask) as [iy | e] eqn:Hiy; simpl; [|discriminate].
    destruct (boolean_index ax (np.logical_not mask)) as [ox | e] eqn:Hox; simpl;
      [|discriminate].
    destruct (boolean_index ay (np.logical_not mask)) as [oy | e] eqn:Hoy; simpl;
      [|discriminate].
    intros [= <-]. simpl.
    assert (Hm : length mask = length project).
    { apply boolean_index_ok in Hix as [Hl _]. congruence. }
    apply boolean_index_filter in Hix, Hiy, Hox, Hoy.
    rewrite filter_logical_not in Hox, Hoy.
    destruct (filter_pairs id mask ax ay Hxy) as [Fx Fy].
    destruct (filter_pairs negb mask ax ay Hxy) as [Gx Gy].
    split; [exact Hm|]. split; [exact Hpts|].
    split; [rewrite Hix; exact Fx|]. split; [rewrite Hiy; exact Fy|].
    split; [rewrite Hox; exact Gx|]. split; [rewrite Hoy; exact Gy|].
    split.
    + unfold inliers, outliers. rewrite filter_partition.
      unfold flagged. rewrite snd_combine by congruence. reflexivity.
    + intros i j Hj.
      destruct (Hall i j Hj) as (hi & lo & y & Hhi & Hlo & Hy & Hxi & Hyi).
      destruct (lookup_lt_is_Some_2 mask i) as [flag Hflag].
      { rewrite Hm. eapply lookup_lt_Some, Hj. }
      exists hi, lo, y, flag.
      pose proof (lookup_combine_pair ax ay i _ _ Hxi Hyi) as Hpt.
      repeat (split; [assumption|]).
      pose proof (lookup_combine_In mask points i _ _ Hflag Hpt) as Hin.
      destruct flag.
      * unfold inliers. apply in_map_iff. exists (true, ((hi - lo)%float, y)).
        split; [reflexivity|]. apply filter_In. split; [exact Hin | reflexivity].
      * unfold outliers. apply in_map_iff. exists (false, ((hi - lo)%float, y)).
        split; [reflexivity|]. apply filter_In. split; [exact Hin | reflexivity].
  - intros Hne.
    rewrite (boolean_index_mismatch ax mask); [reflexivity|].
    rewrite Lx. intros E. apply Hne. now symmetry.
Qed.

Lemma point_sets_partition_witness :
  plotting.classify (fun _ _ => Ok [true; false]) sample_project
  = Ok sample_classification
  /\ (let points := combine (plotting.all_x (plotting.data sample_classification))
                            (plotting.all_y (plotting.data sample_classification)) in
      let flagged := combine (plotting.inlier_mask sample_classification) points in
      let inliers := map snd (List.filter fst flagged) in
      let outliers := map snd (List.filter (fun bp => negb (fst bp)) flagged) in
      (forall p, select_points sample_classification = Ok p ->
         length (plotting.inlier_mask sample_classification) = length sample_project
         /\ length points = length sample_project
         /\ inlier_x p = map fst inliers /\ inlier_y p = map snd inliers
         /\ outlier_x p = map fst outliers /\ outlier_y p = map snd outliers
         /\ (inliers ++ outliers)%list ≡ₚ points
         /\ forall (i : nat) j, sample_project !! i = Some j ->
              exists hi lo y (flag : bool),
                plotting.interdigitation_at j "25nN" = Ok hi
                /\ plotting.interdigitation_at j "5nN" = Ok lo
                /\ plotting.cof_of j = Ok y
                /\ points !! i = Some ((hi - lo)%float, y)
                /\ plotting.inlier_mask sample_classification !! i = Some flag
                /\ In ((hi - lo)%float, y) (if flag then inliers else outliers))
      /\ (length (plotting.inlier_mask sample_classification) <> length sample_project ->
          select_points sample_classification = Err (Exn "IndexError"))).
Proof.
  assert (H : plotting.classify (fun _ _ => Ok [true; false]) sample_project
              = Ok sample_classification) by (vm_compute; reflexivity).
  split; [exact H|].
  exact (point_sets_partition (fun _ _ => Ok [true; false]) sample_project
           sample_classification H).
Defined.

(** ** Exact products: the start index of the windows *)

Lemma SF_half : Prim2SF 0.5 = S754_finite false 4503599627370496 (-53).
Proof. vm_compute. reflexivity. Qed.

(** Halving is exact, so [int(len * 0.5)] is [len // 2]. *)
Lemma tail_start_half n :
  Z.of_nat n < 2 ^ 53 ->
  py_int (float_of_nat n * 0.5) = Ok (Z.of_nat n / 2).
Proof.
  intros Hb. destruct n as [|n']; [reflexivity|].
  destruct (float_of_nat_exact (S n') ltac:(lia) Hb) as (m & e & Hx & Hd & He & Hm).
  unfold py_int. rewrite FloatAxioms.mul_spec, Hx, SF_half.
  unfold SF64mul, SFmul. simpl xorb.
  rewrite (binary_round_aux_exact _ m 52 (e + -53)) by first [assumption | lia].
  replace (e + -53 + 52) with (e - 1) by lia.
  unfold SFtrunc, cond_Zopp.
  destruct (Z.leb_spec 0 (e - 1)) as [|_]; [lia|].
  rewrite Hm. replace (- (e - 1)) with (- e + 1) by lia.
  rewrite Z.pow_add_r by lia. change (2 ^ 1) with 2.
  rewrite (Z.mul_comm (2 ^ (- e)) 2).
  rewrite Z.div_mul_cancel_r; [reflexivity | lia |].
  apply Z.pow_nonzero; lia.
Qed.

(** ** Rounding to nearest: the start index of the 0.6 windows *)

Lemma shr_near_step M k r :
  0 <= M -> 0 <= k -> shr_near M k r -> shr_near M (k + 1) (shr_1 r).
Proof.
  intros HM Hk (Hm & Hr1 & Hr0 & Hs). destruct r as [m r s]. simpl in Hm, Hr1, Hr0, Hs.
  assert (Hp : 0 < 2 ^ k) by (apply Z.pow_pos_nonneg; lia).
  assert (Hm0 : 0 <= m) by (subst m; apply Z.div_pos; lia).
  pose proof (Z.mod_pos_bound M (2 ^ k) Hp) as Hrem.
  assert (Hdiv : M / 2 ^ (k + 1) = m / 2).
  { rewrite Z.pow_add_r by lia. rewrite <- Z.div_div by lia. now subst m. }
  assert (Hmod : M mod 2 ^ (k + 1) = M mod 2 ^ k + 2 ^ k * (m mod 2)).
  { rewrite Z.pow_add_r by lia. change (2 ^ 1) with 2.
    rewrite Z.rem_mul_r by lia. now subst m. }
  assert (Hpow : 2 ^ (k + 1) = 2 * 2 ^ k).
  { rewrite Z.pow_add_r by lia. change (2 ^ 1) with 2. ring. }
  assert (Hz : (r || s)%bool = false -> M mod 2 ^ k = 0).
  { intros Hrs. apply orb_false_elim in Hrs as [-> ->].
    specialize (Hr0 eq_refl). destruct (Hs eq_refl); lia. }
  unfold shr_near. rewrite Hdiv, Hmod, Hpow.
  set (rem := M mod 2 ^ k) in *. clearbody rem. clear Hm Hdiv Hmod.
  destruct m as [|[p|p|]|p]; simpl shr_1; cbn [shr_m shr_r shr_s]; try lia.
  - change (0 mod 2) with 0. change (0 / 2) with 0.
    repeat split; try discriminate; try lia.
    intros Hrs. specialize (Hz Hrs). lia.
  - assert (Z.pos p~1 / 2 = Z.pos p) as ->
        by (symmetry; apply Z.div_unique with 1; lia).
    assert (Z.pos p~1 mod 2 = 1) as ->
        by (symmetry; apply Z.mod_unique with (Z.pos p); lia).
    repeat split; try discriminate; try lia.
    intros Hrs. specialize (Hz Hrs). lia.
  - assert (Z.pos p~0 / 2 = Z.pos p) as ->
        by (symmetry; apply Z.div_unique with 0; lia).
    assert (Z.pos p~0 mod 2 = 0) as ->
        by (symmetry; apply Z.mod_unique with (Z.pos p); lia).
    repeat split; try discriminate; try lia.
    intros Hrs. specialize (Hz Hrs). lia.
  - change (1 / 2) with 0. change (1 mod 2) with 1.
    repeat split; try discriminate; try lia.
    intros Hrs. specialize (Hz Hrs). lia.
Qed.

Lemma shr_shift_near M p :
  0 <= M ->
  shr_near M (Zpos p) (SpecFloat.iter_pos shr_1 p (shr_record_of_loc M loc_Exact)).
Proof.
  intros HM. change (Zpos p) with (0 + Zpos p).
  apply (iter_pos_shr_inv (shr_near M)).
  - intros k r Hk. now apply shr_near_step.
  - lia.
  - unfold shr_near. simpl. rewrite Z.div_1_r, Z.mod_1_r.
    repeat split; try discriminate; auto; lia.
Qed.

(** Rounding to nearest moves the shifted mantissa by at most half a unit. *)
Lemma round_nearest_even_near M k r :
  0 <= M -> 0 <= k -> shr_near M k r ->
  let m1 := round_nearest_even (shr_m r) (loc_of_shr_record r) in
  - 2 ^ k <= 2 * (m1 * 2 ^ k - M) <= 2 ^ k.
Proof.
  intros HM Hk (Hm & Hr1 & Hr0 & Hs).
  assert (Hp : 0 < 2 ^ k) by (apply Z.pow_pos_nonneg; lia).
  pose proof (Z.mod_pos_bound M (2 ^ k) Hp) as Hrem.
  pose proof (Z.div_mod M (2 ^ k) ltac:(lia)) as HM'.
  destruct r as [m [|] [|]]; simpl in *; subst m;
    set (q := M / 2 ^ k) in *; set (rem := M mod 2 ^ k) in *;
    set (P := 2 ^ k) in *; clearbody q rem P.
  - specialize (Hr1 eq_refl). lia.
  - specialize (Hr1 eq_refl). destruct (Hs eq_refl) as [H0 | Hh]; [lia|].
    destruct (Z.even q); lia.
  - specialize (Hr0 eq_refl). lia.
  - specialize (Hr0 eq_refl). lia.
Qed.

(** The rounded value of [M * 2^E] has integer part [q] as soon as the
    exact value is more than half a unit in the last place inside
    [[q, q+1)]. *)
Lemma binary_round_aux_near M E k q :
  0 < k -> Zdigits2 (Zpos M) = 53 + k -> -1074 <= E + k <= 0 ->
  0 <= q -> q + 1 < 2 ^ 53 ->
  2 * (q * 2 ^ (- (E + k))) * 2 ^ k < 2 * Zpos M + 2 ^ k ->
  2 * Zpos M + 2 ^ k < 2 * ((q + 1) * 2 ^ (- (E + k))) * 2 ^ k ->
  SF_int (binary_round_aux prec emax false (Zpos M) E loc_Exact) q.
Proof.
  intros Hk HdM He Hq Hq1 Hlo Hhi.
  assert (Hpk : 0 < 2 ^ k) by (apply Z.pow_pos_nonneg; lia).
  assert (Hpe : 0 < 2 ^ (- (E + k))) by (apply Z.pow_pos_nonneg; lia).
  assert (Hfe : fexp prec emax (53 + k + E) = E + k).
  { unfold fexp, SpecFloat.emin, prec, emax. lia. }
  unfold binary_round_aux.
  assert (H1 : let '(r, e') := shr_fexp prec emax (Zpos M) E loc_Exact in
               e' = E + k /\ shr_near (Zpos M) k r).
  { unfold shr_fexp, shr. rewrite HdM, Hfe.
    replace (E + k - E) with k by lia.
    destruct k as [|p|p]; try lia. split; [reflexivity|].
    apply shr_shift_near. lia. }
  destruct (shr_fexp prec emax (Zpos M) E loc_Exact) as [mrs' e'].
  destruct H1 as [-> Hnear].
  pose proof (round_nearest_even_near (Zpos M) k mrs' ltac:(lia) ltac:(lia) Hnear) as Hr.
  cbv zeta in Hr.
  set (m1 := round_nearest_even (shr_m mrs') (loc_of_shr_record mrs')) in *.
  clearbody m1. clear Hnear mrs'.
  set (T := 2 ^ (- (E + k))) in *.
  assert (Hm1 : q * T <= m1 < (q + 1) * T).
  { split.
    - assert (2 * (q * T - 1) * 2 ^ k < 2 * m1 * 2 ^ k) by lia.
      assert (q * T - 1 < m1); [|lia].
      apply Z.mul_lt_mono_pos_r with (p := 2 ^ k); [lia|]. lia.
    - assert (2 * m1 * 2 ^ k < 2 * ((q + 1) * T) * 2 ^ k) by lia.
      apply Z.mul_lt_mono_pos_r with (p := 2 ^ k); [lia|]. lia. }
  assert (Hm1pos : 0 <= m1) by (assert (0 <= q * T) by (apply Z.mul_nonneg_nonneg; lia); lia).
  pose proof (shr_fexp_exact m1 (E + k) Hm1pos) as H2.
  destruct (shr_fexp prec emax m1 (E + k) loc_Exact) as [mrs'' e''].
  assert (Hfin : e'' <= 0 /\ q * 2 ^ (- e'') <= shr_m mrs'' < (q + 1) * 2 ^ (- e'')).
  { destruct H2 as [(-> & -> & _) | (Hlt & He'' & Hm & _)].
    - split; [lia | exact Hm1].
    - assert (Hnp : e'' <= 0).
      { destruct m1 as [|p1|p1]; try lia.
        - rewrite He''. unfold fexp, SpecFloat.emin, prec, emax. simpl Zdigits2. lia.
        - rewrite He''. apply (fexp_nonpos p1 (E + k) (q + 1)); [lia|].
          unfold val_le. rewrite (Z.max_r (E + k) 0), (Z.max_l (- (E + k)) 0) by lia.
          change (2 ^ 0) with 1. fold T. lia. }
      split; [exact Hnp|].
      set (s := e'' - (E + k)) in *.
      assert (Hps : 0 < 2 ^ s) by (apply Z.pow_pos_nonneg; lia).
      assert (HT : T = 2 ^ (- e'') * 2 ^ s).
      { unfold T, s. rewrite <- Z.pow_add_r by lia. f_equal. lia. }
      rewrite Hm. split.
      + apply Z.div_le_lower_bound; [lia|]. rewrite HT in Hm1. lia.
      + apply Z.div_lt_upper_bound; [lia|]. rewrite HT in Hm1. lia. }
  destruct Hfin as (Hnp & Hlo' & Hhi').
  assert (Hpe'' : 0 < 2 ^ (- e'')) by (apply Z.pow_pos_nonneg; lia).
  destruct (shr_m mrs'') as [|m|m].
  - simpl. nia.
  - assert (He''m : (e'' <=? emax - prec) = true)
      by (apply Z.leb_le; unfold emax, prec; lia).
    rewrite He''m. simpl. auto.
  - exfalso. assert (0 <= q * 2 ^ (- e'')) by (apply Z.mul_nonneg_nonneg; lia). lia.
Qed.

Lemma py_int_SF_int x q : SF_int (Prim2SF x) q -> py_int x = Ok q.
Proof.
  unfold py_int, SF_int.
  destruct (Prim2SF x) as [s | s | | [|] m e]; try contradiction.
  - now intros ->.
  - intros (He & Hlo & Hhi). unfold SFtrunc, cond_Zopp. f_equal.
    assert (Hp : 0 < 2 ^ (- e)) by (apply Z.pow_pos_nonneg; lia).
    destruct (Z.leb_spec 0 e) as [He0 | He0].
    + assert (e = 0) as -> by lia. change (2 ^ (- 0)) with 1 in *.
      change (2 ^ 0) with 1. lia.
    + assert (q <= Zpos m / 2 ^ (- e)) by (apply Z.div_le_lower_bound; lia).
      assert (Zpos m / 2 ^ (- e) < q + 1) by (apply Z.div_lt_upper_bound; lia).
      lia.
Qed.

Lemma SF_06 : Prim2SF 0.6 = S754_finite false 5404319552844595 (-53).
Proof. vm_compute. reflexivity. Qed.

(** [int(len * 0.6)] is [3 * len // 5], although the binary64 number 0.6 is
    below three fifths. *)
Lemma tail_start_three_fifths n :
  Z.of_nat n < 2 ^ 51 ->
  py_int (float_of_nat n * 0.6) = Ok (3 * Z.of_nat n / 5).
Proof.
  intros Hb. destruct n as [|n']; [reflexivity|].
  destruct (float_of_nat_exact (S n') ltac:(lia) ltac:(lia)) as (mx & ex & Hx & Hd & He & Hm).
  apply py_int_SF_int.
  rewrite FloatAxioms.mul_spec, Hx, SF_06. unfold SF64mul, SFmul. simpl xorb.
  set (n := Z.of_nat (S n')) in *. assert (Hn : 1 <= n) by (unfold n; lia).
  clearbody n. clear Hx n'.
  pose proof (digits2_pos_bounds mx) as [Dlo Dhi]. rewrite Hd in Dlo, Dhi.
  change (2 ^ (53 - 1)) with 4503599627370496 in Dlo.
  change (2 ^ 53) with 9007199254740992 in Dhi.
  change (2 ^ 51) with 2251799813685248 in Hb.
  set (a := 2 ^ (- ex)) in *.
  assert (Ha : 4 <= a).
  { destruct (Z.le_gt_cases ex (-2)) as [H2 | H2].
    - change 4 with (2 ^ 2). apply Z.pow_le_mono_r; lia.
    - exfalso. assert (ex = 0 \/ ex = -1) as [-> | ->] by lia;
        unfold a in Hm; simpl in Hm; lia. }
  assert (Hex : ex <= -2).
  { destruct (Z.le_gt_cases ex (-2)) as [H2 | H2]; [exact H2|exfalso].
    assert (ex = 0 \/ ex = -1) as [-> | ->] by lia; unfold a in Ha; simpl in Ha; lia. }
  set (q := 3 * n / 5).
  pose proof (Z.div_mod (3 * n) 5 ltac:(lia)) as Hqr.
  pose proof (Z.mod_pos_bound (3 * n) 5 ltac:(lia)) as Hr.
  fold q in Hqr. set (r := (3 * n) mod 5) in *.
  assert (Hq0 : 0 <= q) by (unfold q; apply Z.div_pos; lia).
  assert (Hqa : 3 * Zpos mx = 5 * (q * a) + r * a).
  { rewrite Hm. replace (3 * (n * a)) with ((3 * n) * a) by ring. rewrite Hqr. ring. }
  assert (Hra : 0 <= r * a <= 4 * a).
  { split; [apply Z.mul_nonneg_nonneg; lia | apply Z.mul_le_mono_nonneg_r; lia]. }
  assert (Hra1 : 1 <= r -> a <= r * a).
  { intros H1. replace a with (1 * a) at 1 by ring.
    apply Z.mul_le_mono_nonneg_r; lia. }
  set (M := Zpos (mx * 5404319552844595)).
  assert (HMz : M = Zpos mx * 5404319552844595) by (unfold M; apply Pos2Z.inj_mul).
  assert (HT : forall k, k = 52 \/ k = 53 ->
                 2 ^ (- (ex + -53 + k)) * 2 ^ k = 9007199254740992 * a).
  { intros k Hk. rewrite <- Z.pow_add_r by lia.
    replace (- (ex + -53 + k) + k) with (53 + - ex) by lia.
    rewrite Z.pow_add_r by lia. reflexivity. }
  assert (Hq53 : q + 1 < 2 ^ 53).
  { change (2 ^ 53) with 9007199254740992. unfold q.
    assert (3 * n / 5 <= 3 * n) by (apply Z.div_le_upper_bound; lia). lia. }
  assert (Hmain : forall k, k = 52 \/ k = 53 ->
            Zdigits2 M = 53 + k ->
            SF_int (binary_round_aux prec emax false M (ex + -53) loc_Exact) q).
  { intros k Hk HdM.
    assert (Hk2 : 2 ^ k = 4503599627370496 \/ 2 ^ k = 9007199254740992)
      by (destruct Hk as [-> | ->]; [left | right]; reflexivity).
    specialize (HT k Hk).
    apply (binary_round_aux_near _ _ k); [lia | exact HdM | lia | lia | exact Hq53 | |].
    - replace (2 * (q * 2 ^ (- (ex + -53 + k))) * 2 ^ k)
        with (2 * q * (2 ^ (- (ex + -53 + k)) * 2 ^ k)) by ring.
      rewrite HT. fold M.
      destruct (Z.eq_dec r 0) as [Hr0 | Hr0].
      + rewrite Hr0 in Hqa. destruct Hk2 as [-> | ->]; lia.
      + specialize (Hra1 ltac:(lia)). destruct Hk2 as [-> | ->]; lia.
    - replace (2 * ((q + 1) * 2 ^ (- (ex + -53 + k))) * 2 ^ k)
        with (2 * (q + 1) * (2 ^ (- (ex + -53 + k)) * 2 ^ k)) by ring.
      rewrite HT. fold M.
      destruct Hk2 as [-> | ->]; lia. }
  assert (Hcase : M < 40564819207303340847894502572032
                  \/ 40564819207303340847894502572032 <= M) by lia.
  destruct Hcase as [Hc | Hc].
  - apply (Hmain 52); [now left|].
    unfold M at 1. simpl Zdigits2. apply digits2_pos_unique. fold M.
    change (2 ^ (53 + 52 - 1)) with 20282409603651670423947251286016.
    change (2 ^ (53 + 52)) with 40564819207303340847894502572032. lia.
  - apply (Hmain 53); [now right|].
    unfold M at 1. simpl Zdigits2. apply digits2_pos_unique. fold M.
    change (2 ^ (53 + 53 - 1)) with 40564819207303340847894502572032.
    change (2 ^ (53 + 53)) with 81129638414606681695789005144064. lia.
Qed.

(** ** The windows, exactly *)

Lemma loadtxt_two_columns files fname skiprows ncols rows :
  np.loadtxt files fname skiprows = Ok (np.Arr2 ncols rows) -> (2 <= ncols)%nat.
Proof.
  unfold np.loadtxt. destruct (files !! fname) as [ls|]; [|discriminate].
  destruct (np.parse (skipn skiprows ls)) as [rs | e] eqn:Hp; simpl; [|discriminate].
  apply parse_rows_nonempty in Hp.
  destruct rs as [|row rs]; [discriminate|].
  destruct (forallb _ _); [|discriminate].
  unfold np.squeeze.
  destruct rs as [|row2 rs].
  { destruct row as [|a [|b row']]; discriminate. }
  destruct row as [|a [|b row']]; try discriminate.
  { now inversion Hp. }
  intros [= <- _]. simpl. lia.
Qed.

Lemma to_nat_div (n a b : nat) :
  Z.to_nat (Z.of_nat a * Z.of_nat n / Z.of_nat b) = (a * n / b)%nat.
Proof. now rewrite <- Nat2Z.inj_mul, <- Nat2Z.inj_div, Nat2Z.id. Qed.

Lemma tail_slice_half ncols rows c :
  Z.of_nat (length rows) < 2 ^ 53 ->
  tail_slice (np.Arr2 ncols rows) 0.5 c =
    if (c <? ncols)%nat
    then Ok (map (fun r => nth c r nan) (skipn (length rows / 2) rows))
    else raise "IndexError".
Proof.
  intros Hlen.
  rewrite (tail_slice_Arr2 _ _ _ _ _ (tail_start_half _ Hlen)).
  rewrite slice_from_nonneg by (apply Z.div_pos; lia).
  change 2 with (Z.of_nat 2). now rewrite <- Nat2Z.inj_div, Nat2Z.id.
Qed.

Lemma tail_slice_three_fifths ncols rows c :
  Z.of_nat (length rows) < 2 ^ 51 ->
  tail_slice (np.Arr2 ncols rows) 0.6 c =
    if (c <? ncols)%nat
    then Ok (map (fun r => nth c r nan) (skipn (3 * length rows / 5) rows))
    else raise "IndexError".
Proof.
  intros Hlen.
  rewrite (tail_slice_Arr2 _ _ _ _ _ (tail_start_three_fifths _ Hlen)).
  rewrite slice_from_nonneg by (apply Z.div_pos; lia).
  replace (Z.to_nat (3 * Z.of_nat (length rows) / 5)) with (3 * length rows / 5)%nat
    by (symmetry; exact (to_nat_div (length rows) 3 5)).
  reflexivity.
Qed.

(** X10.  [_log_interaction_energy] averages over the second half of the
    energy series: on a file whose rows after the 24 header lines form a
    2-d array, the window starts at row [len // 2] exactly (the product
    [len * 0.5] is exact in binary64), so it holds the last [len - len // 2]
    rows, the middle row included when their number is odd.  With at least
    three columns the stage succeeds and stores the mean and the standard
    deviation of columns 1 and 2 of that window and of their sum; with two
    columns it fails with [IndexError] and leaves the job as it was. *)
Theorem energy_window_is_second_half name j ncols rows :
  np.loadtxt (workspace j) (name ++ "-energy.xvg") 24 = Ok (np.Arr2 ncols rows) ->
  Z.of_nat (length rows) < 2 ^ 53 ->
  let window := skipn (length rows / 2) rows in
  let coul_energy := map (fun r => nth 1 r nan) window in
  let lj_energy := map (fun r => nth 2 r nan) window in
  let total_energy := np.add coul_energy lj_energy in
  (length window = length rows - length rows / 2)%nat
  /\ (length rows <= 2 * length window <= length rows + 1)%nat
  /\ ((3 <= ncols)%nat ->
      _log_interaction_energy name j =
        (Ok tt,
         {| sp := sp j; workspace := workspace j;
            document :=
              <[name ++ "-Etotal" :=
                  VTuple (np.mean total_energy) (np.std total_energy)]>
                (<[name ++ "-lj" := VTuple (np.mean lj_energy) (np.std lj_energy)]>
                   (<[name ++ "-qq" :=
                        VTuple (np.mean coul_energy) (np.std coul_energy)]>
                      (document j))) |}))
  /\ ((ncols < 3)%nat ->
      _log_interaction_energy name j = (Err (Exn "IndexError"), j)).
Proof.
  intros Hl Hlen window coul_energy lj_energy total_energy.
  pose proof (loadtxt_two_columns _ _ _ _ _ Hl) as H2.
  assert (Hw : length window = (length rows - length rows / 2)%nat)
    by (unfold window; apply length_skipn).
  pose proof (Nat.div_mod_eq (length rows) 2) as Hdm.
  pose proof (Nat.mod_upper_bound (length rows) 2 ltac:(lia)) as Hmod.
  split; [exact Hw|]. split; [lia|].
  rewrite log_interaction_energy_run, Hl, !tail_slice_half by exact Hlen.
  assert (H1 : (1 <? ncols)%nat = true) by (apply Nat.ltb_lt; lia).
  rewrite H1. split; intros H3.
  - assert (H3' : (2 <? ncols)%nat = true) by (apply Nat.ltb_lt; lia).
    rewrite H3'. reflexivity.
  - assert (H3' : (2 <? ncols)%nat = false) by (apply Nat.ltb_ge; lia).
    rewrite H3'. reflexivity.
Qed.

Lemma energy_window_is_second_half_witness :
  Z.of_nat (length (map (fun t => [t; -8; 2 * -8]%float) [0; 1; 2; 3; 4]%float)) < 2 ^ 53
  /\ (let rows := map (fun t => [t; -8; 2 * -8]%float) [0; 1; 2; 3; 4]%float in
      let window := skipn (length rows / 2) rows in
      let coul_energy := map (fun r => nth 1 r nan) window in
      let lj_energy := map (fun r => nth 2 r nan) window in
      let total_energy := np.add coul_energy lj_energy in
      (length window = length rows - length rows / 2)%nat
      /\ (length rows <= 2 * length window <= length rows + 1)%nat
      /\ ((3 <= 3)%nat ->
          _log_interaction_energy "shear_5nN" sample_job =
            (Ok tt,
             {| sp := sp sample_job; workspace := workspace sample_job;
                document :=
                  <["shear_5nN" ++ "-Etotal" :=
                      VTuple (np.mean total_energy) (np.std total_energy)]>
                    (<["shear_5nN" ++ "-lj" :=
                         VTuple (np.mean lj_energy) (np.std lj_energy)]>
                       (<["shear_5nN" ++ "-qq" :=
                            VTuple (np.mean coul_energy) (np.std coul_energy)]>
                          (document sample_job))) |}))
      /\ ((3 < 3)%nat ->
          _log_interaction_energy "shear_5nN" sample_job
          = (Err (Exn "IndexError"), sample_job))).
Proof.
  split; [reflexivity|].
  apply (energy_window_is_second_half "shear_5nN" sample_job 3
           (map (fun t => [t; -8; 2 * -8]%float) [0; 1; 2; 3; 4]%float));
    [vm_compute; reflexivity | reflexivity].
Defined.

(** X11.  The window of the six shear reductions (S2, tilt, friction and
    interdigitation, skip fraction 0.6) starts at row [3 * len // 5]
    exactly, for every series of fewer than 2^51 rows, although the
    binary64 number 0.6 is below three fifths: the reducer returns the mean
    of column [c] over the last [len - 3 * len // 5] rows, which are at
    least two fifths of the series. *)
Theorem shear_window_is_last_two_fifths ncols rows c :
  Z.of_nat (length rows) < 2 ^ 51 -> (c < ncols)%nat ->
  let window := skipn (3 * length rows / 5) rows in
  py_int (float_of_nat (length rows) * 0.6) = Ok (3 * Z.of_nat (length rows) / 5)
  /\ tail_slice (np.Arr2 ncols rows) 0.6 c = Ok (map (fun r => nth c r nan) window)
  /\ reducer 0.6 c (np.Arr2 ncols rows) = Ok (np.mean (map (fun r => nth c r nan) window))
  /\ (length window = length rows - 3 * length rows / 5)%nat
  /\ (2 * length rows <= 5 * length window <= 2 * length rows + 4)%nat.
Proof.
  intros Hlen Hc window.
  assert (Ht : tail_slice (np.Arr2 ncols rows) 0.6 c
               = Ok (map (fun r => nth c r nan) window)).
  { rewrite tail_slice_three_fifths by exact Hlen.
    apply Nat.ltb_lt in Hc. now rewrite Hc. }
  assert (Hw : length window = (length rows - 3 * length rows / 5)%nat)
    by (unfold window; apply length_skipn).
  pose proof (Nat.div_mod_eq (3 * length rows) 5) as Hdm.
  pose proof (Nat.mod_upper_bound (3 * length rows) 5 ltac:(lia)) as Hmod.
  split; [now apply tail_start_three_fifths|]. split; [exact Ht|]. split.
  - unfold reducer. now rewrite Ht.
  - split; [exact Hw | lia].
Qed.

Lemma shear_window_is_last_two_fifths_witness :
  Z.of_nat (length (repeat [0; 0.1; 0.2]%float 7)) < 2 ^ 51
  /\ (let rows := repeat [0; 0.1; 0.2]%float 7 in
      let window := skipn (3 * length rows / 5) rows in
      py_int (float_of_nat (length rows) * 0.6) = Ok (3 * Z.of_nat (length rows) / 5)
      /\ tail_slice (np.Arr2 3 rows) 0.6 1 = Ok (map (fun r => nth 1 r nan) window)
      /\ reducer 0.6 1 (np.Arr2 3 rows)
         = Ok (np.mean (map (fun r => nth 1 r nan) window))
      /\ (length window = length rows - 3 * length rows / 5)%nat
      /\ (2 * length rows <= 5 * length window <= 2 * length rows + 4)%nat).
Proof.
  split; [reflexivity|].
  apply (shear_window_is_last_two_fifths 3 (repeat [0; 0.1; 0.2]%float 7) 1);
    [reflexivity | simpl; lia].
Defined.

Lemma friction_force_step load acc j data tail :
  np.loadtxt (workspace j) ("friction_" ++ load_key load ++ ".txt") 0 = Ok data ->
  tail_slice data 0.6 1 = Ok tail ->
  (friction_data ← loadtxt ("friction_" ++ load_key load ++ ".txt") 0;
   friction_data ← lift (tail_slice friction_data 0.6 1);
   mret (acc ++ [np.mean friction_data])%list) j
  = (Ok (acc ++ [np.mean tail])%list, j).
Proof.
  intros Hl Ht. rewrite stage_bind_unfold. unfold loadtxt at 1. rewrite Hl.
  rewrite stage_bind_unfold. unfold lift at 1. rewrite Ht. reflexivity.
Qed.

(** X12.  [log_cof] cannot fail on well-formed input: whenever the three
    friction files load as 2-d arrays, whatever numbers they hold, each
    reduction yields a force, the regression of the forces on the loads
    5, 15 and 25 yields a slope and an intercept, and the stage stores
    them. *)
Theorem log_cof_total lib j n5 rows5 n15 rows15 n25 rows25 :
  np.loadtxt (workspace j) "friction_5nN.txt" 0 = Ok (np.Arr2 n5 rows5) ->
  np.loadtxt (workspace j) "friction_15nN.txt" 0 = Ok (np.Arr2 n15 rows15) ->
  np.loadtxt (workspace j) "friction_25nN.txt" 0 = Ok (np.Arr2 n25 rows25) ->
  Z.of_nat (length rows5) < 2 ^ 53 -> Z.of_nat (length rows15) < 2 ^ 53 ->
  Z.of_nat (length rows25) < 2 ^ 53 ->
  exists f5 f15 f25 cof intercept,
    reducer 0.6 1 (np.Arr2 n5 rows5) = Ok f5
    /\ reducer 0.6 1 (np.Arr2 n15 rows15) = Ok f15
    /\ reducer 0.6 1 (np.Arr2 n25 rows25) = Ok f25
    /\ stats.linregress (linregress_rejects_identical_x lib) [5; 15; 25]%nat
         [f5; f15; f25] = Ok (cof, intercept)
    /\ log_cof lib j =
         (Ok tt, {| sp := sp j; workspace := workspace j;
                    document := <["intercept" := VFloat intercept]>
                                  (<["COF" := VFloat cof]> (document j)) |}).
Proof.
  intros H5 H15 H25 L5 L15 L25.
  assert (Hred : forall n rows fname,
             np.loadtxt (workspace j) fname 0 = Ok (np.Arr2 n rows) ->
             Z.of_nat (length rows) < 2 ^ 53 ->
             exists tail, tail_slice (np.Arr2 n rows) 0.6 1 = Ok tail
                          /\ reducer 0.6 1 (np.Arr2 n rows) = Ok (np.mean tail)).
  { intros n rows fname Hl Hlen.
    pose proof (loadtxt_two_columns _ _ _ _ _ Hl) as H2.
    destruct (tail_start_le (length rows) 0.6 Hlen eq_refl eq_refl) as (k & Hk & Hr).
    destruct (tail_slice_window n rows 0.6 1 k ltac:(lia) Hk Hr) as (tail & Ht & _ & Hm).
    now exists tail. }
  destruct (Hred _ _ _ H5 L5) as (t5 & T5 & R5).
  destruct (Hred _ _ _ H15 L15) as (t15 & T15 & R15).
  destruct (Hred _ _ _ H25 L25) as (t25 & T25 & R25).
  destruct (linregress_fixed_loads (linregress_rejects_identical_x lib)
              [np.mean t5; np.mean t15; np.mean t25] eq_refl)
    as (cof & intercept & Hreg).
  exists (np.mean t5), (np.mean t15), (np.mean t25), cof, intercept.
  repeat (split; [assumption|]).
  unfold log_cof. rewrite log_cof_loads_run.
  assert (Hf : mean_friction_forces [5; 15; 25]%nat j
               = (Ok [np.mean t5; np.mean t15; np.mean t25], j)).
  { unfold mean_friction_forces. cbn [for_in].
    apply bind_step with (a := [np.mean t5]) (j1 := j);
      [apply (friction_force_step 5 [] j (np.Arr2 n5 rows5) t5);
         [name_loads; exact H5 | exact T5]|].
    apply bind_step with (a := [np.mean t5; np.mean t15]) (j1 := j);
      [apply (friction_force_step 15 [np.mean t5] j (np.Arr2 n15 rows15) t15);
         [name_loads; exact H15 | exact T15]|].
    apply bind_step with (a := [np.mean t5; np.mean t15; np.mean t25]) (j1 := j);
      [apply (friction_force_step 25 [np.mean t5; np.mean t15] j (np.Arr2 n25 rows25) t25);
         [name_loads; exact H25 | exact T25]|].
    reflexivity. }
  rewrite Hf. cbn [fst]. rewrite Hreg. reflexivity.
Qed.

Lemma log_cof_total_witness :
  exists f5 f15 f25 cof intercept,
    reducer 0.6 1 (np.Arr2 3 (map (fun t => [t; 1; 2 * 1]%float) [0; 1; 2; 3; 4]%float))
    = Ok f5
    /\ reducer 0.6 1 (np.Arr2 3 (map (fun t => [t; 2; 2 * 2]%float) [0; 1; 2; 3; 4]%float))
       = Ok f15
    /\ reducer 0.6 1 (np.Arr2 3 (map (fun t => [t; 3; 2 * 3]%float) [0; 1; 2; 3; 4]%float))
       = Ok f25
    /\ stats.linregress (linregress_rejects_identical_x (copy_tools false))
         [5; 15; 25]%nat [f5; f15; f25] = Ok (cof, intercept)
    /\ log_cof (copy_tools false) sample_job =
         (Ok tt, {| sp := sp sample_job; workspace := workspace sample_job;
                    document := <["intercept" := VFloat intercept]>
                                  (<["COF" := VFloat cof]> (document sample_job)) |}).
Proof.
  apply (log_cof_total (copy_tools false) sample_job
           3 (map (fun t => [t; 1; 2 * 1]%float) [0; 1; 2; 3; 4]%float)
           3 (map (fun t => [t; 2; 2 * 2]%float) [0; 1; 2; 3; 4]%float)
           3 (map (fun t => [t; 3; 2 * 3]%float) [0; 1; 2; 3; 4]%float));
    first [reflexivity | vm_compute; reflexivity].
Defined.
